(** * Architecture-flow-visualizer: canvas engine and command history

    A shallow embedding of [src/js/canvas-engine.js] (the interactive
    [CanvasEngine] class), [src/js/utils.js], [src/js/layer-manager.js]
    and the undo/redo part of [src/js/app.js], together with the
    properties of the viewport transform, the hit tests, the scene
    store, the layer manager and the command history.

    Numbers.  The methods are given twice.

    The engine as a whole reads JavaScript numbers as exact rationals
    [Q]; [===] on numbers is [Qeq_bool].  This is the reading in which
    the geometric properties (inverse transforms, the fixed point of a
    zoom, distances, fitting) hold exactly, and every statement that
    depends on it says so.  Two operations leave the rationals:

    - a quotient whose divisor is zero has no rational value (IEEE gives
      an infinity or NaN): [jsdiv] returns [None] there, and every
      function that divides lives in the [arith] monad;
    - [Math.sqrt] of a rational is kept as a formal square root
      ([MathSqrt radicand]) and compared with a rational on the squares;
      [Surd_leb_sqrt] relates the comparison to the real square root.

    The module [Binary64] gives the numeric methods over IEEE 754
    binary64 ([PrimFloat.float]), as the program runs them: every
    operation is rounded, a division by zero yields an infinity or NaN
    and the computation goes on.  The lemmas named [binary64_...]
    evaluate them where rounding makes the program differ from the exact
    reading.  Statements that do not compute with coordinates (scan
    order, guards, dispatch, the stores, the history) do not depend on
    the reading.

    Objects.  A [Map] is an association list in insertion order with
    unique keys; an object with optional properties is a record of
    [option] fields; [null] is [None]. *)

From Stdlib Require PrimFloat.
From Stdlib Require Import Reals Qreals Lra.
From Stdlib Require Import QArith Qminmax Lqa ZArith Lia.
From Stdlib Require Import List String Ascii Bool.
Import ListNotations.

Local Open Scope string_scope.
Local Open Scope Q_scope.

(* ================================================================== *)
(** ** Arithmetic layer *)

Module Arith.

(** Result of a computation that may divide. *)
Definition arith (A : Type) : Type := option A.

Definition ret {A} (a : A) : arith A := Some a.

Definition bind {A B} (m : arith A) (k : A -> arith B) : arith B :=
  match m with
  | Some a => k a
  | None => None
  end.

(** [a / b] *)
Definition jsdiv (a b : Q) : arith Q :=
  if Qeq_bool b 0 then None else Some (a / b).

(** The value [Math.sqrt(radicand)]. *)
Inductive Surd : Type := MathSqrt (radicand : Q).

Definition radicand (s : Surd) : Q := let 'MathSqrt r := s in r.

(** [s <= t] for a square root [s] and a rational [t]: false for a
    negative radicand (NaN) and for a negative [t]. *)
Definition Surd_leb (s : Surd) (t : Q) : bool :=
  Qle_bool 0 (radicand s) && Qle_bool 0 t && Qle_bool (radicand s) (t * t).

(** [a > b] on numbers *)
Definition Qgtb (a b : Q) : bool := negb (Qle_bool a b).

(** [a < b] on numbers *)
Definition Qltb (a b : Q) : bool := negb (Qle_bool b a).

End Arith.
Import Arith.

Notation "x <- m ;; k" := (bind m (fun x => k))
  (at level 61, m at next level, right associativity).

(* ================================================================== *)
(** ** [utils.js] *)

Record Point : Type := mkPoint { px : Q; py : Q }.

Record Rect : Type := mkRect { rx : Q; ry : Q; rwidth : Q; rheight : Q }.

Module Utils.

(** [Utils.pointInRect(point, rect)] *)
Definition pointInRect (point : Point) (rect : Rect) : bool :=
  Qle_bool (rx rect) (px point) &&
  Qle_bool (px point) (rx rect + rwidth rect) &&
  Qle_bool (ry rect) (py point) &&
  Qle_bool (py point) (ry rect + rheight rect).

(** [Utils.clamp(value, min, max)] : [Math.min(Math.max(value, min), max)] *)
Definition clamp (value min max : Q) : Q := Qmin (Qmax value min) max.

End Utils.

(** Equality of points up to equality of rationals. *)
Definition Peq (p q : Point) : Prop := px p == px q /\ py p == py q.

(* ================================================================== *)
(** ** JavaScript [Map] with string keys *)

Module JsMap.

Definition t (V : Type) : Type := list (string * V).

Definition empty {V} : t V := [].

(** [m.get(k)] *)
Fixpoint get {V} (m : t V) (k : string) : option V :=
  match m with
  | [] => None
  | (k', v) :: m' => if String.eqb k' k then Some v else get m' k
  end.

(** [m.set(k, v)]: an existing key keeps its place in the iteration
    order, a new key goes last. *)
Fixpoint set {V} (m : t V) (k : string) (v : V) : t V :=
  match m with
  | [] => [(k, v)]
  | (k', v') :: m' =>
      if String.eqb k' k then (k', v) :: m' else (k', v') :: set m' k v
  end.

(** [m.delete(k)] *)
Fixpoint delete {V} (m : t V) (k : string) : t V :=
  match m with
  | [] => []
  | (k', v') :: m' =>
      if String.eqb k' k then m' else (k', v') :: delete m' k
  end.

(** [m.values()] in iteration order *)
Definition values {V} (m : t V) : list V := map snd m.

Definition keys {V} (m : t V) : list string := map fst m.

(** [m.size] *)
Definition size {V} (m : t V) : nat := List.length m.

(** The representation invariant: no key occurs twice. *)
Definition wf {V} (m : t V) : Prop := NoDup (keys m).

End JsMap.

(* ================================================================== *)
(** ** Data model of [CanvasEngine] *)

Record Node : Type := mkNode {
  node_id : string;
  node_x : Q;
  node_y : Q;
  node_label : string;
  node_layer : string;
  node_type : string
}.

Record Connection : Type := mkConnection {
  conn_id : string;
  conn_from : string;
  conn_to : string;
  conn_label : string;
  conn_type : string
}.

Record Layer : Type := mkLayer {
  layer_visible : bool;
  layer_color : string;
  layer_name : string
}.

Record Viewport : Type := mkViewport {
  vx : Q;
  vy : Q;
  zoom : Q;
  minZoom : Q;
  maxZoom : Q
}.

Record NodeSize : Type := mkNodeSize { width : Q; height : Q }.

(** A call of [onZoomChange], [onNodeClick] or [onConnectionClick]. *)
Inductive Event : Type :=
| ZoomChange (newZoom : Q)
| NodeClick (node : Node)
| ConnectionClick (connection : Connection).

(** The fields of [this] that the modelled methods read or write.
    [randomStrings n] is the string that the [n]-th evaluation of
    [Math.random().toString(36).substr(2, 9)] yields and [rngCalls]
    counts the evaluations made so far; [renders] counts the calls of [render()];
    [events] is the list of callbacks fired, latest first; [errors] is the [console.error] log, latest first. *)
Record Engine : Type := mkEngine {
  nodeSize : NodeSize;
  nodes : JsMap.t Node;
  connections : list Connection;
  layers : JsMap.t Layer;
  selectedNode : option Node;
  hoveredNode : option Node;
  selectedConnection : option Connection;
  hoveredConnection : option Connection;
  highlightedNode : option Node;
  highlightedNodes : list string;
  highlightedConnections : list Connection;
  viewport : Viewport;
  hasDragged : bool;
  randomStrings : nat -> string;
  rngCalls : nat;
  renders : nat;
  events : list Event;
  errors : list string
}.

(** The state built by the constructor for the default options. *)
Definition newEngine (random : nat -> string) : Engine :=
  {| nodeSize := {| width := 120; height := 80 |};
     nodes := JsMap.empty;
     connections := [];
     layers := JsMap.empty;
     selectedNode := None;
     hoveredNode := None;
     selectedConnection := None;
     hoveredConnection := None;
     highlightedNode := None;
     highlightedNodes := [];
     highlightedConnections := [];
     viewport := {| vx := 0; vy := 0; zoom := 1;
                    minZoom := 1 # 10; maxZoom := 3 |};
     hasDragged := false;
     randomStrings := random;
     rngCalls := 0;
     renders := 1;
     events := [];
     errors := [] |}.

(* ================================================================== *)
(** ** Viewport transform *)

(** [screenToWorld(screenPos)], in exact arithmetic (in binary64:
    [Binary64.screenToWorld]) *)
Definition screenToWorld (v : Viewport) (screenPos : Point) : arith Point :=
  x <- jsdiv (px screenPos - vx v) (zoom v) ;;
  y <- jsdiv (py screenPos - vy v) (zoom v) ;;
  ret {| px := x; py := y |}.

(** [worldToScreen(worldPos)] *)
Definition worldToScreen (v : Viewport) (worldPos : Point) : Point :=
  {| px := px worldPos * zoom v + vx v;
     py := py worldPos * zoom v + vy v |}.

(** [handleWheel(e)], on the viewport, in exact arithmetic (in
    binary64: [Binary64.handleWheel]): [mousePos] is
    [getMousePosition(e)] and [deltaY] is [e.deltaY].  The boolean tells
    whether the branch that re-renders and fires [onZoomChange] ran. *)
Definition zoomFactor (deltaY : Q) : Q :=
  if Qgtb deltaY 0 then 9 # 10 else 11 # 10.

Definition wheelZoom (v : Viewport) (deltaY : Q) : Q :=
  Utils.clamp (zoom v * zoomFactor deltaY) (minZoom v) (maxZoom v).

Definition handleWheel_viewport (v : Viewport) (mousePos : Point) (deltaY : Q)
  : arith (Viewport * bool) :=
  let newZoom := wheelZoom v deltaY in
  if negb (Qeq_bool newZoom (zoom v)) then
    zoomRatio <- jsdiv newZoom (zoom v) ;;
    ret ({| vx := px mousePos - (px mousePos - vx v) * zoomRatio;
            vy := py mousePos - (py mousePos - vy v) * zoomRatio;
            zoom := newZoom;
            minZoom := minZoom v;
            maxZoom := maxZoom v |}, true)
  else ret (v, false).

(** [handleWheel(e)] on the engine. *)
Definition handleWheel (e : Engine) (mousePos : Point) (deltaY : Q)
  : arith Engine :=
  r <- handleWheel_viewport (viewport e) mousePos deltaY ;;
  let '(v', changed) := r in
  ret (if changed then
         {| nodeSize := nodeSize e; nodes := nodes e;
            connections := connections e; layers := layers e;
            selectedNode := selectedNode e; hoveredNode := hoveredNode e;
            selectedConnection := selectedConnection e;
            hoveredConnection := hoveredConnection e;
            highlightedNode := highlightedNode e;
            highlightedNodes := highlightedNodes e;
            highlightedConnections := highlightedConnections e;
            viewport := v'; hasDragged := hasDragged e;
            randomStrings := randomStrings e;
            rngCalls := rngCalls e;
            renders := S (renders e);
            events := ZoomChange (zoom v') :: events e;
            errors := errors e |}
       else e).

(* ================================================================== *)
(** ** Layers and hit testing *)

(** [addLayer(layerId, layerInfo)]: [visible] defaults to [true],
    [color] to ['#3b82f6'] and [name] to the id; a property that
    [layerInfo] has overrides the default. *)
Record LayerInfo : Type := mkLayerInfo {
  li_visible : option bool;
  li_color : option string;
  li_name : option string
}.

Definition withDefault {A} (o : option A) (d : A) : A :=
  match o with Some a => a | None => d end.

Definition set_layers (e : Engine) (ls : JsMap.t Layer) : Engine :=
  {| nodeSize := nodeSize e; nodes := nodes e;
     connections := connections e; layers := ls;
     selectedNode := selectedNode e; hoveredNode := hoveredNode e;
     selectedConnection := selectedConnection e;
     hoveredConnection := hoveredConnection e;
     highlightedNode := highlightedNode e;
     highlightedNodes := highlightedNodes e;
     highlightedConnections := highlightedConnections e;
     viewport := viewport e; hasDragged := hasDragged e;
     randomStrings := randomStrings e; rngCalls := rngCalls e;
     renders := renders e; events := events e;
     errors := errors e |}.

Definition addLayer (e : Engine) (layerId : string) (layerInfo : LayerInfo)
  : Engine :=
  set_layers e
    (JsMap.set (layers e) layerId
       {| layer_visible := withDefault (li_visible layerInfo) true;
          layer_color := withDefault (li_color layerInfo) "#3b82f6";
          layer_name := withDefault (li_name layerInfo) layerId |}).

(** [isLayerVisible(layerId)] *)
Definition isLayerVisible (e : Engine) (layerId : string) : bool :=
  match JsMap.get (layers e) layerId with
  | None => if Nat.eqb (JsMap.size (layers e)) 0 then true else true
  | Some layer => layer_visible layer
  end.

(** The rectangle a node occupies: [width x height] centred at [(x, y)]. *)
Definition nodeRect (e : Engine) (node : Node) : Rect :=
  {| rx := node_x node - width (nodeSize e) / 2;
     ry := node_y node - height (nodeSize e) / 2;
     rwidth := width (nodeSize e);
     rheight := height (nodeSize e) |}.

(** The loop of [getNodeAtPosition] over [this.nodes.values()]. *)
Fixpoint scanNodes (e : Engine) (worldPos : Point) (ns : list Node)
  : option Node :=
  match ns with
  | [] => None
  | node :: rest =>
      if negb (isLayerVisible e (node_layer node)) then
        scanNodes e worldPos rest
      else if Utils.pointInRect worldPos (nodeRect e node) then Some node
      else scanNodes e worldPos rest
  end.

(** [getNodeAtPosition(screenPos)] *)
Definition getNodeAtPosition (e : Engine) (screenPos : Point)
  : arith (option Node) :=
  worldPos <- screenToWorld (viewport e) screenPos ;;
  ret (scanNodes e worldPos (JsMap.values (nodes e))).

(** [pointToLineDistance(point, lineStart, lineEnd)], in exact
    arithmetic with the square root kept formal (in binary64:
    [Binary64.pointToLineDistance]) *)
Definition pointToLineDistance (point lineStart lineEnd : Point) : arith Surd :=
  let A := px point - px lineStart in
  let B := py point - py lineStart in
  let C := px lineEnd - px lineStart in
  let D := py lineEnd - py lineStart in
  let dot := A * C + B * D in
  let lenSq := C * C + D * D in
  if Qeq_bool lenSq 0 then ret (MathSqrt (A * A + B * B))
  else
    param <- jsdiv dot lenSq ;;
    let '(xx, yy) :=
      if Qltb param 0 then (px lineStart, py lineStart)
      else if Qgtb param 1 then (px lineEnd, py lineEnd)
      else (px lineStart + param * C, py lineStart + param * D) in
    let dx := px point - xx in
    let dy := py point - yy in
    ret (MathSqrt (dx * dx + dy * dy)).

(** The click tolerance of [getConnectionAtPosition]. *)
Definition tolerance : Q := 8.

(** The loop of [getConnectionAtPosition] over [this.connections]. *)
Fixpoint scanConnections (e : Engine) (worldPos : Point)
    (cs : list Connection) : arith (option Connection) :=
  match cs with
  | [] => ret None
  | connection :: rest =>
      match JsMap.get (nodes e) (conn_from connection),
            JsMap.get (nodes e) (conn_to connection) with
      | Some fromNode, Some toNode =>
          if negb (isLayerVisible e (node_layer fromNode))
             || negb (isLayerVisible e (node_layer toNode))
          then scanConnections e worldPos rest
          else
            let fromCenter := {| px := node_x fromNode; py := node_y fromNode |} in
            let toCenter := {| px := node_x toNode; py := node_y toNode |} in
            distance <- pointToLineDistance worldPos fromCenter toCenter ;;
            if Surd_leb distance tolerance then ret (Some connection)
            else scanConnections e worldPos rest
      | _, _ => scanConnections e worldPos rest
      end
  end.

(** [getConnectionAtPosition(screenPos)] *)
Definition getConnectionAtPosition (e : Engine) (screenPos : Point)
  : arith (option Connection) :=
  worldPos <- screenToWorld (viewport e) screenPos ;;
  scanConnections e worldPos (connections e).

(* ================================================================== *)
(** ** Scene store *)

Definition set_nodes (e : Engine) (ns : JsMap.t Node) : Engine :=
  {| nodeSize := nodeSize e; nodes := ns;
     connections := connections e; layers := layers e;
     selectedNode := selectedNode e; hoveredNode := hoveredNode e;
     selectedConnection := selectedConnection e;
     hoveredConnection := hoveredConnection e;
     highlightedNode := highlightedNode e;
     highlightedNodes := highlightedNodes e;
     highlightedConnections := highlightedConnections e;
     viewport := viewport e; hasDragged := hasDragged e;
     randomStrings := randomStrings e; rngCalls := rngCalls e;
     renders := renders e; events := events e;
     errors := errors e |}.

Definition set_connections (e : Engine) (cs : list Connection) : Engine :=
  {| nodeSize := nodeSize e; nodes := nodes e;
     connections := cs; layers := layers e;
     selectedNode := selectedNode e; hoveredNode := hoveredNode e;
     selectedConnection := selectedConnection e;
     hoveredConnection := hoveredConnection e;
     highlightedNode := highlightedNode e;
     highlightedNodes := highlightedNodes e;
     highlightedConnections := highlightedConnections e;
     viewport := viewport e; hasDragged := hasDragged e;
     randomStrings := randomStrings e; rngCalls := rngCalls e;
     renders := renders e; events := events e;
     errors := errors e |}.

Definition set_selectedNode (e : Engine) (n : option Node) : Engine :=
  {| nodeSize := nodeSize e; nodes := nodes e;
     connections := connections e; layers := layers e;
     selectedNode := n; hoveredNode := hoveredNode e;
     selectedConnection := selectedConnection e;
     hoveredConnection := hoveredConnection e;
     highlightedNode := highlightedNode e;
     highlightedNodes := highlightedNodes e;
     highlightedConnections := highlightedConnections e;
     viewport := viewport e; hasDragged := hasDragged e;
     randomStrings := randomStrings e; rngCalls := rngCalls e;
     renders := renders e; events := events e;
     errors := errors e |}.

Definition set_hoveredNode (e : Engine) (n : option Node) : Engine :=
  {| nodeSize := nodeSize e; nodes := nodes e;
     connections := connections e; layers := layers e;
     selectedNode := selectedNode e; hoveredNode := n;
     selectedConnection := selectedConnection e;
     hoveredConnection := hoveredConnection e;
     highlightedNode := highlightedNode e;
     highlightedNodes := highlightedNodes e;
     highlightedConnections := highlightedConnections e;
     viewport := viewport e; hasDragged := hasDragged e;
     randomStrings := randomStrings e; rngCalls := rngCalls e;
     renders := renders e; events := events e;
     errors := errors e |}.

(** [render()] *)
Definition render (e : Engine) : Engine :=
  {| nodeSize := nodeSize e; nodes := nodes e;
     connections := connections e; layers := layers e;
     selectedNode := selectedNode e; hoveredNode := hoveredNode e;
     selectedConnection := selectedConnection e;
     hoveredConnection := hoveredConnection e;
     highlightedNode := highlightedNode e;
     highlightedNodes := highlightedNodes e;
     highlightedConnections := highlightedConnections e;
     viewport := viewport e; hasDragged := hasDragged e;
     randomStrings := randomStrings e; rngCalls := rngCalls e;
     renders := S (renders e); events := events e;
     errors := errors e |}.

(** [console.error(msg, ...)] *)
Definition console_error (e : Engine) (msg : string) : Engine :=
  {| nodeSize := nodeSize e; nodes := nodes e;
     connections := connections e; layers := layers e;
     selectedNode := selectedNode e; hoveredNode := hoveredNode e;
     selectedConnection := selectedConnection e;
     hoveredConnection := hoveredConnection e;
     highlightedNode := highlightedNode e;
     highlightedNodes := highlightedNodes e;
     highlightedConnections := highlightedConnections e;
     viewport := viewport e; hasDragged := hasDragged e;
     randomStrings := randomStrings e; rngCalls := rngCalls e;
     renders := renders e; events := events e;
     errors := msg :: errors e |}.

(** [Utils.generateId()] *)
Definition generateId (e : Engine) : string * Engine :=
  ("id_" ++ randomStrings e (rngCalls e),
   {| nodeSize := nodeSize e; nodes := nodes e;
      connections := connections e; layers := layers e;
      selectedNode := selectedNode e; hoveredNode := hoveredNode e;
      selectedConnection := selectedConnection e;
      hoveredConnection := hoveredConnection e;
      highlightedNode := highlightedNode e;
      highlightedNodes := highlightedNodes e;
      highlightedConnections := highlightedConnections e;
      viewport := viewport e; hasDragged := hasDragged e;
      randomStrings := randomStrings e; rngCalls := S (rngCalls e);
      renders := renders e; events := events e;
      errors := errors e |}).

(** Truthiness of a string: the empty string is falsy. *)
Definition truthy (s : string) : bool := negb (String.eqb s "").

(** [o.p || generateId()] for an optional string property [p]. *)
Definition orGenerateId (p : option string) (e : Engine) : string * Engine :=
  match p with
  | Some s => if truthy s then (s, e) else generateId e
  | None => generateId e
  end.

(** The argument of [addNode]: each property may be absent. *)
Record NodeData : Type := mkNodeData {
  nd_id : option string;
  nd_x : option Q;
  nd_y : option Q;
  nd_label : option string;
  nd_layer : option string;
  nd_type : option string
}.

(** [addNode(nodeData)]: the object literal lists the defaults first and
    spreads [nodeData] last, so a property that [nodeData] has wins,
    also over the [id] computed for the key. *)
Definition addNode (e : Engine) (nodeData : NodeData) : Node * Engine :=
  let '(nodeId, e1) := orGenerateId (nd_id nodeData) e in
  let node :=
    {| node_id := withDefault (nd_id nodeData) nodeId;
       node_x := withDefault (nd_x nodeData) 0;
       node_y := withDefault (nd_y nodeData) 0;
       node_label := withDefault (nd_label nodeData) "Node";
       node_layer := withDefault (nd_layer nodeData) "default";
       node_type := withDefault (nd_type nodeData) "default" |} in
  (node, set_nodes e1 (JsMap.set (nodes e1) nodeId node)).

(** The test of the two [filter] calls that drop the connections of a
    node: [conn.from !== nodeId && conn.to !== nodeId]. *)
Definition notIncident (nodeId : string) (conn : Connection) : bool :=
  negb (String.eqb (conn_from conn) nodeId) &&
  negb (String.eqb (conn_to conn) nodeId).

(** [removeNode(nodeId)].  The class body declares the method twice;
    the later declaration, modelled here, is the one in effect. *)
Definition removeNode (e : Engine) (nodeId : string) : Engine :=
  let e1 := set_nodes e (JsMap.delete (nodes e) nodeId) in
  let e2 := set_connections e1 (filter (notIncident nodeId) (connections e1)) in
  match selectedNode e2 with
  | Some sel =>
      if String.eqb (node_id sel) nodeId then set_selectedNode e2 None else e2
  | None => e2
  end.

(** An object passed as a connection: each property may be absent. *)
Record ConnSpec : Type := mkConnSpec {
  cs_id : option string;
  cs_from : option string;
  cs_to : option string;
  cs_label : option string;
  cs_type : option string
}.

(** The first argument of a call of [addConnection]: callers pass a
    connection object or a string (a node id). *)
Inductive ConnArg : Type :=
| ArgObject (connection : ConnSpec)
| ArgString (s : string).

Definition truthyProp (p : option string) : bool :=
  match p with Some s => truthy s | None => false end.

(** [addConnection(connection)] *)
Definition addConnection (e : Engine) (connection : ConnArg)
  : option Connection * Engine :=
  match connection with
  | ArgObject c =>
      if truthyProp (cs_from c) && truthyProp (cs_to c) then
        let '(newId, e1) := orGenerateId (cs_id c) e in
        let conn :=
          {| conn_id := withDefault (cs_id c) newId;
             conn_from := withDefault (cs_from c) "";
             conn_to := withDefault (cs_to c) "";
             conn_label := withDefault (cs_label c) "";
             conn_type := withDefault (cs_type c) "default" |} in
        (Some conn, set_connections e1 (connections e1 ++ [conn])%list)
      else (None, console_error e "Invalid connection format:")
  | ArgString _ => (None, console_error e "Invalid connection format:")
  end.

(** The test of the [filter] call in [removeConnection]. *)
Definition keptByRemove (fromId toId : string) (conn : Connection) : bool :=
  negb (String.eqb (conn_from conn) fromId && String.eqb (conn_to conn) toId) &&
  negb (String.eqb (conn_from conn) toId && String.eqb (conn_to conn) fromId).

(** [removeConnection(fromId, toId)] *)
Definition removeConnection (e : Engine) (fromId toId : string)
  : bool * Engine :=
  let initialLength := List.length (connections e) in
  let e1 := set_connections e (filter (keptByRemove fromId toId) (connections e)) in
  (Nat.ltb (List.length (connections e1)) initialLength, e1).

(** [clearHighlights()] *)
Definition clearHighlights (e : Engine) : Engine :=
  {| nodeSize := nodeSize e; nodes := nodes e;
     connections := connections e; layers := layers e;
     selectedNode := selectedNode e; hoveredNode := hoveredNode e;
     selectedConnection := selectedConnection e;
     hoveredConnection := hoveredConnection e;
     highlightedNode := None;
     highlightedNodes := [];
     highlightedConnections := [];
     viewport := viewport e; hasDragged := hasDragged e;
     randomStrings := randomStrings e; rngCalls := rngCalls e;
     renders := renders e; events := events e;
     errors := errors e |}.

(** [clearAll()] *)
Definition clearAll (e : Engine) : Engine :=
  let e1 := set_nodes e JsMap.empty in
  let e2 := set_connections e1 [] in
  let e3 := set_selectedNode e2 None in
  let e4 := set_hoveredNode e3 None in
  clearHighlights e4.

(* ================================================================== *)
(** ** Click dispatch *)

(** The two assignments to the selection and the callback made by a
    branch of [handleClick], followed by [render()] when [rerender]. *)
Definition afterClick (e : Engine) (selNode : option Node)
    (selConn : option Connection) (fired : list Event) (rerender : bool)
  : Engine :=
  {| nodeSize := nodeSize e; nodes := nodes e;
     connections := connections e; layers := layers e;
     selectedNode := selNode; hoveredNode := hoveredNode e;
     selectedConnection := selConn;
     hoveredConnection := hoveredConnection e;
     highlightedNode := highlightedNode e;
     highlightedNodes := highlightedNodes e;
     highlightedConnections := highlightedConnections e;
     viewport := viewport e; hasDragged := hasDragged e;
     randomStrings := randomStrings e; rngCalls := rngCalls e;
     renders := if rerender then S (renders e) else renders e;
     events := (fired ++ events e)%list;
     errors := errors e |}.

(** [handleClick(e)]; [mousePos] is [getMousePosition(e)]. *)
Definition handleClick (e : Engine) (mousePos : Point) : arith Engine :=
  if hasDragged e then ret e
  else
    node <- getNodeAtPosition e mousePos ;;
    match node with
    | Some n => ret (afterClick e (selectedNode e) None [NodeClick n] false)
    | None =>
        connection <- getConnectionAtPosition e mousePos ;;
        match connection with
        | Some c => ret (afterClick e None (Some c) [ConnectionClick c] true)
        | None => ret (afterClick e None None [] true)
        end
    end.

(* ================================================================== *)
(** ** Command history of [ArchitectureApp] *)

Module JsArray.

(** A relative index of [slice]: negative counts from the end, and the
    result is kept inside [0 .. len]. *)
Definition relIndex (len k : Z) : Z :=
  if (k <? 0)%Z then Z.max (len + k) 0 else Z.min k len.

(** [arr.slice(start, stop)] *)
Definition slice {A} (arr : list A) (start stop : Z) : list A :=
  let len := Z.of_nat (List.length arr) in
  let from := relIndex len start in
  let to := relIndex len stop in
  firstn (Z.to_nat (to - from)) (skipn (Z.to_nat from) arr).

(** [arr.slice(start)] *)
Definition sliceFrom {A} (arr : list A) (start : Z) : list A :=
  slice arr start (Z.of_nat (List.length arr)).

(** [arr[i]]; [None] is [undefined]. *)
Definition index {A} (arr : list A) (i : Z) : option A :=
  if (i <? 0)%Z then None else nth_error arr (Z.to_nat i).

End JsArray.

(** A command object.  The closures built by the app read and write
    [this.canvasEngine] only, which is [null] when the page has no
    canvas element; they take and return that field. *)
Record Command : Type := mkCommand {
  name : string;
  execute : option Engine -> option Engine;
  undo : option Engine -> option Engine
}.

(** [toasts] is the list of messages passed to [showToast], latest
    first. *)
Record App : Type := mkApp {
  canvasEngine : option Engine;
  commandHistory : list Command;
  historyIndex : Z;
  maxHistorySize : Z;
  toasts : list string
}.

(** The history fields as the constructor sets them. *)
Definition newApp (engine : option Engine) : App :=
  {| canvasEngine := engine;
     commandHistory := [];
     historyIndex := -1;
     maxHistorySize := 50;
     toasts := [] |}.

(** A method either returns or throws. *)
Inductive Completion (A : Type) : Type :=
| Normal (a : A)
| Throw (error : string).
Arguments Normal {A} a.
Arguments Throw {A} error.

(** [executeCommand(command)] *)
Definition executeCommand (app : App) (command : Command) : App :=
  let engine := execute command (canvasEngine app) in
  let history :=
    (JsArray.slice (commandHistory app) 0 (historyIndex app + 1)
       ++ [command])%list in
  let history :=
    if (maxHistorySize app <? Z.of_nat (List.length history))%Z
    then JsArray.sliceFrom history (- maxHistorySize app)
    else history in
  {| canvasEngine := engine;
     commandHistory := history;
     historyIndex := Z.of_nat (List.length history) - 1;
     maxHistorySize := maxHistorySize app;
     toasts := toasts app |}.

(** [undo()] of the app *)
Definition appUndo (app : App) : Completion App :=
  if (0 <=? historyIndex app)%Z then
    match JsArray.index (commandHistory app) (historyIndex app) with
    | None => Throw "TypeError"
    | Some command =>
        Normal
          {| canvasEngine := option_map render (undo command (canvasEngine app));
             commandHistory := commandHistory app;
             historyIndex := historyIndex app - 1;
             maxHistorySize := maxHistorySize app;
             toasts := ("Undone: " ++ name command) :: toasts app |}
    end
  else
    Normal
      {| canvasEngine := canvasEngine app;
         commandHistory := commandHistory app;
         historyIndex := historyIndex app;
         maxHistorySize := maxHistorySize app;
         toasts := "Nothing to undo" :: toasts app |}.

(** [redo()] of the app *)
Definition appRedo (app : App) : Completion App :=
  if (historyIndex app <? Z.of_nat (List.length (commandHistory app)) - 1)%Z then
    match JsArray.index (commandHistory app) (historyIndex app + 1) with
    | None => Throw "TypeError"
    | Some command =>
        Normal
          {| canvasEngine := option_map render (execute command (canvasEngine app));
             commandHistory := commandHistory app;
             historyIndex := historyIndex app + 1;
             maxHistorySize := maxHistorySize app;
             toasts := ("Redone: " ++ name command) :: toasts app |}
    end
  else
    Normal
      {| canvasEngine := canvasEngine app;
         commandHistory := commandHistory app;
         historyIndex := historyIndex app;
         maxHistorySize := maxHistorySize app;
         toasts := "Nothing to redo" :: toasts app |}.

(** [{ ...node }] as an argument of [addNode] *)
Definition spreadNode (node : Node) : NodeData :=
  {| nd_id := Some (node_id node);
     nd_x := Some (node_x node);
     nd_y := Some (node_y node);
     nd_label := Some (node_label node);
     nd_layer := Some (node_layer node);
     nd_type := Some (node_type node) |}.

(** A stored connection as an argument of [addConnection] *)
Definition connObject (conn : Connection) : ConnArg :=
  ArgObject
    {| cs_id := Some (conn_id conn);
       cs_from := Some (conn_from conn);
       cs_to := Some (conn_to conn);
       cs_label := Some (conn_label conn);
       cs_type := Some (conn_type conn) |}.

(** The connections copied by [createRemoveNodeCommand]:
    [conn.from === nodeId || conn.to === nodeId]. *)
Definition incident (nodeId : string) (conn : Connection) : bool :=
  String.eqb (conn_from conn) nodeId || String.eqb (conn_to conn) nodeId.

(** [createRemoveNodeCommand(nodeId)].  The [undo] closure calls
    [addConnection(conn.from, conn.to)]: the first argument is the
    string [conn.from] and the second one is not read. *)
Definition createRemoveNodeCommand (app : App) (nodeId : string)
  : option Command :=
  match canvasEngine app with
  | None => None
  | Some engine =>
      match JsMap.get (nodes engine) nodeId with
      | None => None
      | Some node =>
          let nodeData := spreadNode node in
          let saved := filter (incident nodeId) (connections engine) in
          Some
            {| name := "Remove Node: " ++ node_label node;
               execute := option_map (fun e => removeNode e nodeId);
               undo :=
                 option_map (fun e =>
                   let e1 := snd (addNode e nodeData) in
                   fold_left
                     (fun acc conn => snd (addConnection acc (ArgString (conn_from conn))))
                     saved e1) |}
      end
  end.

(** [createDeleteConnectionCommand(connection)] *)
Definition createDeleteConnectionCommand (connection : Connection) : Command :=
  {| name := "Delete Connection: " ++ conn_from connection ++ " → "
             ++ conn_to connection;
     execute :=
       option_map (fun e =>
         snd (removeConnection e (conn_from connection) (conn_to connection)));
     undo := option_map (fun e => snd (addConnection e (connObject connection))) |}.

(* ================================================================== *)
(** ** Specification vocabulary *)

(** Square of the distance between two points. *)
Definition sqDist (p q : Point) : Q :=
  (px p - px q) * (px p - px q) + (py p - py q) * (py p - py q).

(** The point of the segment from [a] to [b] at parameter [t]. *)
Definition onSegment (a b : Point) (t : Q) : Point :=
  {| px := px a + t * (px b - px a); py := py a + t * (py b - py a) |}.

(** [p] lies within distance [tol] of the segment from [a] to [b]: some
    point of the segment is that close.  When [a] and [b] coincide the
    segment is the single point [a]. *)
Definition nearSegment (p a b : Point) (tol : Q) : Prop :=
  exists t, 0 <= t <= 1 /\ sqDist p (onSegment a b t) <= tol * tol.

(** The parameter at which [pointToLineDistance] measures. *)
Definition closestParam (p a b : Point) : Q :=
  let dot := (px p - px a) * (px b - px a) + (py p - py a) * (py b - py a) in
  let lenSq := (px b - px a) * (px b - px a) + (py b - py a) * (py b - py a) in
  if Qeq_bool lenSq 0 then 0
  else if Qltb (dot / lenSq) 0 then 0
  else if Qgtb (dot / lenSq) 1 then 1
  else dot / lenSq.

Definition center (n : Node) : Point := {| px := node_x n; py := node_y n |}.

(** A connection that a click at world point [w] selects: both end
    nodes exist, both are on visible layers, and [w] is within the
    tolerance of the segment between their centres. *)
Definition hittable (e : Engine) (w : Point) (c : Connection) : Prop :=
  exists fromNode toNode,
    JsMap.get (nodes e) (conn_from c) = Some fromNode /\
    JsMap.get (nodes e) (conn_to c) = Some toNode /\
    isLayerVisible e (node_layer fromNode) = true /\
    isLayerVisible e (node_layer toNode) = true /\
    nearSegment w (center fromNode) (center toNode) tolerance.

(** A node that a click at world point [w] can select. *)
Definition nodeHit (e : Engine) (w : Point) (n : Node) : bool :=
  isLayerVisible e (node_layer n) && Utils.pointInRect w (nodeRect e n).

(** [conn] joins [a] to [b], in this direction. *)
Definition joins (a b : string) (conn : Connection) : Prop :=
  conn_from conn = a /\ conn_to conn = b.

(** [conn] starts or ends at [nodeId]. *)
Definition references (nodeId : string) (conn : Connection) : Prop :=
  conn_from conn = nodeId \/ conn_to conn = nodeId.

(** The engine with the three fields that [removeNode] assigns put
    back. *)
Definition restore3 (e e0 : Engine) : Engine :=
  set_selectedNode
    (set_connections (set_nodes e (nodes e0)) (connections e0))
    (selectedNode e0).

(** The history that [executeCommand] builds before it trims it. *)
Definition extended (app : App) (command : Command) : list Command :=
  (firstn (Z.to_nat (historyIndex app + 1)) (commandHistory app)
     ++ [command])%list.

(** The three operations on the history. *)
Inductive HistoryOp : Type :=
| OpExecute (command : Command)
| OpUndo
| OpRedo.

Definition applyOp (app : App) (op : HistoryOp) : Completion App :=
  match op with
  | OpExecute command => Normal (executeCommand app command)
  | OpUndo => appUndo app
  | OpRedo => appRedo app
  end.

(** A sequence of operations, stopped by the first one that throws. *)
Fixpoint applyOps (ops : list HistoryOp) (app : App) : Completion App :=
  match ops with
  | [] => Normal app
  | op :: rest =>
      match applyOp app op with
      | Normal app' => applyOps rest app'
      | Throw err => Throw err
      end
  end.

(** The history invariant: the capacity is positive, the history fits
    in it, and the index is [-1] or points at an entry. *)
Definition historyOk (app : App) : Prop :=
  (0 < maxHistorySize app)%Z /\
  (Z.of_nat (List.length (commandHistory app)) <= maxHistorySize app)%Z /\
  (-1 <= historyIndex app < Z.of_nat (List.length (commandHistory app)))%Z.

(** [undo()] called [n] times in a row. *)
Fixpoint undoTimes (n : nat) (app : App) : Completion App :=
  match n with
  | O => Normal app
  | S k =>
      match appUndo app with
      | Normal app' => undoTimes k app'
      | Throw err => Throw err
      end
  end.

(** The engine after the [undo] closures of [commands] have run in the
    order given, each followed by the [render()] of the app's [undo()]. *)
Definition undoneEngine (commands : list Command) (engine : option Engine)
  : option Engine :=
  fold_left (fun eng command => option_map render (undo command eng))
    commands engine.

(** The toast that [undo()] shows for a command. *)
Definition undoneToast (command : Command) : string :=
  "Undone: " ++ name command.

(** The state after [showToast(msg)] alone. *)
Definition toasted (app : App) (msg : string) : App :=
  {| canvasEngine := canvasEngine app;
     commandHistory := commandHistory app;
     historyIndex := historyIndex app;
     maxHistorySize := maxHistorySize app;
     toasts := msg :: toasts app |}.

(* ================================================================== *)
(** ** Sample scenes *)

Module Sample.

Definition random : nat -> string := fun _ => "k3x9q0a7z".

Definition origin : Point := {| px := 0; py := 0 |}.

Definition dataA : NodeData :=
  {| nd_id := Some "A"; nd_x := Some 0; nd_y := Some 0;
     nd_label := Some "first"; nd_layer := None; nd_type := None |}.

Definition dataB : NodeData :=
  {| nd_id := Some "B"; nd_x := Some 0; nd_y := Some 0;
     nd_label := Some "second"; nd_layer := None; nd_type := None |}.

Definition dataC : NodeData :=
  {| nd_id := Some "C"; nd_x := Some 300; nd_y := Some 0;
     nd_label := Some "third"; nd_layer := None; nd_type := None |}.

(** [addNode(dataA); addNode(dataB)] on a new engine: two nodes at the
    same position, [B] added last. *)
Definition stacked : Engine :=
  snd (addNode (snd (addNode (newEngine random) dataA)) dataB).

Definition nodeA : Node := fst (addNode (newEngine random) dataA).
Definition nodeB : Node :=
  fst (addNode (snd (addNode (newEngine random) dataA)) dataB).

Definition specAC : ConnSpec :=
  {| cs_id := Some "c1"; cs_from := Some "A"; cs_to := Some "C";
     cs_label := Some "calls"; cs_type := None |}.

(** Nodes [A] and [C] and the connection [A -> C]. *)
Definition linked : Engine :=
  snd (addConnection
         (snd (addNode (snd (addNode (newEngine random) dataA)) dataC))
         (ArgObject specAC)).

Definition connAC : Connection :=
  {| conn_id := "c1"; conn_from := "A"; conn_to := "C";
     conn_label := "calls"; conn_type := "default" |}.

(** The connection [A -> C] alone: neither end node is in the scene. *)
Definition dangling : Engine :=
  snd (addConnection (newEngine random) (ArgObject specAC)).

(** The scene [linked] after a click half way between [A] and [C]. *)
Definition picked : Engine :=
  match handleClick linked {| px := 150; py := 0 |} with
  | Some e => e
  | None => linked
  end.

Definition nop (label : string) : Command :=
  {| name := label; execute := fun e => e; undo := fun e => e |}.

End Sample.


(* ================================================================== *)
(** ** Zoom controls of [CanvasEngine] *)

(** What [setZoom], [centerView] and [zoomToFit] read outside the
    modelled fields of the engine: [this.canvas.clientWidth],
    [this.canvas.clientHeight] and [this.config.padding]. *)
Record Canvas : Type := mkCanvas {
  clientWidth : Q;
  clientHeight : Q;
  padding : Q
}.

(** The assignment of the viewport fields followed by [render()] and
    the callbacks [fired]. *)
Definition withViewport (e : Engine) (v : Viewport) (fired : list Event)
  : Engine :=
  {| nodeSize := nodeSize e; nodes := nodes e;
     connections := connections e; layers := layers e;
     selectedNode := selectedNode e; hoveredNode := hoveredNode e;
     selectedConnection := selectedConnection e;
     hoveredConnection := hoveredConnection e;
     highlightedNode := highlightedNode e;
     highlightedNodes := highlightedNodes e;
     highlightedConnections := highlightedConnections e;
     viewport := v; hasDragged := hasDragged e;
     randomStrings := randomStrings e; rngCalls := rngCalls e;
     renders := S (renders e);
     events := (fired ++ events e)%list;
     errors := errors e |}.


(** [setZoom(zoom)], in exact arithmetic (in binary64:
    [Binary64.setZoom]) *)
Definition setZoom (e : Engine) (canvas : Canvas) (z : Q) : arith Engine :=
  let v := viewport e in
  let newZoom := Utils.clamp z (minZoom v) (maxZoom v) in
  let centerX := clientWidth canvas / 2 in
  let centerY := clientHeight canvas / 2 in
  zoomRatio <- jsdiv newZoom (zoom v) ;;
  ret (withViewport e
         {| vx := centerX - (centerX - vx v) * zoomRatio;
            vy := centerY - (centerY - vy v) * zoomRatio;
            zoom := newZoom;
            minZoom := minZoom v;
            maxZoom := maxZoom v |} [ZoomChange newZoom]).

(** The four running extremes of [zoomToFit]. *)
Record Bounds : Type := mkBounds { minX : Q; minY : Q; maxX : Q; maxY : Q }.

(** One turn of the loop of [zoomToFit].  [None] stands for the initial
    extremes [Infinity, Infinity, -Infinity, -Infinity], against which
    [Math.min] and [Math.max] return their other argument. *)
Definition growBounds (e : Engine) (acc : option Bounds) (node : Node)
  : option Bounds :=
  if negb (isLayerVisible e (node_layer node)) then acc
  else
    let left := node_x node - width (nodeSize e) / 2 in
    let top := node_y node - height (nodeSize e) / 2 in
    let right := node_x node + width (nodeSize e) / 2 in
    let bottom := node_y node + height (nodeSize e) / 2 in
    match acc with
    | None =>
        Some {| minX := left; minY := top; maxX := right; maxY := bottom |}
    | Some b =>
        Some {| minX := Qmin (minX b) left; minY := Qmin (minY b) top;
                maxX := Qmax (maxX b) right; maxY := Qmax (maxY b) bottom |}
    end.

(** [zoomToFit()], in exact arithmetic (in binary64:
    [Binary64.zoomToFit]) *)
Definition zoomToFit (e : Engine) (canvas : Canvas) : arith Engine :=
  if Nat.eqb (JsMap.size (nodes e)) 0 then ret e
  else
    match fold_left (growBounds e) (JsMap.values (nodes e)) None with
    | None => ret e
    | Some b =>
        let contentWidth := maxX b - minX b in
        let contentHeight := maxY b - minY b in
        let canvasWidth := clientWidth canvas in
        let canvasHeight := clientHeight canvas in
        scaleX <- jsdiv (canvasWidth - padding canvas * 2) contentWidth ;;
        scaleY <- jsdiv (canvasHeight - padding canvas * 2) contentHeight ;;
        let scale := Qmin (Qmin scaleX scaleY) (maxZoom (viewport e)) in
        ret (withViewport e
               {| vx := canvasWidth / 2 - (minX b + maxX b) / 2 * scale;
                  vy := canvasHeight / 2 - (minY b + maxY b) / 2 * scale;
                  zoom := scale;
                  minZoom := minZoom (viewport e);
                  maxZoom := maxZoom (viewport e) |} [ZoomChange scale])
    end.




(** A node that the scene holds and shows. *)
Definition shown (e : Engine) (n : Node) : Prop :=
  In n (JsMap.values (nodes e)) /\ isLayerVisible e (node_layer n) = true.

(** The extremes [b] enclose the rectangle of [n]. *)
Definition covers (e : Engine) (b : Bounds) (n : Node) : Prop :=
  minX b <= node_x n - width (nodeSize e) / 2 /\
  node_x n + width (nodeSize e) / 2 <= maxX b /\
  minY b <= node_y n - height (nodeSize e) / 2 /\
  node_y n + height (nodeSize e) / 2 <= maxY b.

(** The centre of the canvas, in screen coordinates. *)
Definition canvasCenter (canvas : Canvas) : Point :=
  {| px := clientWidth canvas / 2; py := clientHeight canvas / 2 |}.

(* ================================================================== *)
(** ** Further methods of the scene store *)

(** [setLayerVisibility(layerId, visible)]: the layer object found in
    the map is updated in place. *)
Definition setLayerVisibility (e : Engine) (layerId : string) (visible : bool)
  : bool * Engine :=
  match JsMap.get (layers e) layerId with
  | Some layer =>
      (true,
       render
         (set_layers e
            (JsMap.set (layers e) layerId
               {| layer_visible := visible;
                  layer_color := layer_color layer;
                  layer_name := layer_name layer |})))
  | None => (false, e)
  end.

(** [getNodeAtId(nodeId)] *)
Definition getNodeAtId (e : Engine) (nodeId : string) : option Node :=
  JsMap.get (nodes e) nodeId.

(** The test of [findConnection]. *)
Definition joinsEitherWay (fromId toId : string) (conn : Connection) : bool :=
  (String.eqb (conn_from conn) fromId && String.eqb (conn_to conn) toId) ||
  (String.eqb (conn_from conn) toId && String.eqb (conn_to conn) fromId).

(** [findConnection(fromId, toId)] *)
Definition findConnection (e : Engine) (fromId toId : string)
  : option Connection :=
  find (joinsEitherWay fromId toId) (connections e).

(** The object returned by [getStats()]. *)
Record Stats : Type := mkStats {
  totalNodes : nat;
  visibleNodes : nat;
  connectionCount : nat;
  layerCount : nat
}.

(** [getStats()] *)
Definition getStats (e : Engine) : Stats :=
  {| totalNodes := JsMap.size (nodes e);
     visibleNodes :=
       List.length
         (filter (fun node => isLayerVisible e (node_layer node))
            (JsMap.values (nodes e)));
     connectionCount := List.length (connections e);
     layerCount := JsMap.size (layers e) |}.


Definition orEmpty {A} (o : option (list A)) : list A :=
  match o with Some l => l | None => [] end.








(** A connection object that [addConnection] accepts. *)
Definition accepted (c : ConnSpec) : bool :=
  truthyProp (cs_from c) && truthyProp (cs_to c).



(* ================================================================== *)
(** ** Further commands of [ArchitectureApp] *)

(** [createAddNodeCommand(nodeData)].  [undo] calls
    [removeNode(nodeData.id)]; without an [id] the argument is
    [undefined], which is no key of the node map and equals no [from],
    [to] or [id], so that the call changes nothing. *)
Definition createAddNodeCommand (nodeData : NodeData) : Command :=
  {| name := "Add Node: " ++ withDefault (nd_label nodeData) "undefined";
     execute := option_map (fun e => snd (addNode e nodeData));
     undo :=
       option_map (fun e =>
         match nd_id nodeData with
         | Some i => removeNode e i
         | None => e
         end) |}.

(** [createAddConnectionCommand(fromId, toId)]; [label] is the label
    that the command got from [prompt(...) || '']. *)
Definition createAddConnectionCommand (label fromId toId : string) : Command :=
  {| name := "Add Connection: " ++ fromId ++ " → " ++ toId;
     execute :=
       option_map (fun e =>
         snd (addConnection e
                (ArgObject
                   {| cs_id := None; cs_from := Some fromId;
                      cs_to := Some toId; cs_label := Some label;
                      cs_type := None |})));
     undo := option_map (fun e => snd (removeConnection e fromId toId)) |}.

(** The parts of the argument of [importDiagram] that it reads: the
    nodes, the connections and the viewport, as [exportDiagramAsJSON]
    writes them; each may be absent. *)
Record DiagramData : Type := mkDiagramData {
  dd_nodes : option (list NodeData);
  dd_connections : option (list Connection);
  dd_viewport : option Viewport
}.

Definition set_viewport (e : Engine) (v : Viewport) : Engine :=
  {| nodeSize := nodeSize e; nodes := nodes e;
     connections := connections e; layers := layers e;
     selectedNode := selectedNode e; hoveredNode := hoveredNode e;
     selectedConnection := selectedConnection e;
     hoveredConnection := hoveredConnection e;
     highlightedNode := highlightedNode e;
     highlightedNodes := highlightedNodes e;
     highlightedConnections := highlightedConnections e;
     viewport := v; hasDragged := hasDragged e;
     randomStrings := randomStrings e; rngCalls := rngCalls e;
     renders := renders e; events := events e;
     errors := errors e |}.

(** [importDiagram(diagramData)].  Each connection is passed as
    [addConnection(connData.from, connData.to)], that is with the
    string [connData.from] as the argument.  Without an engine the
    method returns at once. *)
Definition importDiagram (app : App) (diagramData : DiagramData) : App :=
  match canvasEngine app with
  | None => app
  | Some engine =>
      let e1 := clearAll engine in
      let e2 :=
        fold_left (fun acc nodeData => snd (addNode acc nodeData))
          (orEmpty (dd_nodes diagramData)) e1 in
      let e3 :=
        fold_left
          (fun acc connData =>
             snd (addConnection acc (ArgString (conn_from connData))))
          (orEmpty (dd_connections diagramData)) e2 in
      let e4 :=
        match dd_viewport diagramData with
        | Some v => set_viewport e3 v
        | None => e3
        end in
      {| canvasEngine := Some (render e4);
         commandHistory := [];
         historyIndex := -1;
         maxHistorySize := maxHistorySize app;
         toasts := toasts app |}
  end.

(** [exportDiagramAsJSON()], the three parts of the exported object
    that [importDiagram] reads back. *)
Definition exportDiagram (e : Engine) : DiagramData :=
  {| dd_nodes := Some (map spreadNode (JsMap.values (nodes e)));
     dd_connections := Some (connections e);
     dd_viewport := Some (viewport e) |}.

(* ================================================================== *)
(** ** Animation helpers of [utils.js] and their callers *)

Module Anim.

(** [Utils.lerp(start, end, factor)], in exact arithmetic (in binary64:
    [Binary64.lerp]) *)
Definition lerp (start stop factor : Q) : Q := start + (stop - start) * factor.

(** [Utils.easing.linear] and [Utils.easing.easeOutQuad] *)
Definition linear (t : Q) : Q := t.
Definition easeOutQuad (t : Q) : Q := t * (2 - t).

(** What one call of [step] inside [Utils.animate] computes, in exact
    arithmetic (in binary64: [Binary64.animateValue]), when
    [Date.now() - startTime] is [elapsed]: the value and the progress
    passed to [onUpdate], and whether another frame is requested
    ([progress < 1]). *)
Record Frame : Type := mkFrame {
  currentValue : Q;
  progress : Q;
  again : bool
}.

Definition step (from to duration : Q) (easing : Q -> Q) (elapsed : Q)
  : arith Frame :=
  ratio <- jsdiv elapsed duration ;;
  let progress := Qmin ratio 1 in
  let easedProgress := easing progress in
  ret {| currentValue := from + (to - from) * easedProgress;
         progress := progress;
         again := Qltb progress 1 |}.

End Anim.

(** The frame of [animateViewport(fromX, fromY, toX, toY, duration)] at
    [elapsed]: the [onUpdate] callback with [this.canvasEngine] set. *)
Definition animateViewportFrame (e : Engine) (fromX fromY toX toY : Q)
    (duration elapsed : Q) : arith (Engine * bool) :=
  frame <- Anim.step 0 1 duration Anim.easeOutQuad elapsed ;;
  let p := Anim.currentValue frame in
  ret (withViewport e
         {| vx := Anim.lerp fromX toX p;
            vy := Anim.lerp fromY toY p;
            zoom := zoom (viewport e);
            minZoom := minZoom (viewport e);
            maxZoom := maxZoom (viewport e) |} [],
       Anim.again frame).

(* ================================================================== *)
(** ** Colour helpers of [utils.js] *)

Module Color.

Local Open Scope Z_scope.

(** [ToInt32] *)
Definition toInt32 (z : Z) : Z := (z + 2 ^ 31) mod 2 ^ 32 - 2 ^ 31.

(** [a << k] for a shift count [0 <= k < 32] *)
Definition shl (a k : Z) : Z := toInt32 (toInt32 a * 2 ^ k).

Definition hexDigit (d : Z) : Ascii.ascii :=
  match String.get (Z.to_nat d) "0123456789abcdef" with
  | Some c => c
  | None => "0"%char
  end.

(** The digits of [n.toString(16)] for [n >= 0]; [fuel] bounds the
    number of digits. *)
Fixpoint hexDigits (fuel : nat) (n : Z) : string :=
  match fuel with
  | O => EmptyString
  | S fuel' =>
      if n <? 16 then String (hexDigit n) EmptyString
      else (hexDigits fuel' (n / 16)
              ++ String (hexDigit (n mod 16)) EmptyString)%string
  end.

(** [n.toString(16)] for an integer [n]; a number below [2^k] has at
    most [k] digits. *)
Definition toString16 (n : Z) : string :=
  if n <? 0
  then String "-"%char (hexDigits (S (Z.to_nat (Z.log2 (- n)))) (- n))
  else hexDigits (S (Z.to_nat (Z.log2 n))) n.

(** [s.slice(1)] *)
Definition slice1 (s : string) : string :=
  match s with
  | EmptyString => EmptyString
  | String _ rest => rest
  end.

(** [Utils.rgbToHex(r, g, b)] for integers *)
Definition rgbToHex (r g b : Z) : string :=
  String "#"%char
    (slice1 (toString16 (shl 1 24 + shl r 16 + shl g 8 + b))).

(** The value of a character matched by [[a-f\d]] under the [i] flag. *)
Definition hexValue (c : Ascii.ascii) : option Z :=
  let n := Z.of_nat (Ascii.nat_of_ascii c) in
  if (48 <=? n) && (n <=? 57) then Some (n - 48)
  else if (97 <=? n) && (n <=? 102) then Some (n - 87)
  else if (65 <=? n) && (n <=? 70) then Some (n - 55)
  else None.

Record Rgb : Type := mkRgb { red : Z; green : Z; blue : Z }.

(** [parseInt(pair, 16)] for the two characters of a matched group *)
Definition parsePair (hi lo : Ascii.ascii) : option Z :=
  match hexValue hi, hexValue lo with
  | Some h, Some l => Some (16 * h + l)
  | _, _ => None
  end.

(** The match of [/^#?([a-f\d]{2})([a-f\d]{2})([a-f\d]{2})$/i] on the
    rest of the string after the optional ["#"]. *)
Definition parseSix (s : string) : option Rgb :=
  match s with
  | String c1 (String c2 (String c3 (String c4 (String c5 (String c6
      EmptyString))))) =>
      match parsePair c1 c2, parsePair c3 c4, parsePair c5 c6 with
      | Some r, Some g, Some b => Some {| red := r; green := g; blue := b |}
      | _, _, _ => None
      end
  | _ => None
  end.

(** [Utils.hexToRgb(hex)]; [None] is [null]. *)
Definition hexToRgb (hex : string) : option Rgb :=
  match hex with
  | String c rest =>
      if Ascii.eqb c "#"%char then parseSix rest else parseSix hex
  | EmptyString => None
  end.

End Color.

(* ================================================================== *)
(** ** [layer-manager.js] *)

Module LayerManager.

(** The properties of a layer object of the manager that the modelled
    methods read or write ([id] is the key of the map). *)
Record ManagedLayer : Type := mkManagedLayer {
  ml_name : string;
  ml_color : string;
  ml_visible : bool
}.

(** [this.options.colors] *)
Definition colors : list string :=
  ["#ef4444"; "#f59e0b"; "#10b981"; "#3b82f6";
   "#8b5cf6"; "#ec4899"; "#06b6d4"; "#84cc16"].

(** The state of a [LayerManager]: the engine it was built for, its
    layer map, [layerOrder], and the calls made to the [onLayerToggle]
    callback, latest first (the callback the application registers
    only schedules animation frames). *)
Record t : Type := mkManager {
  engine : Engine;
  managed : JsMap.t ManagedLayer;
  layerOrder : list string;
  toggled : list (string * bool)
}.

(** [new LayerManager(canvasEngine)] *)
Definition create (e : Engine) : t :=
  {| engine := e; managed := JsMap.empty; layerOrder := []; toggled := [] |}.

(** [addLayer(layerId, layerInfo)]: the new layer object is stored and
    passed on to [canvasEngine.addLayer]. *)
Definition addLayer (m : t) (layerId : string) (layerInfo : LayerInfo) : t :=
  let colorIndex := Nat.modulo (JsMap.size (managed m)) (List.length colors) in
  let layer :=
    {| ml_name := withDefault (li_name layerInfo) layerId;
       ml_color :=
         withDefault (li_color layerInfo) (nth colorIndex colors "");
       ml_visible := withDefault (li_visible layerInfo) true |} in
  {| engine :=
       addLayer (engine m) layerId
         {| li_visible := Some (ml_visible layer);
            li_color := Some (ml_color layer);
            li_name := Some (ml_name layer) |};
     managed := JsMap.set (managed m) layerId layer;
     layerOrder := (layerOrder m ++ [layerId])%list;
     toggled := toggled m |}.

(** The body shared by [toggleLayer] and [setLayerVisibility] once the
    layer is found and its flag has to change: the layer object gets
    the flag, the engine is told, and the callback is called. *)
Definition switch (m : t) (layerId : string) (layer : ManagedLayer)
    (visible : bool) : t :=
  {| engine := snd (setLayerVisibility (engine m) layerId visible);
     managed :=
       JsMap.set (managed m) layerId
         {| ml_name := ml_name layer; ml_color := ml_color layer;
            ml_visible := visible |};
     layerOrder := layerOrder m;
     toggled := (layerId, visible) :: toggled m |}.

(** [toggleLayer(layerId)] *)
Definition toggleLayer (m : t) (layerId : string) : bool * t :=
  match JsMap.get (managed m) layerId with
  | Some layer =>
      (negb (ml_visible layer), switch m layerId layer (negb (ml_visible layer)))
  | None => (false, m)
  end.

(** [setLayerVisibility(layerId, visible)] *)
Definition setLayerVisibility (m : t) (layerId : string) (visible : bool) : t :=
  match JsMap.get (managed m) layerId with
  | Some layer =>
      if negb (Bool.eqb (ml_visible layer) visible)
      then switch m layerId layer visible
      else m
  | None => m
  end.

(** One round of the loop shared by [showAllLayers] ([visible = true])
    and [hideAllLayers] ([visible = false]). *)
Definition setAllStep (visible : bool) (acc : t) (layerId : string) : t :=
  match JsMap.get (managed acc) layerId with
  | Some layer =>
      if Bool.eqb (ml_visible layer) visible then acc
      else setLayerVisibility acc layerId visible
  | None => acc
  end.

(** The loop over the entries of the map. *)
Definition setAll (visible : bool) (m : t) : t :=
  fold_left (setAllStep visible) (JsMap.keys (managed m)) m.

(** [showAllLayers()] and [hideAllLayers()] *)
Definition showAllLayers (m : t) : t := setAll true m.
Definition hideAllLayers (m : t) : t := setAll false m.

(** [removeLayer(layerId)] *)
Definition removeLayer (m : t) (layerId : string) : bool * t :=
  match JsMap.get (managed m) layerId with
  | Some _ =>
      (true,
       {| engine := engine m;
          managed := JsMap.delete (managed m) layerId;
          layerOrder :=
            filter (fun id => negb (String.eqb id layerId)) (layerOrder m);
          toggled := toggled m |})
  | None => (false, m)
  end.

(** [isLayerVisible(layerId)] of the manager *)
Definition isLayerVisible (m : t) (layerId : string) : bool :=
  match JsMap.get (managed m) layerId with
  | Some layer => ml_visible layer
  | None => true
  end.

(** [setLayerData(layersData)], for an array of layer objects, each
    given with its [id]: the manager's map and order are emptied (the
    engine's map is not) and every layer is added again. *)
Definition setLayerData (m : t) (layersData : list (string * LayerInfo)) : t :=
  fold_left
    (fun acc layerInfo => addLayer acc (fst layerInfo) (snd layerInfo))
    layersData
    {| engine := engine m; managed := JsMap.empty; layerOrder := [];
       toggled := toggled m |}.

(** The calls a client makes on a manager. *)
Inductive Call : Type :=
| AddLayer (layerId : string) (layerInfo : LayerInfo)
| RemoveLayer (layerId : string)
| ToggleLayer (layerId : string)
| SetLayerVisibility (layerId : string) (visible : bool)
| ShowAllLayers
| HideAllLayers
| SetLayerData (layersData : list (string * LayerInfo)).

Definition call (m : t) (c : Call) : t :=
  match c with
  | AddLayer layerId layerInfo => addLayer m layerId layerInfo
  | RemoveLayer layerId => snd (removeLayer m layerId)
  | ToggleLayer layerId => snd (toggleLayer m layerId)
  | SetLayerVisibility layerId visible => setLayerVisibility m layerId visible
  | ShowAllLayers => showAllLayers m
  | HideAllLayers => hideAllLayers m
  | SetLayerData layersData => setLayerData m layersData
  end.

(** A manager built for engine [e] and used through [calls], in order. *)
Definition used (e : Engine) (calls : list Call) : t :=
  fold_left call calls (create e).

(** The manager and its engine agree on a layer id: the engine has the
    layer, with the flag the manager has. *)
Definition agree (m : t) (layerId : string) : Prop :=
  forall layer,
    JsMap.get (managed m) layerId = Some layer ->
    exists engineLayer,
      JsMap.get (layers (engine m)) layerId = Some engineLayer /\
      layer_visible engineLayer = ml_visible layer.

Definition inSync (m : t) : Prop := forall layerId, agree m layerId.

(** What every call keeps: the map has each key once, and manager and
    engine agree. *)
Definition managerOk (m : t) : Prop := JsMap.wf (managed m) /\ inSync m.

(** The flag the manager holds for a layer id. *)
Definition flagged (visible : bool) (m : t) (layerId : string) : Prop :=
  exists layer,
    JsMap.get (managed m) layerId = Some layer /\ ml_visible layer = visible.

End LayerManager.

(** A manager used on an empty engine: three layers added, the first
    hidden, the second removed. *)
Definition managerCalls : list LayerManager.Call :=
  [LayerManager.AddLayer "ui"
     {| li_visible := None; li_color := None; li_name := Some "Interface" |};
   LayerManager.AddLayer "api"
     {| li_visible := Some false; li_color := Some "#111111";
        li_name := None |};
   LayerManager.AddLayer "db"
     {| li_visible := None; li_color := None; li_name := None |};
   LayerManager.ToggleLayer "ui";
   LayerManager.RemoveLayer "api";
   LayerManager.SetLayerVisibility "db" true].

(* ================================================================== *)
(** ** The numeric methods in binary64 *)

(** The same methods with JavaScript numbers as they are: IEEE 754
    binary64 values ([PrimFloat.float]), every operation rounded to
    nearest, a division by zero giving an infinity or NaN.  Only the
    fields the numeric methods read are kept. *)
Module Binary64.

Import PrimFloat.
#[local] Set Warnings "-inexact-float".
Local Open Scope float_scope.

(** [Math.max(a, b)] and [Math.min(a, b)]: NaN when an argument is NaN,
    and [+0] counts as larger than [-0]. *)
Definition MathMax (a b : float) : float :=
  if is_nan a || is_nan b then nan
  else if a <? b then b
  else if b <? a then a
  else if get_sign a then b else a.

Definition MathMin (a b : float) : float :=
  if is_nan a || is_nan b then nan
  else if a <? b then a
  else if b <? a then b
  else if get_sign a then a else b.

Record Point : Type := mkPoint { px : float; py : float }.

Record Rect : Type :=
  mkRect { rx : float; ry : float; rwidth : float; rheight : float }.

(** [Utils.pointInRect(point, rect)] *)
Definition pointInRect (point : Point) (rect : Rect) : bool :=
  (rx rect <=? px point) &&
  (px point <=? rx rect + rwidth rect) &&
  (ry rect <=? py point) &&
  (py point <=? ry rect + rheight rect).

(** [Utils.clamp(value, min, max)] *)
Definition clamp (value min max : float) : float :=
  MathMin (MathMax value min) max.

(** [Utils.lerp(start, end, factor)] *)
Definition lerp (start stop factor : float) : float :=
  start + (stop - start) * factor.

(** [Utils.easing.easeOutQuad] *)
Definition easeOutQuad (t : float) : float := t * (2 - t).

(** The value [step] inside [Utils.animate] passes to [onUpdate] when
    [Date.now() - startTime] is [elapsed]. *)
Definition animateValue (from to duration : float) (easing : float -> float)
    (elapsed : float) : float :=
  let progress := MathMin (elapsed / duration) 1 in
  let easedProgress := easing progress in
  from + (to - from) * easedProgress.

(** The pan that the [onUpdate] callback of [animateViewport] sets. *)
Definition animateViewportPan (fromX fromY toX toY duration elapsed : float)
  : float * float :=
  let progress := animateValue 0 1 duration easeOutQuad elapsed in
  (lerp fromX toX progress, lerp fromY toY progress).

Record Viewport : Type := mkViewport {
  vx : float;
  vy : float;
  zoom : float;
  minZoom : float;
  maxZoom : float
}.

Record Node : Type := mkNode {
  node_id : string;
  node_x : float;
  node_y : float;
  node_layer : string
}.

(** [config.nodeSize], [config.padding], the client size of the canvas
    and the scene. *)
Record Engine : Type := mkEngine {
  nodeWidth : float;
  nodeHeight : float;
  padding : float;
  clientWidth : float;
  clientHeight : float;
  nodes : JsMap.t Node;
  connections : list Connection;
  layers : JsMap.t Layer;
  viewport : Viewport
}.

(** The viewport the constructor builds. *)
Definition newViewport : Viewport :=
  {| vx := 0; vy := 0; zoom := 1; minZoom := 0.1; maxZoom := 3 |}.

(** [screenToWorld(screenPos)] *)
Definition screenToWorld (v : Viewport) (screenPos : Point) : Point :=
  {| px := (px screenPos - vx v) / zoom v;
     py := (py screenPos - vy v) / zoom v |}.

(** [worldToScreen(worldPos)] *)
Definition worldToScreen (v : Viewport) (worldPos : Point) : Point :=
  {| px := px worldPos * zoom v + vx v;
     py := py worldPos * zoom v + vy v |}.

(** [handleWheel(e)], on the viewport. *)
Definition handleWheel (v : Viewport) (mousePos : Point) (deltaY : float)
  : Viewport :=
  let zoomFactor := if 0 <? deltaY then 0.9 else 1.1 in
  let newZoom := clamp (zoom v * zoomFactor) (minZoom v) (maxZoom v) in
  if negb (newZoom =? zoom v) then
    let zoomRatio := newZoom / zoom v in
    {| vx := px mousePos - (px mousePos - vx v) * zoomRatio;
       vy := py mousePos - (py mousePos - vy v) * zoomRatio;
       zoom := newZoom;
       minZoom := minZoom v;
       maxZoom := maxZoom v |}
  else v.

(** [setZoom(zoom)], on the viewport. *)
Definition setZoom (e : Engine) (z : float) : Viewport :=
  let v := viewport e in
  let newZoom := clamp z (minZoom v) (maxZoom v) in
  let centerX := clientWidth e / 2 in
  let centerY := clientHeight e / 2 in
  let zoomRatio := newZoom / zoom v in
  {| vx := centerX - (centerX - vx v) * zoomRatio;
     vy := centerY - (centerY - vy v) * zoomRatio;
     zoom := newZoom;
     minZoom := minZoom v;
     maxZoom := maxZoom v |}.

(** [isLayerVisible(layerId)] *)
Definition isLayerVisible (e : Engine) (layerId : string) : bool :=
  match JsMap.get (layers e) layerId with
  | None => true
  | Some layer => layer_visible layer
  end.

Definition nodeRect (e : Engine) (node : Node) : Rect :=
  {| rx := node_x node - nodeWidth e / 2;
     ry := node_y node - nodeHeight e / 2;
     rwidth := nodeWidth e;
     rheight := nodeHeight e |}.

Fixpoint scanNodes (e : Engine) (worldPos : Point) (ns : list Node)
  : option Node :=
  match ns with
  | [] => None
  | node :: rest =>
      if negb (isLayerVisible e (node_layer node)) then
        scanNodes e worldPos rest
      else if pointInRect worldPos (nodeRect e node) then Some node
      else scanNodes e worldPos rest
  end.

(** [getNodeAtPosition(screenPos)] *)
Definition getNodeAtPosition (e : Engine) (screenPos : Point) : option Node :=
  scanNodes e (screenToWorld (viewport e) screenPos) (JsMap.values (nodes e)).

(** [pointToLineDistance(point, lineStart, lineEnd)] *)
Definition pointToLineDistance (point lineStart lineEnd : Point) : float :=
  let A := px point - px lineStart in
  let B := py point - py lineStart in
  let C := px lineEnd - px lineStart in
  let D := py lineEnd - py lineStart in
  let dot := A * C + B * D in
  let lenSq := C * C + D * D in
  if lenSq =? 0 then sqrt (A * A + B * B)
  else
    let param := dot / lenSq in
    let '(xx, yy) :=
      if param <? 0 then (px lineStart, py lineStart)
      else if 1 <? param then (px lineEnd, py lineEnd)
      else (px lineStart + param * C, py lineStart + param * D) in
    let dx := px point - xx in
    let dy := py point - yy in
    sqrt (dx * dx + dy * dy).

Definition tolerance : float := 8.

Fixpoint scanConnections (e : Engine) (worldPos : Point)
    (cs : list Connection) : option Connection :=
  match cs with
  | [] => None
  | connection :: rest =>
      match JsMap.get (nodes e) (conn_from connection),
            JsMap.get (nodes e) (conn_to connection) with
      | Some fromNode, Some toNode =>
          if negb (isLayerVisible e (node_layer fromNode))
             || negb (isLayerVisible e (node_layer toNode))
          then scanConnections e worldPos rest
          else
            let fromCenter := {| px := node_x fromNode; py := node_y fromNode |} in
            let toCenter := {| px := node_x toNode; py := node_y toNode |} in
            let distance := pointToLineDistance worldPos fromCenter toCenter in
            if distance <=? tolerance then Some connection
            else scanConnections e worldPos rest
      | _, _ => scanConnections e worldPos rest
      end
  end.

(** [getConnectionAtPosition(screenPos)] *)
Definition getConnectionAtPosition (e : Engine) (screenPos : Point)
  : option Connection :=
  scanConnections e (screenToWorld (viewport e) screenPos) (connections e).

(** What the two scans test on an element. *)
Definition nodeHit (e : Engine) (worldPos : Point) (node : Node) : bool :=
  isLayerVisible e (node_layer node) && pointInRect worldPos (nodeRect e node).

Definition hittable (e : Engine) (worldPos : Point) (connection : Connection)
  : bool :=
  match JsMap.get (nodes e) (conn_from connection),
        JsMap.get (nodes e) (conn_to connection) with
  | Some fromNode, Some toNode =>
      isLayerVisible e (node_layer fromNode) &&
      isLayerVisible e (node_layer toNode) &&
      (pointToLineDistance worldPos
         {| px := node_x fromNode; py := node_y fromNode |}
         {| px := node_x toNode; py := node_y toNode |} <=? tolerance)
  | _, _ => false
  end.

(** The four bounds that the loop of [zoomToFit] keeps. *)
Record Bounds : Type := mkBounds {
  minX : float; minY : float; maxX : float; maxY : float
}.

Definition growBounds (e : Engine) (b : Bounds) (node : Node) : Bounds :=
  if negb (isLayerVisible e (node_layer node)) then b
  else
    {| minX := MathMin (minX b) (node_x node - nodeWidth e / 2);
       minY := MathMin (minY b) (node_y node - nodeHeight e / 2);
       maxX := MathMax (maxX b) (node_x node + nodeWidth e / 2);
       maxY := MathMax (maxY b) (node_y node + nodeHeight e / 2) |}.

(** [zoomToFit()], on the viewport. *)
Definition zoomToFit (e : Engine) : Viewport :=
  if Nat.eqb (JsMap.size (nodes e)) 0 then viewport e
  else
    let b :=
      fold_left (growBounds e) (JsMap.values (nodes e))
        {| minX := infinity; minY := infinity;
           maxX := neg_infinity; maxY := neg_infinity |} in
    if minX b =? infinity then viewport e
    else
      let contentWidth := maxX b - minX b in
      let contentHeight := maxY b - minY b in
      let canvasWidth := clientWidth e in
      let canvasHeight := clientHeight e in
      let scaleX := (canvasWidth - padding e * 2) / contentWidth in
      let scaleY := (canvasHeight - padding e * 2) / contentHeight in
      let scale := MathMin (MathMin scaleX scaleY) (maxZoom (viewport e)) in
      {| vx := canvasWidth / 2 - (minX b + maxX b) / 2 * scale;
         vy := canvasHeight / 2 - (minY b + maxY b) / 2 * scale;
         zoom := scale;
         minZoom := minZoom (viewport e);
         maxZoom := maxZoom (viewport e) |}.

End Binary64.

(** Scenes for the binary64 methods. *)
Module Sample64.

Import PrimFloat.
#[local] Set Warnings "-inexact-float".
Local Open Scope float_scope.

Definition engine (nodeWidth nodeHeight : float)
    (clientWidth clientHeight : float)
    (nodes : list Binary64.Node) (connections : list Connection)
    (viewport : Binary64.Viewport) : Binary64.Engine :=
  {| Binary64.nodeWidth := nodeWidth; Binary64.nodeHeight := nodeHeight;
     Binary64.padding := 20;
     Binary64.clientWidth := clientWidth;
     Binary64.clientHeight := clientHeight;
     Binary64.nodes := map (fun n => (Binary64.node_id n, n)) nodes;
     Binary64.connections := connections;
     Binary64.layers := JsMap.empty;
     Binary64.viewport := viewport |}.

Definition node (id : string) (x y : float) : Binary64.Node :=
  {| Binary64.node_id := id; Binary64.node_x := x; Binary64.node_y := y;
     Binary64.node_layer := "default" |}.

Definition connBA : Connection :=
  {| conn_id := "c1"; conn_from := "B"; conn_to := "A";
     conn_label := ""; conn_type := "default" |}.

(** Nodes [B] at (60, 80) and [A] at (0, 0) with the connection
    [B -> A], under the viewport of a new engine. *)
Definition reversed : Binary64.Engine :=
  engine 120 80 800 600 [node "B" 60 80; node "A" 0 0] [connBA]
    Binary64.newViewport.

(** A viewport after a pan and a zoom. *)
Definition panned : Binary64.Viewport :=
  {| Binary64.vx := 17.7; Binary64.vy := 17.7; Binary64.zoom := 1.3;
     Binary64.minZoom := 0.1; Binary64.maxZoom := 3 |}.

(** One node of size zero under [panned]. *)
Definition dot : Binary64.Engine :=
  engine 0 0 800 600 [node "A" 100.3 100.3] [] panned.

(** A canvas 801 wide under a viewport at zoom 1.1. *)
Definition odd : Binary64.Engine :=
  engine 120 80 801 600 []  []
    {| Binary64.vx := 137.5; Binary64.vy := 0; Binary64.zoom := 1.1;
       Binary64.minZoom := 0.1; Binary64.maxZoom := 3 |}.

(** Two nodes 300 apart on a canvas of 800 x 600. *)
Definition pair : Binary64.Engine :=
  engine 120 80 800 600 [node "A" 0 0; node "B" 300 0] []
    Binary64.newViewport.

(** The scene [reversed] under a viewport of zoom 0. *)
Definition flat : Binary64.Engine :=
  engine 120 80 800 600 [node "B" 60 80; node "A" 0 0] [connBA]
    {| Binary64.vx := 0; Binary64.vy := 0; Binary64.zoom := 0;
       Binary64.minZoom := 0; Binary64.maxZoom := 3 |}.

(** The scene [reversed] in exact arithmetic, and the click at
    (10, 0). *)
Definition reversedExact : Engine :=
  snd (addConnection
         (snd (addNode
                 (snd (addNode (newEngine Sample.random)
                         {| nd_id := Some "B"; nd_x := Some 60%Q;
                            nd_y := Some 80%Q; nd_label := None;
                            nd_layer := None; nd_type := None |}))
                 {| nd_id := Some "A"; nd_x := Some 0%Q; nd_y := Some 0%Q;
                    nd_label := None; nd_layer := None; nd_type := None |}))
         (ArgObject
            {| cs_id := Some "c1"; cs_from := Some "B"; cs_to := Some "A";
               cs_label := None; cs_type := None |})).

Definition clickExact : Point := {| px := 10%Q; py := 0%Q |}.

End Sample64.
(* ================================================================== *)
(** * Properties *)

(** ** The model on sample inputs *)

Example slice_samples :
  JsArray.slice [1; 2; 3; 4]%Z 1 (-1) = [2; 3]%Z /\
  JsArray.slice [1; 2; 3]%Z 0 0 = [] /\
  JsArray.sliceFrom [1; 2; 3]%Z (-2) = [2; 3]%Z /\
  JsArray.sliceFrom [1; 2; 3]%Z (-5) = [1; 2; 3]%Z /\
  JsArray.sliceFrom [1; 2; 3]%Z (- 0) = [1; 2; 3]%Z /\
  JsArray.index [1; 2; 3]%Z 3 = None.
Proof. repeat split; reflexivity. Qed.

Example clamp_samples :
  Utils.clamp 5 (1 # 10) 3 = 3 /\
  Utils.clamp 0 (1 # 10) 3 = 1 # 10 /\
  Utils.clamp (11 # 10) (1 # 10) 3 = 11 # 10.
Proof. repeat split; reflexivity. Qed.

Example map_set_keeps_place :
  JsMap.set [("a", 1%Z); ("b", 2%Z)] "a" 3%Z = [("a", 3%Z); ("b", 2%Z)] /\
  JsMap.set [("a", 1%Z); ("b", 2%Z)] "c" 3%Z
  = [("a", 1%Z); ("b", 2%Z); ("c", 3%Z)] /\
  JsMap.delete [("a", 1%Z); ("b", 2%Z)] "a" = [("b", 2%Z)].
Proof. repeat split; reflexivity. Qed.

Example distance_samples :
  let sq q := option_map (fun s => Qeq_bool (radicand s) q) in
  (* beside the segment: the foot of the perpendicular *)
  sq 9 (pointToLineDistance {| px := 5; py := 3 |}
          {| px := 0; py := 0 |} {| px := 10; py := 0 |}) = Some true /\
  (* before the start: the start point *)
  sq 25 (pointToLineDistance {| px := -3; py := 4 |}
           {| px := 0; py := 0 |} {| px := 10; py := 0 |}) = Some true /\
  (* past the end: the end point *)
  sq 25 (pointToLineDistance {| px := 13; py := 4 |}
           {| px := 0; py := 0 |} {| px := 10; py := 0 |}) = Some true /\
  (* coincident end points *)
  sq 25 (pointToLineDistance {| px := 4; py := 5 |}
           {| px := 1; py := 1 |} {| px := 1; py := 1 |}) = Some true /\
  Surd_leb (MathSqrt 64) tolerance = true /\
  Surd_leb (MathSqrt 65) tolerance = false.
Proof. repeat split; reflexivity. Qed.

Example unknown_layer_is_visible :
  isLayerVisible (newEngine Sample.random) "nowhere" = true /\
  isLayerVisible
    (addLayer (newEngine Sample.random) "ui"
       {| li_visible := Some false; li_color := None; li_name := None |})
    "nowhere" = true /\
  isLayerVisible
    (addLayer (newEngine Sample.random) "ui"
       {| li_visible := Some false; li_color := None; li_name := None |})
    "ui" = false.
Proof. repeat split; reflexivity. Qed.

Example hit_test_samples :
  getNodeAtPosition Sample.linked {| px := 60; py := 40 |}
  = Some (Some Sample.nodeA) /\
  getNodeAtPosition Sample.linked {| px := 61; py := 0 |} = Some None /\
  getConnectionAtPosition Sample.linked {| px := 150; py := 8 |}
  = Some (Some Sample.connAC) /\
  getConnectionAtPosition Sample.linked {| px := 150; py := 9 |} = Some None /\
  getConnectionAtPosition Sample.dangling {| px := 150; py := 0 |} = Some None.
Proof. repeat split; reflexivity. Qed.

(** ** Arithmetic facts *)

Lemma jsdiv_defined (a b : Q) : ~ b == 0 -> jsdiv a b = Some (a / b).
Proof.
  intros Hb. unfold jsdiv.
  destruct (Qeq_bool b 0) eqn:E; [|reflexivity].
  apply Qeq_bool_iff in E. contradiction.
Qed.

Lemma Qltb_true (a b : Q) : Qltb a b = true <-> a < b.
Proof.
  unfold Qltb. rewrite negb_true_iff. split.
  - intros E. apply Qnot_le_lt. intros H. apply Qle_bool_iff in H. congruence.
  - intros H. destruct (Qle_bool b a) eqn:E; [|reflexivity].
    apply Qle_bool_iff in E. lra.
Qed.

Lemma Qltb_false (a b : Q) : Qltb a b = false <-> b <= a.
Proof. unfold Qltb. rewrite negb_false_iff. apply Qle_bool_iff. Qed.

Lemma Qgtb_true (a b : Q) : Qgtb a b = true <-> b < a.
Proof. apply (Qltb_true b a). Qed.

Lemma Qgtb_false (a b : Q) : Qgtb a b = false <-> a <= b.
Proof. apply (Qltb_false b a). Qed.

Lemma Qsq_nonneg (x : Q) : 0 <= x * x.
Proof. nra. Qed.

(** The comparison of a formal square root with a rational is the
    comparison of the real square root with it. *)
Lemma Surd_leb_sqrt (r t : Q) :
  Surd_leb (MathSqrt r) t = true <->
  0 <= r /\ (sqrt (Q2R r) <= Q2R t)%R.
Proof.
  assert (Hzero : Q2R 0 = 0%R) by (unfold Q2R; simpl; Lra.lra).
  unfold Surd_leb. simpl radicand.
  rewrite !andb_true_iff, !Qle_bool_iff. split.
  - intros [[Hr Ht] Hrt]. split; [exact Hr|].
    apply Qle_Rle in Ht, Hrt. rewrite Q2R_mult in Hrt. rewrite Hzero in Ht.
    rewrite <- (sqrt_square (Q2R t)) by exact Ht.
    apply sqrt_le_1_alt. exact Hrt.
  - intros [Hr Hs].
    assert (Hr' : (0 <= Q2R r)%R).
    { apply Qle_Rle in Hr. rewrite Hzero in Hr. exact Hr. }
    assert (Ht' : (0 <= Q2R t)%R).
    { pose proof (sqrt_pos (Q2R r)). Lra.lra. }
    split; [split; [exact Hr|]|].
    + apply Rle_Qle. rewrite Hzero. exact Ht'.
    + apply Rle_Qle. rewrite Q2R_mult.
      rewrite <- (sqrt_sqrt (Q2R r)) by exact Hr'.
      apply Rmult_le_compat; try apply sqrt_pos; exact Hs.
Qed.

Lemma Qsq_sum_zero (x y : Q) : x * x + y * y == 0 -> x == 0 /\ y == 0.
Proof. intros H. split; nra. Qed.

Lemma clamp_cases (t lo hi : Q) :
  lo <= hi ->
  (t < lo /\ Utils.clamp t lo hi == lo) \/
  (hi < t /\ Utils.clamp t lo hi == hi) \/
  (lo <= t <= hi /\ Utils.clamp t lo hi == t).
Proof.
  intros Hlh. unfold Utils.clamp.
  destruct (Q.max_spec t lo) as [[H1 E1]|[H1 E1]];
  destruct (Q.min_spec (Qmax t lo) hi) as [[H2 E2]|[H2 E2]];
  rewrite E2; rewrite ?E1 in *; lra.
Qed.

(** ** Viewport *)

Section ViewportFacts.

Variable v : Viewport.
Hypothesis zoom_nonzero : ~ zoom v == 0.

Lemma screenToWorld_defined (p : Point) :
  screenToWorld v p =
    Some {| px := (px p - vx v) / zoom v; py := (py p - vy v) / zoom v |}.
Proof.
  unfold screenToWorld. rewrite !jsdiv_defined by assumption. reflexivity.
Qed.

Lemma zoomFactor_cases (deltaY : Q) :
  (0 < deltaY /\ zoomFactor deltaY = 9 # 10) \/
  (deltaY <= 0 /\ zoomFactor deltaY = 11 # 10).
Proof.
  unfold zoomFactor. destruct (Qgtb deltaY 0) eqn:E.
  - left. apply Qgtb_true in E. auto.
  - right. apply Qgtb_false in E. auto.
Qed.

Hypothesis zoom_lower : minZoom v <= zoom v.
Hypothesis zoom_upper : zoom v <= maxZoom v.

Lemma wheelZoom_nonzero (deltaY : Q) : ~ wheelZoom v deltaY == 0.
Proof.
  unfold wheelZoom.
  assert (Hlh : minZoom v <= maxZoom v) by lra.
  destruct (clamp_cases (zoom v * zoomFactor deltaY) _ _ Hlh)
    as [[H E]|[[H E]|[H E]]]; rewrite E;
  destruct (zoomFactor_cases deltaY) as [[_ F]|[_ F]]; rewrite F in *;
  intros N; apply zoom_nonzero; lra.
Qed.

End ViewportFacts.

(** C4, amended.  Inverse transform in exact arithmetic:
    with numbers read as rationals, for a viewport whose zoom is not
    zero and a screen point [p], [screenToWorld(p)] is defined and
    [worldToScreen(screenToWorld(p))] is [p], exactly.  (In binary64
    the round trip is not exact, and no fixed tolerance bounds its
    error for every viewport.) *)
Theorem screen_world_roundtrip (v : Viewport) (p : Point) :
  ~ zoom v == 0 ->
  exists w, screenToWorld v p = Some w /\ Peq (worldToScreen v w) p.
Proof.
  intros Hz. eexists. split; [apply screenToWorld_defined; assumption|].
  split; simpl; field; assumption.
Qed.

Lemma screen_world_roundtrip_witness :
  exists w,
    screenToWorld
      {| vx := 120; vy := -35 # 2; zoom := 13 # 10;
         minZoom := 1 # 10; maxZoom := 3 |}
      {| px := 7 # 2; py := 481 |} = Some w /\
    Peq (worldToScreen
           {| vx := 120; vy := -35 # 2; zoom := 13 # 10;
              minZoom := 1 # 10; maxZoom := 3 |} w)
      {| px := 7 # 2; py := 481 |}.
Proof.
  apply (screen_world_roundtrip
           {| vx := 120; vy := -35 # 2; zoom := 13 # 10;
              minZoom := 1 # 10; maxZoom := 3 |}
           {| px := 7 # 2; py := 481 |}).
  simpl. intros H. discriminate H.
Defined.

(** C3, amended.  Pivot-preserving zoom in exact arithmetic:
    with numbers read as rationals, when the zoom is inside
    [minZoom .. maxZoom] and not zero, [handleWheel] returns; the new
    zoom is the old zoom times the wheel factor (0.9 for a positive
    [deltaY], 1.1 otherwise) clamped to [minZoom .. maxZoom]; the world
    point under the mouse is the same before and after; and when the
    clamped zoom equals the current zoom the engine is left as it was.
    (In binary64 the world point under the mouse can move by a rounding
    error.) *)
Theorem handleWheel_pivot_preserving (e : Engine) (p : Point) (deltaY : Q) :
  minZoom (viewport e) <= zoom (viewport e) ->
  zoom (viewport e) <= maxZoom (viewport e) ->
  ~ zoom (viewport e) == 0 ->
  exists e',
    handleWheel e p deltaY = Some e' /\
    let v := viewport e in
    let v' := viewport e' in
    let target := zoom v * zoomFactor deltaY in
    (target < minZoom v -> zoom v' == minZoom v) /\
    (maxZoom v < target -> zoom v' == maxZoom v) /\
    (minZoom v <= target <= maxZoom v -> zoom v' == target) /\
    minZoom v' = minZoom v /\ maxZoom v' = maxZoom v /\
    (exists w w',
        screenToWorld v p = Some w /\ screenToWorld v' p = Some w' /\
        Peq w' w) /\
    (Utils.clamp target (minZoom v) (maxZoom v) == zoom v -> e' = e).
Proof.
  intros Hlo Hhi Hz.
  pose proof (wheelZoom_nonzero _ Hz Hlo Hhi deltaY) as Hnz.
  assert (Hlh : minZoom (viewport e) <= maxZoom (viewport e)) by lra.
  pose proof (clamp_cases (zoom (viewport e) * zoomFactor deltaY) _ _ Hlh) as Hc.
  fold (wheelZoom (viewport e) deltaY) in Hc.
  unfold handleWheel, handleWheel_viewport.
  fold (wheelZoom (viewport e) deltaY).
  destruct (Qeq_bool (wheelZoom (viewport e) deltaY) (zoom (viewport e))) eqn:E.
  - apply Qeq_bool_iff in E. simpl. exists e. split; [reflexivity|].
    cbv zeta.
    split; [intros; lra|]. split; [intros; lra|]. split; [intros; lra|].
    split; [reflexivity|]. split; [reflexivity|]. split; [|reflexivity].
    exists {| px := (px p - vx (viewport e)) / zoom (viewport e);
              py := (py p - vy (viewport e)) / zoom (viewport e) |}.
    eexists. rewrite screenToWorld_defined by assumption.
    split; [reflexivity|]. split; [reflexivity|]. split; reflexivity.
  - assert (Hne : ~ wheelZoom (viewport e) deltaY == zoom (viewport e)).
    { intros H. apply Qeq_bool_iff in H. congruence. }
    simpl. rewrite jsdiv_defined by assumption. simpl.
    eexists. split; [reflexivity|]. cbv zeta. simpl.
    split; [intros; lra|]. split; [intros; lra|]. split; [intros; lra|].
    split; [reflexivity|]. split; [reflexivity|]. split.
    + do 2 eexists. rewrite !screenToWorld_defined by assumption.
      split; [reflexivity|]. split; [reflexivity|].
      split; simpl; field; split; assumption.
    + intros H. exfalso. apply Hne. exact H.
Qed.

Lemma handleWheel_pivot_preserving_witness :
  exists e',
    handleWheel (newEngine Sample.random) {| px := 40; py := 25 |} (-1)
      = Some e' /\
    zoom (viewport e') == 11 # 10.
Proof.
  destruct (handleWheel_pivot_preserving (newEngine Sample.random)
              {| px := 40; py := 25 |} (-1))
    as (e' & He & _ & _ & Hin & _).
  - simpl. lra.
  - simpl. lra.
  - simpl. lra.
  - exists e'. split; [exact He|]. rewrite Hin.
    + reflexivity.
    + split; apply Qle_bool_iff; reflexivity.
Defined.

(** ** Distance to a segment *)

Section SegmentDistance.

Variables p a b : Point.

Let dot := (px p - px a) * (px b - px a) + (py p - py a) * (py b - py a).
Let lenSq := (px b - px a) * (px b - px a) + (py b - py a) * (py b - py a).

(** The method returns for all arguments, and what it returns is the
    distance to the point of the segment at [closestParam]. *)
Lemma pointToLineDistance_closest :
  exists s, pointToLineDistance p a b = Some s /\
            radicand s == sqDist p (onSegment a b (closestParam p a b)).
Proof.
  unfold pointToLineDistance, closestParam. fold dot. fold lenSq.
  destruct (Qeq_bool lenSq 0) eqn:E.
  - eexists. split; [reflexivity|]. unfold sqDist, onSegment. simpl. ring.
  - assert (Hl : ~ lenSq == 0).
    { intros H. apply Qeq_bool_iff in H. congruence. }
    rewrite jsdiv_defined by assumption. simpl.
    destruct (Qltb (dot / lenSq) 0); [|destruct (Qgtb (dot / lenSq) 1)];
      (eexists; split; [reflexivity|]); unfold sqDist, onSegment; simpl; ring.
Qed.

Lemma closestParam_range : 0 <= closestParam p a b <= 1.
Proof.
  unfold closestParam. fold dot. fold lenSq.
  destruct (Qeq_bool lenSq 0); [lra|].
  destruct (Qltb (dot / lenSq) 0) eqn:E1; [lra|].
  destruct (Qgtb (dot / lenSq) 1) eqn:E2; [lra|].
  apply Qltb_false in E1. apply Qgtb_false in E2. lra.
Qed.

Lemma sqDist_expand (t : Q) :
  sqDist p (onSegment a b t) == sqDist p a - 2 * t * dot + t * t * lenSq.
Proof. unfold sqDist, onSegment, dot, lenSq. simpl. ring. Qed.

(** No point of the segment is closer than the one at [closestParam]. *)
Lemma closestParam_minimal (t : Q) :
  0 <= t <= 1 ->
  sqDist p (onSegment a b (closestParam p a b)) <= sqDist p (onSegment a b t).
Proof.
  intros Ht. rewrite !sqDist_expand. unfold closestParam. fold dot. fold lenSq.
  assert (Hl0 : 0 <= lenSq).
  { unfold lenSq. pose proof (Qsq_nonneg (px b - px a)).
    pose proof (Qsq_nonneg (py b - py a)). lra. }
  destruct (Qeq_bool lenSq 0) eqn:E.
  - apply Qeq_bool_iff in E.
    destruct (Qsq_sum_zero _ _ E) as [HC HD].
    assert (Hd : dot == 0) by (unfold dot; rewrite HC, HD; ring).
    rewrite E, Hd. lra.
  - assert (Hl : ~ lenSq == 0).
    { intros H. apply Qeq_bool_iff in H. congruence. }
    assert (Hpos : 0 < lenSq) by lra.
    assert (Hq : dot / lenSq * lenSq == dot) by (field; assumption).
    generalize dependent (dot / lenSq). intros q Hq.
    destruct (Qltb q 0) eqn:E1; [|destruct (Qgtb q 1) eqn:E2].
    + apply Qltb_true in E1.
      assert (Hd : dot < 0) by nra.
      assert (H1 : 0 <= t * (- dot)) by nra.
      assert (H2 : 0 <= t * t * lenSq) by nra.
      lra.
    + apply Qgtb_true in E2.
      assert (Hd : lenSq < dot) by nra.
      assert (H1 : 0 <= (1 - t) * (dot - lenSq)) by nra.
      assert (H2 : 0 <= (1 - t) * (1 - t) * lenSq) by nra.
      nra.
    + apply Qltb_false in E1. apply Qgtb_false in E2.
      assert (H0 : 0 <= (t - q) * (t - q)) by apply Qsq_nonneg.
      assert (H1 : 0 <= lenSq * ((t - q) * (t - q))).
      { apply Qmult_le_0_compat; assumption. }
      rewrite <- Hq. nra.
Qed.

Lemma sqDist_nonneg (q : Point) : 0 <= sqDist p q.
Proof.
  unfold sqDist.
  pose proof (Qsq_nonneg (px p - px q)). pose proof (Qsq_nonneg (py p - py q)).
  lra.
Qed.

(** The comparison made by the hit test decides [nearSegment]. *)
Lemma Surd_leb_near (s : Surd) :
  pointToLineDistance p a b = Some s ->
  Surd_leb s tolerance = true <-> nearSegment p a b tolerance.
Proof.
  intros Hs.
  destruct pointToLineDistance_closest as [s' [Hs' Hr]].
  rewrite Hs in Hs'. injection Hs' as <-.
  unfold Surd_leb. rewrite !andb_true_iff, !Qle_bool_iff. split.
  - intros [_ H]. exists (closestParam p a b).
    split; [apply closestParam_range|]. rewrite <- Hr. exact H.
  - intros [t [Ht H]].
    pose proof (closestParam_minimal t Ht) as Hm.
    pose proof (sqDist_nonneg (onSegment a b (closestParam p a b))) as Hn.
    rewrite Hr. repeat split; try lra. unfold tolerance. lra.
Qed.

(** Coincident end points: the distance is the one to [a]. *)
Lemma onSegment_degenerate (t : Q) :
  px a == px b -> py a == py b ->
  sqDist p (onSegment a b t) == sqDist p a.
Proof.
  intros Hx Hy.
  assert (HC : px b - px a == 0) by lra.
  assert (HD : py b - py a == 0) by lra.
  unfold sqDist, onSegment. simpl. rewrite HC, HD. ring.
Qed.

End SegmentDistance.

(** ** Connection hit test *)

Lemma scanConnections_step (e : Engine) (w : Point) (c : Connection)
    (rest : list Connection) :
  (scanConnections e w (c :: rest) = scanConnections e w rest /\
   ~ hittable e w c) \/
  (scanConnections e w (c :: rest) = Some (Some c) /\ hittable e w c).
Proof.
  simpl.
  destruct (JsMap.get (nodes e) (conn_from c)) as [f|] eqn:Ef.
  2:{ left. split; [reflexivity|]. intros (f & t & H & _). congruence. }
  destruct (JsMap.get (nodes e) (conn_to c)) as [t|] eqn:Et.
  2:{ left. split; [reflexivity|]. intros (f' & t & _ & H & _). congruence. }
  destruct (isLayerVisible e (node_layer f)) eqn:Vf; simpl.
  2:{ left. split; [reflexivity|].
      intros (f' & t' & H1 & H2 & H3 & _). congruence. }
  destruct (isLayerVisible e (node_layer t)) eqn:Vt; simpl.
  2:{ left. split; [reflexivity|].
      intros (f' & t' & H1 & H2 & _ & H3 & _). congruence. }
  destruct (pointToLineDistance_closest w (center f) (center t)) as [s [Hs _]].
  fold (center f). fold (center t). rewrite Hs. simpl.
  pose proof (Surd_leb_near _ _ _ _ Hs) as Hiff.
  destruct (Surd_leb s tolerance) eqn:El.
  - right. split; [reflexivity|].
    exists f, t. repeat split; try assumption. apply Hiff. reflexivity.
  - left. split; [reflexivity|].
    intros (f' & t' & H1 & H2 & _ & _ & H3).
    assert (f' = f) by congruence. assert (t' = t) by congruence. subst.
    apply Hiff in H3. discriminate.
Qed.

Lemma scanConnections_first (e : Engine) (w : Point) (cs : list Connection) :
  (scanConnections e w cs = Some None /\
   forall c, In c cs -> ~ hittable e w c) \/
  (exists pre c post,
      cs = (pre ++ c :: post)%list /\
      scanConnections e w cs = Some (Some c) /\
      hittable e w c /\
      forall c', In c' pre -> ~ hittable e w c').
Proof.
  induction cs as [|c rest IH].
  - left. split; [reflexivity|]. intros c [].
  - destruct (scanConnections_step e w c rest) as [[Hskip Hn]|[Hhit Hh]].
    + rewrite Hskip.
      destruct IH as [[Hr Hall]|(pre & c0 & post & Hcs & Hr & Hh & Hpre)].
      * left. split; [assumption|].
        intros c' [Heq|Hin]; [subst c'; assumption|apply Hall; assumption].
      * right. exists (c :: pre), c0, post. rewrite Hcs.
        split; [reflexivity|]. rewrite <- Hcs. split; [assumption|].
        split; [assumption|].
        intros c' [Heq|Hin]; [subst c'; assumption|apply Hpre; assumption].
    + right. exists [], c, rest.
      split; [reflexivity|]. split; [assumption|]. split; [assumption|].
      intros c' [].
Qed.

(** C9, amended.  Connection hit-testing in exact
    arithmetic: with numbers read as rationals and the square root kept
    exact, with a zoom that is not zero the screen point has a world
    point [w], and [getConnectionAtPosition] returns the first
    connection of the list that has both end nodes in the scene, both
    on visible layers, and [w] within the tolerance (8, in world units)
    of the segment between the two centres; it returns null when the
    list has none.  The distance is always defined (no division by
    zero), it is the least distance to a point of the segment, and for
    coincident centres it is the distance to that point.  (In binary64
    the distance is rounded before it is compared, so a connection at
    distance 8 exactly can be missed.) *)
Theorem getConnectionAtPosition_first_within_tolerance
    (e : Engine) (screenPos : Point) :
  ~ zoom (viewport e) == 0 ->
  (exists w,
      screenToWorld (viewport e) screenPos = Some w /\
      ((getConnectionAtPosition e screenPos = Some None /\
        forall c, In c (connections e) -> ~ hittable e w c) \/
       (exists pre c post,
           connections e = (pre ++ c :: post)%list /\
           getConnectionAtPosition e screenPos = Some (Some c) /\
           hittable e w c /\
           forall c', In c' pre -> ~ hittable e w c'))) /\
  (forall q a b,
      exists s,
        pointToLineDistance q a b = Some s /\
        (exists t, 0 <= t <= 1 /\ radicand s == sqDist q (onSegment a b t)) /\
        (forall t, 0 <= t <= 1 -> radicand s <= sqDist q (onSegment a b t)) /\
        (px a == px b -> py a == py b -> radicand s == sqDist q a)).
Proof.
  intros Hz. split.
  - eexists. split; [apply screenToWorld_defined; assumption|].
    unfold getConnectionAtPosition.
    rewrite screenToWorld_defined by assumption. simpl.
    apply scanConnections_first.
  - intros q a b.
    destruct (pointToLineDistance_closest q a b) as [s [Hs Hr]].
    exists s. split; [assumption|]. split; [|split].
    + exists (closestParam q a b). split; [apply closestParam_range|assumption].
    + intros t Ht. rewrite Hr. apply closestParam_minimal. assumption.
    + intros Hx Hy. rewrite Hr. apply onSegment_degenerate; assumption.
Qed.

Lemma getConnectionAtPosition_first_within_tolerance_witness :
  exists w,
    screenToWorld (viewport Sample.linked) {| px := 150; py := 0 |} = Some w /\
    hittable Sample.linked w Sample.connAC.
Proof.
  destruct (getConnectionAtPosition_first_within_tolerance
              Sample.linked {| px := 150; py := 0 |})
    as [(w & Hw & [[Hnone _]|(pre & c & post & _ & Hres & Hh & _)]) _].
  - simpl. intros H. discriminate H.
  - vm_compute in Hnone. discriminate Hnone.
  - vm_compute in Hres. injection Hres as <-.
    exists w. split; [exact Hw|exact Hh].
Defined.

(** ** Node hit test *)

Lemma scanNodes_skips (e : Engine) (w : Point) (before rest : list Node) :
  (forall m, In m before -> nodeHit e w m = false) ->
  scanNodes e w (before ++ rest) = scanNodes e w rest.
Proof.
  induction before as [|m before IH]; intros Hmiss; [reflexivity|].
  simpl. pose proof (Hmiss m (or_introl eq_refl)) as Hm.
  unfold nodeHit in Hm.
  destruct (isLayerVisible e (node_layer m)); simpl in *.
  - rewrite Hm. apply IH. intros m' Hin. apply Hmiss. right. exact Hin.
  - apply IH. intros m' Hin. apply Hmiss. right. exact Hin.
Qed.

Lemma scanNodes_hit (e : Engine) (w : Point) (n : Node) (rest : list Node) :
  nodeHit e w n = true -> scanNodes e w (n :: rest) = Some n.
Proof.
  unfold nodeHit. rewrite andb_true_iff. intros [Hv Hin].
  simpl. rewrite Hv, Hin. reflexivity.
Qed.

(** C1, as the code has it.  Hit-test precedence: when two visible
    nodes at the same position both contain the world point of the
    screen point, [getNodeAtPosition] returns the one that comes first
    in the iteration order of the node map, that is the one added
    earlier, provided no node before it is hit as well. *)
Theorem getNodeAtPosition_earliest_added
    (e : Engine) (screenPos w : Point) (earlier later : Node)
    (before between after : list Node) :
  screenToWorld (viewport e) screenPos = Some w ->
  JsMap.values (nodes e)
    = (before ++ earlier :: between ++ later :: after)%list ->
  node_x earlier == node_x later ->
  node_y earlier == node_y later ->
  nodeHit e w earlier = true ->
  nodeHit e w later = true ->
  (forall m, In m before -> nodeHit e w m = false) ->
  getNodeAtPosition e screenPos = Some (Some earlier).
Proof.
  intros Hw Hvals _ _ Hearlier _ Hbefore.
  unfold getNodeAtPosition. rewrite Hw. simpl. rewrite Hvals.
  rewrite scanNodes_skips by assumption.
  rewrite (scanNodes_hit _ _ _ _ Hearlier). reflexivity.
Qed.

Lemma getNodeAtPosition_earliest_added_witness :
  getNodeAtPosition Sample.stacked Sample.origin = Some (Some Sample.nodeA).
Proof.
  apply (getNodeAtPosition_earliest_added Sample.stacked Sample.origin
           Sample.origin Sample.nodeA Sample.nodeB [] [] []).
  - reflexivity.
  - reflexivity.
  - reflexivity.
  - reflexivity.
  - reflexivity.
  - reflexivity.
  - intros m [].
Defined.

(** C1, as the claim has it, fails: in the scene built by adding [A]
    and then [B] at the same position, both nodes are visible and
    contain the world point of the origin, [B] is the node added last,
    and the hit test does not return [B]. *)
Lemma getNodeAtPosition_not_latest_added :
  JsMap.values (nodes Sample.stacked) = [Sample.nodeA; Sample.nodeB] /\
  node_x Sample.nodeA == node_x Sample.nodeB /\
  node_y Sample.nodeA == node_y Sample.nodeB /\
  nodeHit Sample.stacked Sample.origin Sample.nodeA = true /\
  nodeHit Sample.stacked Sample.origin Sample.nodeB = true /\
  screenToWorld (viewport Sample.stacked) Sample.origin = Some Sample.origin /\
  getNodeAtPosition Sample.stacked Sample.origin <> Some (Some Sample.nodeB).
Proof.
  repeat split; try reflexivity.
  vm_compute. intros H. discriminate H.
Qed.

(** ** Node map *)

Section JsMapFacts.

Context {V : Type}.
Implicit Types (m : JsMap.t V) (k : string) (v : V).

Lemma get_absent m k : ~ In k (JsMap.keys m) -> JsMap.get m k = None.
Proof.
  induction m as [|[k' v'] m IH]; intros Hk; [reflexivity|].
  simpl in *. destruct (String.eqb_spec k' k) as [->|Hne].
  - exfalso. apply Hk. left. reflexivity.
  - apply IH. intros Hin. apply Hk. right. exact Hin.
Qed.

Lemma get_delete_same m k : JsMap.wf m -> JsMap.get (JsMap.delete m k) k = None.
Proof.
  unfold JsMap.wf.
  induction m as [|[k' v'] m IH]; intros Hwf; [reflexivity|].
  simpl in *. inversion Hwf as [|? ? Hnotin Hrest]; subst.
  destruct (String.eqb_spec k' k) as [->|Hne].
  - apply get_absent. exact Hnotin.
  - simpl. destruct (String.eqb_spec k' k); [contradiction|].
    apply IH. exact Hrest.
Qed.

Lemma delete_absent m k : JsMap.get m k = None -> JsMap.delete m k = m.
Proof.
  induction m as [|[k' v'] m IH]; intros Hget; [reflexivity|].
  simpl in *. destruct (String.eqb k' k); [discriminate|].
  rewrite IH by assumption. reflexivity.
Qed.

Lemma keys_delete_incl m k x :
  In x (JsMap.keys (JsMap.delete m k)) -> In x (JsMap.keys m).
Proof.
  induction m as [|[k' v'] m IH]; simpl; [tauto|].
  destruct (String.eqb k' k); simpl.
  - intros H. right. exact H.
  - intros [H|H]; [left; exact H|right; apply IH; exact H].
Qed.

Lemma wf_delete m k : JsMap.wf m -> JsMap.wf (JsMap.delete m k).
Proof.
  unfold JsMap.wf.
  induction m as [|[k' v'] m IH]; intros Hwf; [constructor|].
  simpl in *. inversion Hwf as [|? ? Hnotin Hrest]; subst.
  destruct (String.eqb k' k); [exact Hrest|].
  simpl. constructor; [|apply IH; exact Hrest].
  intros Hin. apply Hnotin. apply (keys_delete_incl m k). exact Hin.
Qed.

Lemma keys_set m k v x :
  In x (JsMap.keys (JsMap.set m k v)) -> In x (JsMap.keys m) \/ x = k.
Proof.
  induction m as [|[k' v'] m IH]; simpl.
  - intros [H|[]]. right. symmetry. exact H.
  - destruct (String.eqb k' k); simpl.
    + intros H. left. exact H.
    + intros [H|H]; [left; left; exact H|].
      destruct (IH H) as [H'|H']; [left; right; exact H'|right; exact H'].
Qed.

Lemma wf_set m k v : JsMap.wf m -> JsMap.wf (JsMap.set m k v).
Proof.
  unfold JsMap.wf.
  induction m as [|[k' v'] m IH]; intros Hwf.
  - simpl. constructor; [intros []|constructor].
  - simpl in *. inversion Hwf as [|? ? Hnotin Hrest]; subst.
    destruct (String.eqb_spec k' k) as [->|Hne]; simpl.
    + constructor; assumption.
    + constructor; [|apply IH; exact Hrest].
      intros Hin. destruct (keys_set _ _ _ _ Hin) as [H|H].
      * apply Hnotin. exact H.
      * apply Hne. exact H.
Qed.

End JsMapFacts.

Lemma set_new_goes_last {V} (m : JsMap.t V) (k : string) (v : V) :
  JsMap.get m k = None -> JsMap.set m k v = (m ++ [(k, v)])%list.
Proof.
  induction m as [|[k' v'] m IH]; intros Hget; [reflexivity|].
  simpl in *. destruct (String.eqb k' k); [discriminate|].
  rewrite IH by assumption. reflexivity.
Qed.

(** The iteration order of the node map is the order of addition: a
    node added under a key that the map does not have goes last. *)
Lemma addNode_new_goes_last (e : Engine) (nodeData : NodeData) :
  JsMap.get (nodes (snd (orGenerateId (nd_id nodeData) e)))
    (fst (orGenerateId (nd_id nodeData) e)) = None ->
  JsMap.values (nodes (snd (addNode e nodeData)))
  = (JsMap.values (nodes e) ++ [fst (addNode e nodeData)])%list.
Proof.
  unfold addNode.
  destruct (orGenerateId (nd_id nodeData) e) as [nodeId e1] eqn:E.
  simpl. intros Hnew.
  assert (Hsame : nodes e1 = nodes e).
  { unfold orGenerateId in E.
    destruct (nd_id nodeData) as [s|]; [destruct (truthy s)|];
      injection E as _ <-; reflexivity. }
  rewrite set_new_goes_last by exact Hnew.
  unfold JsMap.values. rewrite map_app, Hsame. reflexivity.
Qed.

(** The methods that write the node map keep its keys distinct. *)
Lemma addNode_wf (e : Engine) (nodeData : NodeData) :
  JsMap.wf (nodes e) -> JsMap.wf (nodes (snd (addNode e nodeData))).
Proof.
  intros Hwf. unfold addNode.
  destruct (orGenerateId (nd_id nodeData) e) as [nodeId e1] eqn:E.
  simpl. apply wf_set.
  unfold orGenerateId in E.
  destruct (nd_id nodeData) as [s|]; [destruct (truthy s)|];
    injection E as _ <-; exact Hwf.
Qed.

Lemma removeNode_wf (e : Engine) (nodeId : string) :
  JsMap.wf (nodes e) -> JsMap.wf (nodes (removeNode e nodeId)).
Proof.
  intros Hwf. unfold removeNode. simpl.
  destruct (selectedNode e) as [sel|];
    [destruct (String.eqb (node_id sel) nodeId)|];
    simpl; apply wf_delete; exact Hwf.
Qed.

(** ** Removing nodes and connections *)

Lemma notIncident_true (nodeId : string) (c : Connection) :
  notIncident nodeId c = true <-> ~ references nodeId c.
Proof.
  unfold notIncident, references.
  rewrite andb_true_iff, !negb_true_iff.
  destruct (String.eqb_spec (conn_from c) nodeId);
  destruct (String.eqb_spec (conn_to c) nodeId); split; intros H;
    try tauto; try (destruct H; discriminate).
Qed.

Lemma filter_all_kept {A} (f : A -> bool) (l : list A) :
  (forall x, In x l -> f x = true) -> filter f l = l.
Proof.
  induction l as [|x l IH]; intros H; [reflexivity|].
  simpl. rewrite (H x (or_introl eq_refl)).
  rewrite IH; [reflexivity|]. intros y Hy. apply H. right. exact Hy.
Qed.

(** C7, as the code has it.  Cascade delete: after [removeNode(id)] the
    node is absent, the connections left are exactly those that do not
    start or end at [id], in their order, the selection is cleared when
    the selected node has this id (so when the removed node, stored
    under its own id, was selected) and kept otherwise, and nothing
    else changes.  For an absent id the node map is unchanged, but the
    connections that reference the id are removed all the same; the
    engine is unchanged when, in addition, no connection references the
    id and the selection does not have it. *)
Theorem removeNode_cascade (e : Engine) (nodeId : string) :
  JsMap.wf (nodes e) ->
  let e' := removeNode e nodeId in
  JsMap.get (nodes e') nodeId = None /\
  (forall c, In c (connections e') <->
             In c (connections e) /\ ~ references nodeId c) /\
  connections e' = filter (notIncident nodeId) (connections e) /\
  (forall sel, selectedNode e = Some sel ->
               selectedNode e' =
                 if String.eqb (node_id sel) nodeId then None else Some sel) /\
  (selectedNode e = None -> selectedNode e' = None) /\
  (forall n, JsMap.get (nodes e) nodeId = Some n ->
             node_id n = nodeId ->
             selectedNode e = Some n -> selectedNode e' = None) /\
  restore3 e' e = e /\
  (JsMap.get (nodes e) nodeId = None ->
   nodes e' = nodes e /\
   ((forall c, In c (connections e) -> ~ references nodeId c) ->
    (forall sel, selectedNode e = Some sel -> node_id sel <> nodeId) ->
    e' = e)).
Proof.
  intros Hwf e'.
  assert (Hconn : connections e' = filter (notIncident nodeId) (connections e)).
  { unfold e', removeNode. simpl.
    destruct (selectedNode e) as [sel|]; [|reflexivity].
    destruct (String.eqb (node_id sel) nodeId); reflexivity. }
  assert (Hnodes : nodes e' = JsMap.delete (nodes e) nodeId).
  { unfold e', removeNode. simpl.
    destruct (selectedNode e) as [sel|]; [|reflexivity].
    destruct (String.eqb (node_id sel) nodeId); reflexivity. }
  split; [rewrite Hnodes; apply get_delete_same; exact Hwf|].
  split.
  { intros c. rewrite Hconn, filter_In, notIncident_true. reflexivity. }
  split; [exact Hconn|].
  split.
  { intros sel Hsel. unfold e', removeNode. simpl. rewrite Hsel.
    destruct (String.eqb (node_id sel) nodeId); simpl; [reflexivity|exact Hsel]. }
  split.
  { intros Hsel. unfold e', removeNode. simpl. rewrite Hsel. exact Hsel. }
  split.
  { intros n _ Hid Hsel. unfold e', removeNode. simpl. rewrite Hsel.
    rewrite <- Hid, String.eqb_refl. reflexivity. }
  split.
  { unfold e', removeNode, restore3. simpl.
    destruct (selectedNode e) as [sel|] eqn:Hsel.
    - destruct (String.eqb (node_id sel) nodeId); destruct e; simpl in *;
        rewrite Hsel; reflexivity.
    - destruct e; simpl in *; rewrite Hsel; reflexivity. }
  intros Habs.
  split; [rewrite Hnodes; apply delete_absent; exact Habs|].
  intros Hnone Hsel.
  unfold e', removeNode. simpl.
  rewrite (delete_absent _ _ Habs).
  rewrite filter_all_kept.
  2:{ intros c Hin. apply notIncident_true. apply Hnone. exact Hin. }
  destruct (selectedNode e) as [sel|] eqn:Es.
  - destruct (String.eqb_spec (node_id sel) nodeId) as [Heq|Hne].
    + exfalso. apply (Hsel sel eq_refl). exact Heq.
    + destruct e; simpl in *. reflexivity.
  - destruct e; simpl in *. reflexivity.
Qed.

Lemma removeNode_cascade_witness :
  JsMap.get (nodes (removeNode Sample.linked "A")) "A" = None /\
  connections (removeNode Sample.linked "A") = [].
Proof.
  destruct (removeNode_cascade Sample.linked "A") as (Hgone & _ & Hconn & _).
  - unfold JsMap.wf. simpl.
    constructor; [intros [H|[]]; discriminate H|].
    constructor; [intros []|constructor].
  - split; [exact Hgone|]. rewrite Hconn. reflexivity.
Defined.

(** C7, as the claim has it, fails in its last part: in a scene whose
    only connection goes from [A] to [C] and that has neither node,
    [A] is absent and [removeNode("A")] changes the scene: it removes
    the connection. *)
Lemma removeNode_absent_drops_dangling :
  JsMap.get (nodes Sample.dangling) "A" = None /\
  connections Sample.dangling = [Sample.connAC] /\
  removeNode Sample.dangling "A" <> Sample.dangling.
Proof.
  split; [reflexivity|]. split; [reflexivity|].
  intros H. apply (f_equal connections) in H. discriminate H.
Qed.

Lemma keptByRemove_true (fromId toId : string) (c : Connection) :
  keptByRemove fromId toId c = true <->
  ~ joins fromId toId c /\ ~ joins toId fromId c.
Proof.
  unfold keptByRemove, joins.
  rewrite andb_true_iff, !negb_true_iff, !andb_false_iff.
  destruct (String.eqb_spec (conn_from c) fromId);
  destruct (String.eqb_spec (conn_to c) toId);
  destruct (String.eqb_spec (conn_from c) toId);
  destruct (String.eqb_spec (conn_to c) fromId);
  split; intros H; try tauto;
  try (destruct H as [[H|H] [H'|H']]; discriminate).
Qed.

Lemma filter_length_lt {A} (f : A -> bool) (l : list A) :
  (List.length (filter f l) < List.length l)%nat <->
  exists x, In x l /\ f x = false.
Proof.
  induction l as [|x l IH]; simpl.
  - split; [lia|intros (x & [] & _)].
  - pose proof (filter_length_le f l) as Hle.
    destruct (f x) eqn:E; simpl.
    + rewrite <- Nat.succ_lt_mono, IH. split.
      * intros (y & Hy & Hf). exists y. auto.
      * intros (y & [<-|Hy] & Hf); [congruence|]. exists y. auto.
    + split; [|lia]. intros _. exists x. auto.
Qed.

(** C8.  Undirected removal: [removeConnection(fromId, toId)] keeps,
    in their order, exactly the connections that join neither
    [fromId] to [toId] nor [toId] to [fromId], changes no other field,
    and returns true exactly when the list had a connection joining
    the pair in one of the two directions. *)
Theorem removeConnection_undirected (e : Engine) (fromId toId : string) :
  let removed := fst (removeConnection e fromId toId) in
  let e' := snd (removeConnection e fromId toId) in
  (forall c, In c (connections e') <->
             In c (connections e) /\
             ~ joins fromId toId c /\ ~ joins toId fromId c) /\
  (exists keep,
      connections e' = filter keep (connections e) /\
      forall c, keep c = true <->
                ~ joins fromId toId c /\ ~ joins toId fromId c) /\
  set_connections e' (connections e) = e /\
  (removed = true <->
   exists c, In c (connections e) /\
             (joins fromId toId c \/ joins toId fromId c)).
Proof.
  cbv zeta. unfold removeConnection. simpl.
  split.
  { intros c. rewrite filter_In, keptByRemove_true. reflexivity. }
  split.
  { exists (keptByRemove fromId toId). split; [reflexivity|].
    intros c. apply keptByRemove_true. }
  split; [destruct e; reflexivity|].
  rewrite Nat.ltb_lt, filter_length_lt. split.
  - intros (c & Hin & Hf). exists c. split; [exact Hin|].
    destruct (String.eqb_spec (conn_from c) fromId) as [E1|N1];
    destruct (String.eqb_spec (conn_to c) toId) as [E2|N2];
    destruct (String.eqb_spec (conn_from c) toId) as [E3|N3];
    destruct (String.eqb_spec (conn_to c) fromId) as [E4|N4];
      unfold joins; try tauto;
      exfalso; revert Hf; apply not_false_iff_true, keptByRemove_true;
      unfold joins; tauto.
  - intros (c & Hin & Hj). exists c. split; [exact Hin|].
    apply not_true_iff_false. rewrite keptByRemove_true. tauto.
Qed.

(** C10, as the code has it.  Frame of [clearAll]: it empties the node
    map and the connection list, sets the selected node, the hovered
    node and the three highlight fields to their empty values, and
    leaves every other field as it was: the layers with their
    visibility, the viewport, and also the selected and the hovered
    connection. *)
Theorem clearAll_frame (e : Engine) :
  let e' := clearAll e in
  nodes e' = JsMap.empty /\ connections e' = [] /\
  selectedNode e' = None /\ hoveredNode e' = None /\
  highlightedNode e' = None /\ highlightedNodes e' = [] /\
  highlightedConnections e' = [] /\
  layers e' = layers e /\
  (forall layerId, isLayerVisible e' layerId = isLayerVisible e layerId) /\
  viewport e' = viewport e /\
  selectedConnection e' = selectedConnection e /\
  hoveredConnection e' = hoveredConnection e /\
  nodeSize e' = nodeSize e /\ hasDragged e' = hasDragged e /\
  rngCalls e' = rngCalls e /\ renders e' = renders e /\
  events e' = events e /\ errors e' = errors e.
Proof.
  cbv zeta. unfold clearAll. simpl. repeat split; reflexivity.
Qed.

(** C10, as the claim has it, fails for the selection: after a click
    that selected the connection of the scene, [clearAll] leaves no
    connection in the scene but the selected connection is still set. *)
Lemma clearAll_keeps_selectedConnection :
  handleClick Sample.linked {| px := 150; py := 0 |} = Some Sample.picked /\
  selectedConnection Sample.picked = Some Sample.connAC /\
  connections (clearAll Sample.picked) = [] /\
  selectedConnection (clearAll Sample.picked) <> None.
Proof.
  split; [reflexivity|]. split; [reflexivity|]. split; [reflexivity|].
  intros H. discriminate H.
Qed.

(** ** Undo of a node removal *)

Lemma addNode_connections (e : Engine) (nodeData : NodeData) :
  connections (snd (addNode e nodeData)) = connections e.
Proof.
  unfold addNode, orGenerateId.
  destruct (nd_id nodeData) as [s|]; [destruct (truthy s)|]; reflexivity.
Qed.

Lemma addConnection_string_connections (cs : list Connection) (e : Engine) :
  connections
    (fold_left
       (fun acc conn => snd (addConnection acc (ArgString (conn_from conn))))
       cs e)
  = connections e.
Proof.
  revert e. induction cs as [|c cs IH]; intros e; [reflexivity|].
  simpl. rewrite IH. reflexivity.
Qed.

(** Whatever the scene, [execute()] followed by [undo()] of a
    remove-node command leaves the connections that [execute()] left:
    none of the saved connections comes back. *)
Lemma removeNode_undo_connections
    (app : App) (e : Engine) (nodeId : string) (cmd : Command) :
  canvasEngine app = Some e ->
  createRemoveNodeCommand app nodeId = Some cmd ->
  exists e',
    undo cmd (execute cmd (Some e)) = Some e' /\
    connections e' = filter (notIncident nodeId) (connections e).
Proof.
  intros He Hcmd. unfold createRemoveNodeCommand in Hcmd. rewrite He in Hcmd.
  destruct (JsMap.get (nodes e) nodeId) as [node|]; [|discriminate].
  injection Hcmd as <-. simpl. eexists. split; [reflexivity|].
  rewrite addConnection_string_connections, addNode_connections.
  unfold removeNode. simpl.
  destruct (selectedNode e) as [sel|]; [|reflexivity].
  destruct (String.eqb (node_id sel) nodeId); reflexivity.
Qed.

(** C2.  The failing run: in the scene with nodes [A] and [C] and the
    connection [A -> C], the command built by
    [createRemoveNodeCommand("A")] is run and undone.  Node [A] is back,
    the connection is not: [undo()] passed a string to [addConnection],
    which logged an error and added nothing. *)
Theorem removeNode_command_undo_loses_connection :
  exists cmd,
    createRemoveNodeCommand (newApp (Some Sample.linked)) "A" = Some cmd /\
    connections Sample.linked = [Sample.connAC] /\
    exists e',
      undo cmd (execute cmd (Some Sample.linked)) = Some e' /\
      JsMap.get (nodes e') "A" = Some Sample.nodeA /\
      connections e' = [] /\
      errors e' = ["Invalid connection format:"].
Proof.
  eexists. split; [reflexivity|]. split; [reflexivity|].
  eexists. split; [reflexivity|].
  split; [reflexivity|]. split; reflexivity.
Qed.

(** The undo of a connection removal passes the connection object and
    does bring the connection back. *)
Lemma deleteConnection_command_undo_restores :
  let cmd := createDeleteConnectionCommand Sample.connAC in
  option_map connections (execute cmd (Some Sample.linked)) = Some [] /\
  option_map connections (undo cmd (execute cmd (Some Sample.linked)))
    = Some [Sample.connAC].
Proof. split; reflexivity. Qed.

(** ** Command history *)

Section SliceFacts.

Context {A : Type}.
Implicit Types (l : list A).

Lemma slice_prefix l (k : Z) :
  (0 <= k)%Z -> JsArray.slice l 0 k = firstn (Z.to_nat k) l.
Proof.
  intros Hk. unfold JsArray.slice, JsArray.relIndex.
  replace (0 <? 0)%Z with false by reflexivity.
  replace (k <? 0)%Z with false by (symmetry; apply Z.ltb_ge; exact Hk).
  rewrite (Z.min_l 0) by lia. simpl skipn. rewrite Z.sub_0_r.
  destruct (Z.le_gt_cases k (Z.of_nat (List.length l))) as [Hle|Hgt].
  - rewrite Z.min_l by exact Hle. reflexivity.
  - rewrite Z.min_r by lia. rewrite Nat2Z.id.
    rewrite firstn_all, firstn_all2 by lia. reflexivity.
Qed.

Lemma sliceFrom_suffix l (k : Z) :
  JsArray.sliceFrom l k
  = skipn (Z.to_nat (JsArray.relIndex (Z.of_nat (List.length l)) k)) l.
Proof.
  unfold JsArray.sliceFrom, JsArray.slice.
  set (len := Z.of_nat (List.length l)).
  set (from := JsArray.relIndex len k).
  assert (Hto : JsArray.relIndex len len = len).
  { unfold JsArray.relIndex.
    replace (len <? 0)%Z with false by (symmetry; apply Z.ltb_ge; lia).
    apply Z.min_id. }
  assert (Hfrom : (0 <= from <= len)%Z).
  { unfold from, JsArray.relIndex. destruct (k <? 0)%Z eqn:E; lia. }
  rewrite Hto. apply firstn_all2. rewrite length_skipn. lia.
Qed.

(** [slice(-n)] of a list longer than [n > 0] are its last [n]
    elements. *)
Lemma sliceFrom_last l (n : Z) :
  (0 < n < Z.of_nat (List.length l))%Z ->
  JsArray.sliceFrom l (- n)
  = skipn (List.length l - Z.to_nat n) l.
Proof.
  intros Hn. rewrite sliceFrom_suffix. f_equal.
  unfold JsArray.relIndex.
  replace (- n <? 0)%Z with true by (symmetry; apply Z.ltb_lt; lia).
  lia.
Qed.

End SliceFacts.

Lemma executeCommand_history (app : App) (c : Command) :
  (-1 <= historyIndex app)%Z ->
  commandHistory (executeCommand app c)
  = if (maxHistorySize app <? Z.of_nat (List.length (extended app c)))%Z
    then JsArray.sliceFrom (extended app c) (- maxHistorySize app)
    else extended app c.
Proof.
  intros Hidx. unfold executeCommand, extended. simpl.
  rewrite slice_prefix by lia. reflexivity.
Qed.

Lemma executeCommand_index (app : App) (c : Command) :
  historyIndex (executeCommand app c)
  = (Z.of_nat (List.length (commandHistory (executeCommand app c))) - 1)%Z.
Proof. reflexivity. Qed.

Lemma executeCommand_suffix (app : App) (c : Command) :
  (-1 <= historyIndex app)%Z ->
  exists evicted,
    extended app c = (evicted ++ commandHistory (executeCommand app c))%list /\
    ((Z.of_nat (List.length (extended app c)) <= maxHistorySize app)%Z ->
     evicted = []).
Proof.
  intros Hidx. rewrite executeCommand_history by exact Hidx.
  destruct (maxHistorySize app <? Z.of_nat (List.length (extended app c)))%Z
    eqn:E.
  - rewrite sliceFrom_suffix.
    eexists. split; [symmetry; apply firstn_skipn|].
    apply Z.ltb_lt in E. lia.
  - exists []. split; reflexivity.
Qed.

Lemma executeCommand_length (app : App) (c : Command) :
  (0 < maxHistorySize app)%Z ->
  (-1 <= historyIndex app)%Z ->
  List.length (commandHistory (executeCommand app c))
  = Nat.min (List.length (extended app c)) (Z.to_nat (maxHistorySize app)).
Proof.
  intros Hmax Hidx. rewrite executeCommand_history by exact Hidx.
  destruct (maxHistorySize app <? Z.of_nat (List.length (extended app c)))%Z
    eqn:E.
  - apply Z.ltb_lt in E. rewrite sliceFrom_last by lia.
    rewrite length_skipn. lia.
  - apply Z.ltb_ge in E. lia.
Qed.

Lemma undoTimes_all (n : nat) (app : App) :
  historyIndex app = (Z.of_nat n - 1)%Z ->
  (n <= List.length (commandHistory app))%nat ->
  exists app',
    undoTimes n app = Normal app' /\
    historyIndex app' = (-1)%Z /\
    commandHistory app' = commandHistory app.
Proof.
  revert app. induction n as [|n IH]; intros app Hidx Hlen.
  - exists app. split; [reflexivity|]. split; [exact Hidx|reflexivity].
  - simpl undoTimes. unfold appUndo.
    replace (0 <=? historyIndex app)%Z with true
      by (symmetry; apply Z.leb_le; lia).
    unfold JsArray.index.
    replace (historyIndex app <? 0)%Z with false
      by (symmetry; apply Z.ltb_ge; lia).
    destruct (nth_error (commandHistory app) (Z.to_nat (historyIndex app)))
      as [c|] eqn:E.
    2:{ apply nth_error_None in E. lia. }
    match goal with
    | |- exists a, undoTimes n ?x = _ /\ _ =>
        assert (Hx1 : historyIndex x = (Z.of_nat n - 1)%Z) by (simpl; lia);
        assert (Hx2 : (n <= List.length (commandHistory x))%nat)
          by (simpl; lia);
        destruct (IH x Hx1 Hx2) as (app' & H1 & H2 & H3)
    end.
    exists app'. split; [exact H1|]. split; [exact H2|exact H3].
Qed.

Lemma executeCommand_ok (app : App) (c : Command) :
  historyOk app -> historyOk (executeCommand app c).
Proof.
  intros (Hmax & Hlen & Hidx). unfold historyOk.
  assert (Hext : (1 <= List.length (extended app c))%nat).
  { unfold extended. rewrite length_app. simpl. lia. }
  pose proof (executeCommand_length app c Hmax (proj1 Hidx)) as Hl.
  rewrite executeCommand_index.
  change (maxHistorySize (executeCommand app c)) with (maxHistorySize app).
  lia.
Qed.

Lemma index_defined {A} (l : list A) (i : Z) :
  (0 <= i < Z.of_nat (List.length l))%Z ->
  exists x, JsArray.index l i = Some x.
Proof.
  intros Hi. unfold JsArray.index.
  replace (i <? 0)%Z with false by (symmetry; apply Z.ltb_ge; lia).
  destruct (nth_error l (Z.to_nat i)) as [x|] eqn:E; [exists x; reflexivity|].
  apply nth_error_None in E. lia.
Qed.

Lemma appUndo_ok (app : App) :
  historyOk app ->
  exists app',
    appUndo app = Normal app' /\ historyOk app' /\
    commandHistory app' = commandHistory app /\
    maxHistorySize app' = maxHistorySize app.
Proof.
  intros (Hmax & Hlen & Hidx). unfold appUndo.
  destruct (0 <=? historyIndex app)%Z eqn:E.
  - apply Z.leb_le in E.
    destruct (index_defined (commandHistory app) (historyIndex app)) as [c Hc];
      [lia|].
    rewrite Hc. eexists. split; [reflexivity|].
    unfold historyOk. simpl. repeat split; try assumption; lia.
  - eexists. split; [reflexivity|].
    unfold historyOk. simpl. repeat split; try assumption; lia.
Qed.

Lemma appRedo_ok (app : App) :
  historyOk app ->
  exists app',
    appRedo app = Normal app' /\ historyOk app' /\
    commandHistory app' = commandHistory app /\
    maxHistorySize app' = maxHistorySize app.
Proof.
  intros (Hmax & Hlen & Hidx). unfold appRedo.
  destruct (historyIndex app <? Z.of_nat (List.length (commandHistory app)) - 1)%Z
    eqn:E.
  - apply Z.ltb_lt in E.
    destruct (index_defined (commandHistory app) (historyIndex app + 1))
      as [c Hc]; [lia|].
    rewrite Hc. eexists. split; [reflexivity|].
    unfold historyOk. simpl. repeat split; try assumption; lia.
  - eexists. split; [reflexivity|].
    unfold historyOk. simpl. repeat split; try assumption; lia.
Qed.

(** No sequence of operations throws or breaks the invariant. *)
Lemma applyOps_ok (ops : list HistoryOp) (app : App) :
  historyOk app ->
  exists app',
    applyOps ops app = Normal app' /\ historyOk app' /\
    maxHistorySize app' = maxHistorySize app.
Proof.
  revert app. induction ops as [|op ops IH]; intros app Hok.
  - exists app. split; [reflexivity|]. split; [exact Hok|reflexivity].
  - assert (Hstep : exists app1,
               applyOp app op = Normal app1 /\ historyOk app1 /\
               maxHistorySize app1 = maxHistorySize app).
    { destruct op as [c| |]; simpl.
      - eexists. split; [reflexivity|].
        split; [apply executeCommand_ok; exact Hok|reflexivity].
      - destruct (appUndo_ok app Hok) as (a & H1 & H2 & _ & H3).
        exists a. auto.
      - destruct (appRedo_ok app Hok) as (a & H1 & H2 & _ & H3).
        exists a. auto. }
    destruct Hstep as (app1 & Hrun & Hok1 & Hcap1).
    destruct (IH app1 Hok1) as (app' & Hrest & Hok' & Hcap').
    exists app'. simpl. rewrite Hrun.
    split; [exact Hrest|]. split; [exact Hok'|]. congruence.
Qed.

(** With room for one more entry nothing is cut. *)
Lemma executeCommand_room (app : App) (c : Command) :
  (-1 <= historyIndex app)%Z ->
  (Z.of_nat (List.length (extended app c)) <= maxHistorySize app)%Z ->
  executeCommand app c
  = {| canvasEngine := execute c (canvasEngine app);
       commandHistory := extended app c;
       historyIndex := Z.of_nat (List.length (extended app c)) - 1;
       maxHistorySize := maxHistorySize app;
       toasts := toasts app |}.
Proof.
  intros Hidx Hroom. unfold executeCommand, extended in *.
  rewrite slice_prefix by lia.
  replace (maxHistorySize app <? _)%Z with false
    by (symmetry; apply Z.ltb_ge; exact Hroom).
  reflexivity.
Qed.

Local Arguments executeCommand : simpl never.

(** One [executeCommand] on a history with room, evaluated. *)
Ltac exec_room a c :=
  rewrite (executeCommand_room a c) by (simpl; lia);
  unfold extended; simpl.

(** C5.  History truncation: [executeCommand] keeps the commands at
    indices up to the current index, drops the ones after it and
    appends the new command (the list is then cut from the front if it
    is longer than [maxHistorySize]); the index moves to the last
    entry.  In particular, from an empty history with room for three
    commands, executing [c1], [c2], [c3], undoing twice and executing
    [c4] leaves the history [c1; c4] with the index on [c4], and there
    is nothing to redo. *)
Theorem executeCommand_truncates_redo_branch
    (app : App) (command : Command) (app0 : App) (c1 c2 c3 c4 : Command) :
  (-1 <= historyIndex app)%Z ->
  commandHistory app0 = [] ->
  historyIndex app0 = (-1)%Z ->
  (3 <= maxHistorySize app0)%Z ->
  (let app' := executeCommand app command in
   let kept :=
     firstn (Z.to_nat (historyIndex app + 1)) (commandHistory app) in
   (exists evicted,
       (kept ++ [command])%list = (evicted ++ commandHistory app')%list) /\
   ((Z.of_nat (List.length kept) + 1 <= maxHistorySize app)%Z ->
    commandHistory app' = (kept ++ [command])%list) /\
   historyIndex app'
   = (Z.of_nat (List.length (commandHistory app')) - 1)%Z /\
   canvasEngine app' = execute command (canvasEngine app)) /\
  (let a3 := executeCommand (executeCommand (executeCommand app0 c1) c2) c3 in
   exists a4 a5,
     appUndo a3 = Normal a4 /\
     appUndo a4 = Normal a5 /\
     let a6 := executeCommand a5 c4 in
     commandHistory a6 = [c1; c4] /\
     historyIndex a6 = 1%Z /\
     appRedo a6 = Normal (toasted a6 "Nothing to redo")).
Proof.
  intros Hidx Hempty Hstart Hroom. split.
  - cbv zeta.
    destruct (executeCommand_suffix app command Hidx) as (evicted & Hsplit & Hfit).
    fold (extended app command).
    split; [exists evicted; exact Hsplit|].
    split; [|split; reflexivity].
    intros Hlen. rewrite Hfit in Hsplit.
    + symmetry. exact Hsplit.
    + unfold extended. rewrite length_app. simpl. lia.
  - destruct app0 as [engine history index cap shown].
    simpl in Hempty, Hstart, Hroom. subst history index. cbv zeta.
    exec_room (mkApp engine [] (-1) cap shown) c1.
    match goal with |- context [executeCommand ?a c2] => exec_room a c2 end.
    match goal with |- context [executeCommand ?a c3] => exec_room a c3 end.
    do 2 eexists.
    split; [reflexivity|]. split; [reflexivity|].
    match goal with |- context [executeCommand ?a c4] => exec_room a c4 end.
    replace (cap <? 2)%Z with false by (symmetry; apply Z.ltb_ge; lia).
    split; [reflexivity|]. split; reflexivity.
Qed.

Lemma executeCommand_truncates_redo_branch_witness :
  let c := Sample.nop in
  let a3 :=
    executeCommand
      (executeCommand (executeCommand (newApp None) (c "C1")) (c "C2"))
      (c "C3") in
  exists a4 a5,
    appUndo a3 = Normal a4 /\
    appUndo a4 = Normal a5 /\
    let a6 := executeCommand a5 (c "C4") in
    commandHistory a6 = [c "C1"; c "C4"] /\
    historyIndex a6 = 1%Z /\
    appRedo a6 = Normal (toasted a6 "Nothing to redo").
Proof.
  apply (executeCommand_truncates_redo_branch
           (newApp None) (Sample.nop "C0") (newApp None)).
  - simpl. lia.
  - reflexivity.
  - reflexivity.
  - simpl. lia.
Defined.

Lemma firstn_succ {A} (l : list A) (n : nat) (x : A) :
  nth_error l n = Some x -> firstn (S n) l = (firstn n l ++ [x])%list.
Proof.
  revert n. induction l as [|y l IH]; intros [|n] H; simpl in *;
    try discriminate.
  - injection H as ->. reflexivity.
  - rewrite (IH n H). reflexivity.
Qed.

(** [n] calls of [undo()] on an index [n - 1] run the [undo] closures
    of the first [n] entries, latest entry first. *)
Lemma undoTimes_engine (n : nat) (app : App) :
  historyIndex app = (Z.of_nat n - 1)%Z ->
  (n <= List.length (commandHistory app))%nat ->
  exists app',
    undoTimes n app = Normal app' /\
    historyIndex app' = (-1)%Z /\
    commandHistory app' = commandHistory app /\
    maxHistorySize app' = maxHistorySize app /\
    canvasEngine app'
    = undoneEngine (rev (firstn n (commandHistory app))) (canvasEngine app) /\
    toasts app'
    = (map undoneToast (firstn n (commandHistory app)) ++ toasts app)%list.
Proof.
  revert app. induction n as [|n IH]; intros app Hidx Hlen.
  - exists app. repeat split; try reflexivity. exact Hidx.
  - simpl undoTimes. unfold appUndo.
    replace (0 <=? historyIndex app)%Z with true
      by (symmetry; apply Z.leb_le; lia).
    unfold JsArray.index.
    replace (historyIndex app <? 0)%Z with false
      by (symmetry; apply Z.ltb_ge; lia).
    replace (Z.to_nat (historyIndex app)) with n by lia.
    destruct (nth_error (commandHistory app) n) as [c|] eqn:E.
    2:{ apply nth_error_None in E. lia. }
    match goal with
    | |- exists a, undoTimes n ?x = _ /\ _ =>
        assert (Hx1 : historyIndex x = (Z.of_nat n - 1)%Z) by (simpl; lia);
        assert (Hx2 : (n <= List.length (commandHistory x))%nat)
          by (simpl; lia);
        destruct (IH x Hx1 Hx2) as (app' & H1 & H2 & H3 & H4 & H5 & H6)
    end.
    cbn [commandHistory canvasEngine toasts maxHistorySize] in H3, H4, H5, H6.
    exists app'. split; [exact H1|]. split; [exact H2|].
    split; [exact H3|]. split; [exact H4|].
    rewrite (firstn_succ _ _ _ E), rev_app_distr, map_app.
    split.
    + rewrite H5. reflexivity.
    + rewrite H6, <- app_assoc. reflexivity.
Qed.

(** C6.  Bounded history: when the capacity [maxHistorySize] is
    positive, the history fits in it and the index is [-1] or points at
    an entry, every sequence of [executeCommand], [undo()] and [redo()]
    runs without an error and leaves a history of at most
    [maxHistorySize] entries.  One [executeCommand] cuts the extended
    history from the front, down to [maxHistorySize] entries when it is
    longer, and puts the index on the last entry, so that every entry
    kept can be undone: as many calls of [undo()] as there are entries
    run the [undo] closure of each of them, the latest first, each
    followed by a render and its toast, and end on index [-1] with the
    history as it was.  With [maxHistorySize = 2], three commands
    executed on an empty history leave the last two; the first [undo()]
    runs the [undo] of the third command, the second one that of the
    second command, and a third one only shows the toast "Nothing to
    undo". *)
Theorem history_bounded
    (app : App) (ops : list HistoryOp) (command : Command)
    (app0 : App) (c1 c2 c3 : Command) :
  historyOk app ->
  commandHistory app0 = [] ->
  historyIndex app0 = (-1)%Z ->
  maxHistorySize app0 = 2%Z ->
  (exists app',
      applyOps ops app = Normal app' /\
      maxHistorySize app' = maxHistorySize app /\
      (Z.of_nat (List.length (commandHistory app')) <= maxHistorySize app)%Z) /\
  (let app' := executeCommand app command in
   exists evicted,
     extended app command = (evicted ++ commandHistory app')%list /\
     List.length (commandHistory app')
     = Nat.min (List.length (extended app command))
               (Z.to_nat (maxHistorySize app)) /\
     historyIndex app'
     = (Z.of_nat (List.length (commandHistory app')) - 1)%Z /\
     exists app'',
       undoTimes (List.length (commandHistory app')) app' = Normal app'' /\
       historyIndex app'' = (-1)%Z /\
       commandHistory app'' = commandHistory app' /\
       canvasEngine app''
       = undoneEngine (rev (commandHistory app')) (canvasEngine app') /\
       toasts app''
       = (map undoneToast (commandHistory app') ++ toasts app')%list) /\
  (let a3 := executeCommand (executeCommand (executeCommand app0 c1) c2) c3 in
   commandHistory a3 = [c2; c3] /\
   canvasEngine a3
   = execute c3 (execute c2 (execute c1 (canvasEngine app0))) /\
   exists a4 a5,
     appUndo a3 = Normal a4 /\
     canvasEngine a4 = option_map render (undo c3 (canvasEngine a3)) /\
     historyIndex a4 = 0%Z /\
     toasts a4 = undoneToast c3 :: toasts app0 /\
     appUndo a4 = Normal a5 /\
     canvasEngine a5 = option_map render (undo c2 (canvasEngine a4)) /\
     historyIndex a5 = (-1)%Z /\
     commandHistory a5 = [c2; c3] /\
     appUndo a5 = Normal (toasted a5 "Nothing to undo")).
Proof.
  intros Hok Hempty Hstart Hcap. split; [|split].
  - destruct (applyOps_ok ops app Hok) as (app' & Hrun & (_ & Hlen & _) & Hsame).
    exists app'. split; [exact Hrun|]. split; [exact Hsame|].
    rewrite <- Hsame. exact Hlen.
  - destruct Hok as (Hmax & Hlen & Hidx). cbv zeta.
    destruct (executeCommand_suffix app command (proj1 Hidx))
      as (evicted & Hsplit & _).
    exists evicted. split; [exact Hsplit|].
    split; [apply executeCommand_length; [exact Hmax|exact (proj1 Hidx)]|].
    split; [reflexivity|].
    destruct (undoTimes_engine
                (List.length (commandHistory (executeCommand app command)))
                (executeCommand app command))
      as (app'' & Hrun & Hend & Hhist & _ & Heng & Htoast).
    + reflexivity.
    + apply Nat.le_refl.
    + rewrite firstn_all in Heng, Htoast.
      exists app''. repeat split; assumption.
  - destruct app0 as [engine history index cap shown].
    simpl in Hempty, Hstart, Hcap. subst history index cap. cbv zeta.
    split; [reflexivity|]. split; [reflexivity|].
    do 2 eexists.
    split; [reflexivity|]. split; [reflexivity|]. split; [reflexivity|].
    split; [reflexivity|]. split; [reflexivity|]. split; [reflexivity|].
    split; [reflexivity|]. split; reflexivity.
Qed.

Lemma history_bounded_witness :
  let c := fun id =>
    createAddNodeCommand
      {| nd_id := Some id; nd_x := Some 0; nd_y := Some 0;
         nd_label := Some id; nd_layer := None; nd_type := None |} in
  let app0 :=
    {| canvasEngine := Some (newEngine Sample.random); commandHistory := [];
       historyIndex := -1; maxHistorySize := 2; toasts := [] |} in
  let a3 :=
    executeCommand (executeCommand (executeCommand app0 (c "n1")) (c "n2"))
      (c "n3") in
  commandHistory a3 = [c "n2"; c "n3"] /\
  option_map (fun e => JsMap.keys (nodes e)) (canvasEngine a3)
  = Some ["n1"; "n2"; "n3"] /\
  exists a4 a5,
    appUndo a3 = Normal a4 /\
    option_map (fun e => JsMap.keys (nodes e)) (canvasEngine a4)
    = Some ["n1"; "n2"] /\
    appUndo a4 = Normal a5 /\
    option_map (fun e => JsMap.keys (nodes e)) (canvasEngine a5)
    = Some ["n1"] /\
    appUndo a5 = Normal (toasted a5 "Nothing to undo").
Proof.
  cbv zeta.
  destruct (history_bounded (newApp None) [OpUndo; OpRedo] (Sample.nop "C0")
              {| canvasEngine := Some (newEngine Sample.random);
                 commandHistory := []; historyIndex := -1;
                 maxHistorySize := 2; toasts := [] |}
              (createAddNodeCommand
                 {| nd_id := Some "n1"; nd_x := Some 0; nd_y := Some 0;
                    nd_label := Some "n1"; nd_layer := None;
                    nd_type := None |})
              (createAddNodeCommand
                 {| nd_id := Some "n2"; nd_x := Some 0; nd_y := Some 0;
                    nd_label := Some "n2"; nd_layer := None;
                    nd_type := None |})
              (createAddNodeCommand
                 {| nd_id := Some "n3"; nd_x := Some 0; nd_y := Some 0;
                    nd_label := Some "n3"; nd_layer := None;
                    nd_type := None |}))
    as (_ & _ & Hhist & Heng & a4 & a5 & U1 & E1 & _ & _ & U2 & E2 & _ & _ & U3).
  - unfold historyOk. simpl. lia.
  - reflexivity.
  - reflexivity.
  - reflexivity.
  - split; [exact Hhist|]. split; [rewrite Heng; reflexivity|].
    exists a4, a5. split; [exact U1|].
    split; [rewrite E1, Heng; reflexivity|].
    split; [exact U2|].
    split; [rewrite E2, E1, Heng; reflexivity|].
    exact U3.
Defined.

(* ================================================================== *)
(** * Further properties of the engine *)

(** ** Viewport and node hit test *)

Lemma screenToWorld_worldToScreen (v : Viewport) (w : Point) :
  ~ zoom v == 0 ->
  exists w', screenToWorld v (worldToScreen v w) = Some w' /\ Peq w' w.
Proof.
  intros Hz. eexists. split; [apply screenToWorld_defined; assumption|].
  split; simpl; field; assumption.
Qed.

(** The inverse transform in the other direction: a world point taken
    to the screen and back is the same point, for a zoom that is not
    zero. *)
Theorem world_screen_roundtrip (v : Viewport) (w : Point) :
  ~ zoom v == 0 ->
  exists w', screenToWorld v (worldToScreen v w) = Some w' /\ Peq w' w.
Proof. apply screenToWorld_worldToScreen. Qed.

Lemma world_screen_roundtrip_witness :
  exists w',
    screenToWorld (viewport (newEngine Sample.random))
      (worldToScreen (viewport (newEngine Sample.random))
         {| px := 5 # 3; py := -8 |}) = Some w' /\
    Peq w' {| px := 5 # 3; py := -8 |}.
Proof.
  apply (world_screen_roundtrip (viewport (newEngine Sample.random))
           {| px := 5 # 3; py := -8 |}).
  simpl. intros H. discriminate H.
Defined.

Lemma scanNodes_None (e : Engine) (w : Point) (ns : list Node) :
  scanNodes e w ns = None <-> forall n, In n ns -> nodeHit e w n = false.
Proof.
  induction ns as [|m ns IH]; simpl.
  - split; [intros _ n []|reflexivity].
  - unfold nodeHit in *.
    destruct (isLayerVisible e (node_layer m)) eqn:Hv; simpl.
    + destruct (Utils.pointInRect w (nodeRect e m)) eqn:Hin.
      * split; [discriminate|].
        intros H. specialize (H m (or_introl eq_refl)).
        rewrite Hv, Hin in H. discriminate H.
      * rewrite IH. split.
        -- intros H n [<-|Hn]; [rewrite Hv, Hin; reflexivity|apply H; exact Hn].
        -- intros H n Hn. apply H. right. exact Hn.
    + rewrite IH. split.
      * intros H n [<-|Hn]; [rewrite Hv; reflexivity|apply H; exact Hn].
      * intros H n Hn. apply H. right. exact Hn.
Qed.

Lemma scanNodes_Some (e : Engine) (w : Point) (ns : list Node) (n : Node) :
  scanNodes e w ns = Some n -> In n ns /\ nodeHit e w n = true.
Proof.
  induction ns as [|m ns IH]; simpl; [discriminate|].
  unfold nodeHit in *.
  destruct (isLayerVisible e (node_layer m)) eqn:Hv; simpl.
  - destruct (Utils.pointInRect w (nodeRect e m)) eqn:Hin.
    + intros H. injection H as <-. rewrite Hv, Hin. auto.
    + intros H. destruct (IH H) as [H1 H2]. auto.
  - intros H. destruct (IH H) as [H1 H2]. auto.
Qed.

(** The node hit test never returns a node of a hidden layer or a node
    whose rectangle does not contain the point, and it returns null
    exactly when no visible node of the scene contains the point. *)
Theorem getNodeAtPosition_sound_complete
    (e : Engine) (screenPos w : Point) :
  screenToWorld (viewport e) screenPos = Some w ->
  (forall n, getNodeAtPosition e screenPos = Some (Some n) ->
             shown e n /\ Utils.pointInRect w (nodeRect e n) = true) /\
  (getNodeAtPosition e screenPos = Some None <->
   forall n, shown e n -> Utils.pointInRect w (nodeRect e n) = false).
Proof.
  intros Hw. unfold getNodeAtPosition. rewrite Hw. simpl. split.
  - intros n H. injection H as H.
    destruct (scanNodes_Some _ _ _ _ H) as [Hin Hhit].
    unfold nodeHit in Hhit. apply andb_true_iff in Hhit.
    destruct Hhit as [Hv Hr]. unfold shown. auto.
  - split.
    + intros H. injection H as H.
      intros n [Hin Hv]. pose proof (proj1 (scanNodes_None _ _ _) H n Hin) as Hm.
      unfold nodeHit in Hm. rewrite Hv in Hm. exact Hm.
    + intros H.
      assert (Hs : scanNodes e w (JsMap.values (nodes e)) = None).
      { apply (proj2 (scanNodes_None e w _)). intros n Hin.
        unfold nodeHit.
        destruct (isLayerVisible e (node_layer n)) eqn:Hv; [|reflexivity].
        simpl. apply H. split; assumption. }
      rewrite Hs. reflexivity.
Qed.

Lemma getNodeAtPosition_sound_complete_witness :
  getNodeAtPosition Sample.linked {| px := 100; py := 0 |} = Some None <->
  forall n, shown Sample.linked n ->
            Utils.pointInRect {| px := 100; py := 0 |}
              (nodeRect Sample.linked n) = false.
Proof.
  apply (getNodeAtPosition_sound_complete Sample.linked
           {| px := 100; py := 0 |} {| px := 100; py := 0 |}).
  reflexivity.
Defined.

Lemma Qle_bool_compat (a a' b b' : Q) :
  a == a' -> b == b' -> Qle_bool a b = Qle_bool a' b'.
Proof.
  intros Ha Hb.
  destruct (Qle_bool a b) eqn:E1; destruct (Qle_bool a' b') eqn:E2;
    try reflexivity.
  - apply Qle_bool_iff in E1. rewrite Ha, Hb in E1.
    apply Qle_bool_iff in E1. congruence.
  - apply Qle_bool_iff in E2. rewrite <- Ha, <- Hb in E2.
    apply Qle_bool_iff in E2. congruence.
Qed.

Lemma pointInRect_center (e : Engine) (n : Node) (w : Point) :
  0 <= width (nodeSize e) -> 0 <= height (nodeSize e) ->
  Peq w (center n) ->
  Utils.pointInRect w (nodeRect e n) = true.
Proof.
  intros Hw Hh [Hx Hy]. simpl in Hx, Hy.
  unfold Utils.pointInRect, nodeRect. simpl.
  rewrite !andb_true_iff, !Qle_bool_iff.
  assert (Hhalf : 0 <= width (nodeSize e) / 2).
  { apply Qle_shift_div_l; lra. }
  assert (Hhalf' : 0 <= height (nodeSize e) / 2).
  { apply Qle_shift_div_l; lra. }
  assert (Ew : width (nodeSize e) == 2 * (width (nodeSize e) / 2)) by field.
  assert (Eh : height (nodeSize e) == 2 * (height (nodeSize e) / 2)) by field.
  repeat split; lra.
Qed.

(** In exact arithmetic, a click on the centre of a visible node always
    hits a node: with numbers read as rationals, the hit test at the
    screen position of the centre is never null, and what it returns is
    a visible node containing that point.  (In binary64 the centre need
    not come back from the two transforms: [binary64_center_not_restored].) *)
Theorem click_on_center_hits (e : Engine) (n : Node) :
  ~ zoom (viewport e) == 0 ->
  0 <= width (nodeSize e) -> 0 <= height (nodeSize e) ->
  shown e n ->
  exists m w,
    getNodeAtPosition e (worldToScreen (viewport e) (center n))
      = Some (Some m) /\
    screenToWorld (viewport e) (worldToScreen (viewport e) (center n))
      = Some w /\
    Peq w (center n) /\ shown e m /\
    Utils.pointInRect w (nodeRect e m) = true.
Proof.
  intros Hz Hw Hh [Hin Hv].
  destruct (screenToWorld_worldToScreen (viewport e) (center n) Hz)
    as (w & Hsw & Hpeq).
  unfold getNodeAtPosition. rewrite Hsw. simpl.
  destruct (scanNodes e w (JsMap.values (nodes e))) as [m|] eqn:E.
  - destruct (scanNodes_Some _ _ _ _ E) as [Hm Hhit].
    unfold nodeHit in Hhit. apply andb_true_iff in Hhit.
    destruct Hhit as [Hvm Hr].
    exists m, w. split; [reflexivity|]. split; [reflexivity|].
    split; [exact Hpeq|]. split; [split; assumption|exact Hr].
  - exfalso.
    pose proof (proj1 (scanNodes_None _ _ _) E n Hin) as Hmiss.
    unfold nodeHit in Hmiss.
    rewrite Hv, (pointInRect_center e n w Hw Hh Hpeq) in Hmiss.
    discriminate.
Qed.

Lemma click_on_center_hits_witness :
  exists m w,
    getNodeAtPosition Sample.stacked
      (worldToScreen (viewport Sample.stacked) (center Sample.nodeB))
      = Some (Some m) /\
    screenToWorld (viewport Sample.stacked)
      (worldToScreen (viewport Sample.stacked) (center Sample.nodeB))
      = Some w /\
    Peq w (center Sample.nodeB) /\ shown Sample.stacked m /\
    Utils.pointInRect w (nodeRect Sample.stacked m) = true.
Proof.
  apply (click_on_center_hits Sample.stacked Sample.nodeB).
  - simpl. intros H. discriminate H.
  - simpl. lra.
  - simpl. lra.
  - split; [right; left; reflexivity|reflexivity].
Defined.

(** ** Zoom controls *)

(** In exact arithmetic, [setZoom] with bounds [0 < minZoom <= maxZoom]
    and a current zoom that is not zero: the call returns; the new zoom
    is the argument clamped into the bounds ([minZoom] for an argument
    below it, [maxZoom] for one above it, the argument itself
    otherwise); with numbers read as rationals the world point at the
    centre of the canvas stays where it is; one render and one zoom
    callback happen, and the scene is not touched.  (In binary64 the
    centre can move by a rounding error: [binary64_setZoom_center_moves].) *)
Theorem setZoom_keeps_center (e : Engine) (canvas : Canvas) (z : Q) :
  ~ zoom (viewport e) == 0 ->
  0 < minZoom (viewport e) ->
  minZoom (viewport e) <= maxZoom (viewport e) ->
  exists e',
    setZoom e canvas z = Some e' /\
    let v := viewport e in
    let v' := viewport e' in
    minZoom v <= zoom v' <= maxZoom v /\
    (minZoom v <= z <= maxZoom v -> zoom v' == z) /\
    (z < minZoom v -> zoom v' == minZoom v) /\
    (maxZoom v < z -> zoom v' == maxZoom v) /\
    minZoom v' = minZoom v /\ maxZoom v' = maxZoom v /\
    (exists w w',
        screenToWorld v (canvasCenter canvas) = Some w /\
        screenToWorld v' (canvasCenter canvas) = Some w' /\
        Peq w' w) /\
    nodes e' = nodes e /\ connections e' = connections e /\
    layers e' = layers e /\
    renders e' = S (renders e) /\
    events e' = ZoomChange (zoom v') :: events e.
Proof.
  intros Hz Hmin Hlh. unfold setZoom.
  rewrite jsdiv_defined by assumption. simpl.
  eexists. split; [reflexivity|]. cbv zeta. simpl.
  pose proof (clamp_cases z _ _ Hlh) as Hc.
  set (nz := Utils.clamp z (minZoom (viewport e)) (maxZoom (viewport e))) in *.
  assert (Hrange : minZoom (viewport e) <= nz <= maxZoom (viewport e)).
  { destruct Hc as [[H E]|[[H E]|[H E]]]; rewrite E; lra. }
  split; [exact Hrange|].
  split; [intros Hin; destruct Hc as [[H E]|[[H E]|[H E]]]; lra|].
  split; [intros Hin; destruct Hc as [[H E]|[[H E]|[H E]]]; lra|].
  split; [intros Hin; destruct Hc as [[H E]|[[H E]|[H E]]]; lra|].
  split; [reflexivity|]. split; [reflexivity|].
  split.
  { assert (Hnz : ~ nz == 0) by lra.
    do 2 eexists. rewrite !screenToWorld_defined by assumption.
    split; [reflexivity|]. split; [reflexivity|].
    split; simpl; field; split; assumption. }
  repeat split; reflexivity.
Qed.

Lemma setZoom_keeps_center_witness :
  exists e',
    setZoom (newEngine Sample.random)
      {| clientWidth := 800; clientHeight := 600; padding := 20 |} 5
    = Some e' /\
    zoom (viewport e') == 3.
Proof.
  destruct (setZoom_keeps_center (newEngine Sample.random)
              {| clientWidth := 800; clientHeight := 600; padding := 20 |} 5)
    as (e' & He & _ & _ & _ & Hup & _).
  - simpl. intros H. discriminate H.
  - simpl. lra.
  - simpl. apply Qle_bool_iff. reflexivity.
  - exists e'. split; [exact He|]. apply Hup. simpl. lra.
Defined.



Section FitBounds.

Variable e : Engine.

Let visible (n : Node) : bool := isLayerVisible e (node_layer n).

Lemma growBounds_hidden (acc : option Bounds) (n : Node) :
  visible n = false -> growBounds e acc n = acc.
Proof. unfold visible, growBounds. intros ->. reflexivity. Qed.

Lemma growBounds_visible (acc : option Bounds) (n : Node) :
  visible n = true ->
  exists b',
    growBounds e acc n = Some b' /\ covers e b' n /\
    forall b m, acc = Some b -> covers e b m -> covers e b' m.
Proof.
  unfold visible, growBounds. intros ->. simpl.
  destruct acc as [b|].
  - eexists. split; [reflexivity|]. unfold covers. simpl.
    pose proof (Q.le_min_l (minX b) (node_x n - width (nodeSize e) / 2)).
    pose proof (Q.le_min_r (minX b) (node_x n - width (nodeSize e) / 2)).
    pose proof (Q.le_min_l (minY b) (node_y n - height (nodeSize e) / 2)).
    pose proof (Q.le_min_r (minY b) (node_y n - height (nodeSize e) / 2)).
    pose proof (Q.le_max_l (maxX b) (node_x n + width (nodeSize e) / 2)).
    pose proof (Q.le_max_r (maxX b) (node_x n + width (nodeSize e) / 2)).
    pose proof (Q.le_max_l (maxY b) (node_y n + height (nodeSize e) / 2)).
    pose proof (Q.le_max_r (maxY b) (node_y n + height (nodeSize e) / 2)).
    split; [repeat split; assumption|].
    intros b0 m Hb (C1 & C2 & C3 & C4). injection Hb as <-.
    repeat split; lra.
  - eexists. split; [reflexivity|]. unfold covers. simpl.
    split; [repeat split; lra|]. intros b m Hb. discriminate Hb.
Qed.

Lemma fold_growBounds (ns : list Node) (acc : option Bounds) :
  match fold_left (growBounds e) ns acc with
  | None => acc = None /\ forall n, In n ns -> visible n = false
  | Some b' =>
      (forall n, In n ns -> visible n = true -> covers e b' n) /\
      (forall b m, acc = Some b -> covers e b m -> covers e b' m) /\
      (acc = None -> exists n, In n ns /\ visible n = true)
  end.
Proof.
  revert acc. induction ns as [|n ns IH]; intros acc; simpl.
  - destruct acc as [b|].
    + split; [intros n []|]. split.
      * intros b0 m Hb Hc. injection Hb as <-. exact Hc.
      * discriminate.
    + split; [reflexivity|intros n []].
  - destruct (visible n) eqn:Hv.
    + destruct (growBounds_visible acc n Hv) as (b1 & Hg & Hcov & Hmono).
      rewrite Hg. specialize (IH (Some b1)).
      destruct (fold_left (growBounds e) ns (Some b1)) as [b'|].
      * destruct IH as (Hall & Hkeep & _). split; [|split].
        -- intros m [<-|Hm] Hvm; [apply (Hkeep b1); auto|apply Hall; auto].
        -- intros b m Hb Hc. apply (Hkeep b1); [reflexivity|].
           apply (Hmono b); assumption.
        -- intros _. exists n. auto.
      * destruct IH as [Habs _]. discriminate Habs.
    + rewrite (growBounds_hidden acc n Hv). specialize (IH acc).
      destruct (fold_left (growBounds e) ns acc) as [b'|].
      * destruct IH as (Hall & Hkeep & Hsome). split; [|split].
        -- intros m [<-|Hm] Hvm; [congruence|apply Hall; auto].
        -- exact Hkeep.
        -- intros Hn. destruct (Hsome Hn) as (m & Hm & Hvm).
           exists m. auto.
      * destruct IH as [Hn Hall]. split; [exact Hn|].
        intros m [<-|Hm]; [exact Hv|apply Hall; exact Hm].
Qed.

End FitBounds.

(** [zoomToFit] with nothing to show (an empty scene, or every node on
    a hidden layer) returns without touching the engine: no render, no
    zoom callback, the viewport as it was. *)
Theorem zoomToFit_nothing_shown (e : Engine) (canvas : Canvas) :
  (forall n, ~ shown e n) -> zoomToFit e canvas = Some e.
Proof.
  intros Hnone. unfold zoomToFit.
  destruct (Nat.eqb (JsMap.size (nodes e)) 0); [reflexivity|].
  pose proof (fold_growBounds e (JsMap.values (nodes e)) None) as Hf.
  destruct (fold_left (growBounds e) (JsMap.values (nodes e)) None) as [b|];
    [|reflexivity].
  destruct Hf as (_ & _ & Hsome).
  destruct (Hsome eq_refl) as (n & Hin & Hv).
  exfalso. apply (Hnone n). split; assumption.
Qed.

Lemma zoomToFit_nothing_shown_witness :
  zoomToFit Sample.dangling
    {| clientWidth := 800; clientHeight := 600; padding := 20 |}
  = Some Sample.dangling.
Proof.
  apply (zoomToFit_nothing_shown Sample.dangling).
  intros n [Hin _]. exact Hin.
Defined.





Example zoomToFit_sample :
  option_map (fun e' =>
      (Qeq_bool (zoom (viewport e')) (37 # 21),
       Qeq_bool (vx (viewport e')) (950 # 7),
       Qeq_bool (vy (viewport e')) 300))
    (zoomToFit Sample.linked
       {| clientWidth := 800; clientHeight := 600; padding := 30 |})
  = Some (true, true, true).
Proof. reflexivity. Qed.

(** ** Layers *)

Section JsMapLookup.

Context {V : Type}.
Implicit Types (m : JsMap.t V) (k : string) (v : V).

Lemma get_set_same m k v : JsMap.get (JsMap.set m k v) k = Some v.
Proof.
  induction m as [|[k' v'] m IH]; simpl.
  - rewrite String.eqb_refl. reflexivity.
  - destruct (String.eqb k' k) eqn:E; simpl; rewrite E; [reflexivity|exact IH].
Qed.

Lemma get_set_other m k k' v :
  k' <> k -> JsMap.get (JsMap.set m k v) k' = JsMap.get m k'.
Proof.
  intros Hne. induction m as [|[k0 v0] m IH]; simpl.
  - destruct (String.eqb_spec k k'); [congruence|reflexivity].
  - destruct (String.eqb_spec k0 k) as [->|Hk]; simpl.
    + destruct (String.eqb_spec k k'); [congruence|reflexivity].
    + destruct (String.eqb k0 k'); [reflexivity|exact IH].
Qed.

Lemma size_set_new m k v :
  JsMap.get m k = None -> JsMap.size (JsMap.set m k v) = S (JsMap.size m).
Proof.
  intros H. rewrite set_new_goes_last by exact H.
  unfold JsMap.size. rewrite length_app. simpl. lia.
Qed.

Lemma size_set_old m k v v0 :
  JsMap.get m k = Some v0 -> JsMap.size (JsMap.set m k v) = JsMap.size m.
Proof.
  unfold JsMap.size. induction m as [|[k' v'] m IH]; simpl; [discriminate|].
  destruct (String.eqb k' k); simpl; [reflexivity|].
  intros H. rewrite IH by exact H. reflexivity.
Qed.

Lemma get_delete_other m k k' :
  k' <> k -> JsMap.get (JsMap.delete m k) k' = JsMap.get m k'.
Proof.
  intros Hne. induction m as [|[k0 v0] m IH]; simpl; [reflexivity|].
  destruct (String.eqb_spec k0 k) as [->|Hk]; simpl.
  - destruct (String.eqb_spec k k'); [congruence|reflexivity].
  - destruct (String.eqb k0 k'); [reflexivity|exact IH].
Qed.

End JsMapLookup.

(** A layer registered by [addLayer] is visible unless its info says
    otherwise, also when the id was registered (and hidden) before; the
    visibility of every other layer id is unchanged. *)
Theorem addLayer_lookup (e : Engine) (layerId : string) (info : LayerInfo) :
  isLayerVisible (addLayer e layerId info) layerId
  = withDefault (li_visible info) true /\
  (forall other, other <> layerId ->
     isLayerVisible (addLayer e layerId info) other = isLayerVisible e other) /\
  nodes (addLayer e layerId info) = nodes e /\
  connections (addLayer e layerId info) = connections e.
Proof.
  unfold isLayerVisible, addLayer. simpl. split.
  - rewrite get_set_same. reflexivity.
  - split; [|split; reflexivity].
    intros other Hne. rewrite get_set_other by exact Hne.
    destruct (JsMap.get (layers e) other); [reflexivity|].
    destruct (Nat.eqb (JsMap.size (JsMap.set (layers e) layerId _)) 0);
    destruct (Nat.eqb (JsMap.size (layers e)) 0); reflexivity.
Qed.

Lemma setLayerVisibility_sets (e : Engine) (layerId : string)
    (visible : bool) (layer : Layer) :
  JsMap.get (layers e) layerId = Some layer ->
  isLayerVisible (snd (setLayerVisibility e layerId visible)) layerId
  = visible /\
  nodes (snd (setLayerVisibility e layerId visible)) = nodes e.
Proof.
  intros Hget. unfold setLayerVisibility. rewrite Hget. simpl.
  unfold isLayerVisible. simpl. rewrite get_set_same. split; reflexivity.
Qed.

(** [setLayerVisibility] on a registered layer returns true, makes
    [isLayerVisible] of that id the given flag, keeps its colour and
    name and every other layer, and renders once; on an id that is not
    registered it returns false and changes nothing, and that id stays
    visible. *)
Theorem setLayerVisibility_lookup
    (e : Engine) (layerId : string) (visible : bool) :
  let found := fst (setLayerVisibility e layerId visible) in
  let e' := snd (setLayerVisibility e layerId visible) in
  (forall layer, JsMap.get (layers e) layerId = Some layer ->
     found = true /\
     isLayerVisible e' layerId = visible /\
     JsMap.get (layers e') layerId
     = Some {| layer_visible := visible;
               layer_color := layer_color layer;
               layer_name := layer_name layer |} /\
     JsMap.size (layers e') = JsMap.size (layers e) /\
     renders e' = S (renders e)) /\
  (JsMap.get (layers e) layerId = None ->
     found = false /\ e' = e /\ isLayerVisible e layerId = true) /\
  (forall other, other <> layerId ->
     JsMap.get (layers e') other = JsMap.get (layers e) other /\
     isLayerVisible e' other = isLayerVisible e other) /\
  nodes e' = nodes e /\ connections e' = connections e /\
  viewport e' = viewport e.
Proof.
  cbv zeta. unfold setLayerVisibility.
  destruct (JsMap.get (layers e) layerId) as [layer|] eqn:Hget; simpl.
  - split.
    { intros l Hl. injection Hl as <-.
      split; [reflexivity|].
      unfold isLayerVisible. simpl. rewrite get_set_same.
      split; [reflexivity|]. split; [reflexivity|].
      split; [apply (size_set_old _ _ _ layer); exact Hget|reflexivity]. }
    split; [discriminate|].
    split; [|repeat split; reflexivity].
    intros other Hne. unfold isLayerVisible. simpl.
    rewrite get_set_other by exact Hne. split; [reflexivity|].
    destruct (JsMap.get (layers e) other); [reflexivity|].
    destruct (Nat.eqb _ 0); destruct (Nat.eqb _ 0); reflexivity.
  - split; [discriminate|].
    split.
    { intros _. split; [reflexivity|]. split; [reflexivity|].
      unfold isLayerVisible. rewrite Hget.
      destruct (Nat.eqb _ 0); reflexivity. }
    split; [|repeat split; reflexivity].
    intros other _. split; reflexivity.
Qed.

Lemma scanConnections_Some (e : Engine) (w : Point) (cs : list Connection)
    (c : Connection) :
  scanConnections e w cs = Some (Some c) -> In c cs /\ hittable e w c.
Proof.
  intros H.
  destruct (scanConnections_first e w cs)
    as [[Hn _]|(pre & c0 & post & Hcs & Hr & Hh & _)].
  - congruence.
  - rewrite Hr in H. injection H as <-. split; [|exact Hh].
    rewrite Hcs. apply in_or_app. right. left. reflexivity.
Qed.

(** Hiding a layer takes its nodes out of both hit tests: after
    [setLayerVisibility(layerId, false)] on a registered layer no click
    returns a node of that layer, and no click returns a connection
    that has an end node on it. *)
Theorem hidden_layer_is_not_clickable
    (e : Engine) (layerId : string) (layer : Layer) (screenPos : Point) :
  JsMap.get (layers e) layerId = Some layer ->
  let e' := snd (setLayerVisibility e layerId false) in
  (forall n, getNodeAtPosition e' screenPos = Some (Some n) ->
             node_layer n <> layerId) /\
  (forall c, getConnectionAtPosition e' screenPos = Some (Some c) ->
     exists fromNode toNode,
       JsMap.get (nodes e) (conn_from c) = Some fromNode /\
       JsMap.get (nodes e) (conn_to c) = Some toNode /\
       node_layer fromNode <> layerId /\ node_layer toNode <> layerId).
Proof.
  intros Hget e'.
  destruct (setLayerVisibility_sets e layerId false layer Hget)
    as [Hvis Hnodes].
  fold e' in Hvis, Hnodes. split.
  - intros n Hhit Hlayer.
    unfold getNodeAtPosition in Hhit.
    destruct (screenToWorld (viewport e') screenPos) as [w|] eqn:Hw;
      [|discriminate].
    simpl in Hhit. injection Hhit as Hhit.
    destruct (scanNodes_Some _ _ _ _ Hhit) as [_ Hn].
    unfold nodeHit in Hn. rewrite Hlayer, Hvis in Hn. discriminate.
  - intros c Hhit.
    unfold getConnectionAtPosition in Hhit.
    destruct (screenToWorld (viewport e') screenPos) as [w|] eqn:Hw;
      [|discriminate].
    simpl in Hhit.
    destruct (scanConnections_Some _ _ _ _ Hhit)
      as [_ (f & t & Hf & Ht & Hvf & Hvt & _)].
    rewrite Hnodes in Hf, Ht.
    exists f, t. split; [exact Hf|]. split; [exact Ht|].
    split; intros Heq; rewrite Heq, Hvis in *; discriminate.
Qed.

Lemma hidden_layer_is_not_clickable_witness :
  JsMap.get
    (layers
       (addLayer Sample.linked "default"
          {| li_visible := None; li_color := None; li_name := None |}))
    "default"
  = Some {| layer_visible := true; layer_color := "#3b82f6";
            layer_name := "default" |} /\
  (forall n,
     getNodeAtPosition
       (snd (setLayerVisibility
               (addLayer Sample.linked "default"
                  {| li_visible := None; li_color := None; li_name := None |})
               "default" false))
       Sample.origin = Some (Some n) ->
     node_layer n <> "default").
Proof.
  split; [reflexivity|].
  apply (hidden_layer_is_not_clickable
           (addLayer Sample.linked "default"
              {| li_visible := None; li_color := None; li_name := None |})
           "default"
           {| layer_visible := true; layer_color := "#3b82f6";
              layer_name := "default" |} Sample.origin).
  reflexivity.
Defined.

(** ** Scene store *)

(** [getStats] never reports more visible nodes than nodes, and it
    reports all of them as visible exactly when no node of the scene is
    on a hidden layer. *)
Theorem getStats_visible_bound (e : Engine) :
  (visibleNodes (getStats e) <= totalNodes (getStats e))%nat /\
  (visibleNodes (getStats e) = totalNodes (getStats e) <->
   forall n, In n (JsMap.values (nodes e)) ->
             isLayerVisible e (node_layer n) = true) /\
  connectionCount (getStats e) = List.length (connections e) /\
  layerCount (getStats e) = JsMap.size (layers e).
Proof.
  unfold getStats, JsMap.size, JsMap.values. simpl.
  set (vis := fun node : Node => isLayerVisible e (node_layer node)).
  assert (Hlen : List.length (nodes e) = List.length (map snd (nodes e)))
    by (symmetry; apply length_map).
  rewrite Hlen.
  generalize (map snd (nodes e)). intros ns.
  split; [apply filter_length_le|]. split; [|split; reflexivity].
  split.
  - intros Heq n Hin.
    destruct (vis n) eqn:Hv; [exact Hv|]. exfalso.
    assert (Hlt : (List.length (filter vis ns) < List.length ns)%nat).
    { apply filter_length_lt. exists n. auto. }
    lia.
  - intros Hall. rewrite filter_all_kept; [reflexivity|exact Hall].
Qed.

Lemma joinsEitherWay_true (fromId toId : string) (c : Connection) :
  joinsEitherWay fromId toId c = true <->
  joins fromId toId c \/ joins toId fromId c.
Proof.
  unfold joinsEitherWay, joins.
  rewrite orb_true_iff, !andb_true_iff, !String.eqb_eq. reflexivity.
Qed.

Lemma joinsEitherWay_kept (fromId toId : string) (c : Connection) :
  joinsEitherWay fromId toId c = negb (keptByRemove fromId toId c).
Proof.
  unfold joinsEitherWay, keptByRemove.
  destruct (String.eqb (conn_from c) fromId && String.eqb (conn_to c) toId);
  destruct (String.eqb (conn_from c) toId && String.eqb (conn_to c) fromId);
    reflexivity.
Qed.

Lemma joinsEitherWay_sym (fromId toId : string) (c : Connection) :
  joinsEitherWay fromId toId c = joinsEitherWay toId fromId c.
Proof. unfold joinsEitherWay. apply orb_comm. Qed.

Lemma find_none_iff {A} (f : A -> bool) (l : list A) :
  find f l = None <-> forall x, In x l -> f x = false.
Proof.
  split.
  - intros H x Hin. apply (find_none f l H x Hin).
  - induction l as [|x l IH]; intros H; [reflexivity|].
    simpl. rewrite (H x (or_introl eq_refl)).
    apply IH. intros y Hy. apply H. right. exact Hy.
Qed.

(** [findConnection] does not depend on the order of its two ids; what
    it returns is a connection of the list joining the two nodes in one
    of the two directions; it is null exactly when [removeConnection]
    for the pair would return false; and after [removeConnection] for
    the pair it is null. *)
Theorem findConnection_removeConnection (e : Engine) (fromId toId : string) :
  findConnection e fromId toId = findConnection e toId fromId /\
  (forall c, findConnection e fromId toId = Some c ->
     In c (connections e) /\ (joins fromId toId c \/ joins toId fromId c)) /\
  (findConnection e fromId toId = None <->
   fst (removeConnection e fromId toId) = false) /\
  findConnection (snd (removeConnection e fromId toId)) fromId toId = None /\
  findConnection (snd (removeConnection e fromId toId)) toId fromId = None.
Proof.
  unfold findConnection. split.
  { generalize (connections e). intros cs.
    induction cs as [|c cs IH]; [reflexivity|].
    simpl. rewrite (joinsEitherWay_sym fromId toId c), IH. reflexivity. }
  split.
  { intros c H. apply find_some in H. destruct H as [Hin Hj].
    split; [exact Hin|]. apply joinsEitherWay_true. exact Hj. }
  split.
  { rewrite find_none_iff. unfold removeConnection. simpl.
    rewrite Nat.ltb_ge. split.
    - intros H. rewrite filter_all_kept; [apply Nat.le_refl|].
      intros c Hin. specialize (H c Hin).
      rewrite joinsEitherWay_kept in H. apply negb_false_iff. exact H.
    - intros Hlen c Hin.
      destruct (joinsEitherWay fromId toId c) eqn:E; [|reflexivity].
      exfalso.
      assert (Hlt : (List.length (filter (keptByRemove fromId toId)
                                    (connections e))
                     < List.length (connections e))%nat).
      { apply filter_length_lt. exists c. split; [exact Hin|].
        rewrite joinsEitherWay_kept in E. apply negb_true_iff. exact E. }
      lia. }
  assert (Hgone : forall c,
             In c (connections (snd (removeConnection e fromId toId))) ->
             joinsEitherWay fromId toId c = false).
  { intros c Hin. unfold removeConnection in Hin. simpl in Hin.
    apply filter_In in Hin. destruct Hin as [_ Hk].
    rewrite joinsEitherWay_kept, Hk. reflexivity. }
  split; apply find_none_iff; intros c Hin.
  - apply Hgone. exact Hin.
  - rewrite joinsEitherWay_sym. apply Hgone. exact Hin.
Qed.

(** [addConnection] only ever appends: the list afterwards is the list
    before followed by the returned connection, if any.  A connection
    is returned exactly for an object with a non-empty [from] and [to];
    it carries these two ids whether or not such nodes exist, and the
    [id], [label] and [type] of the object when it has them (label
    [""], type ["default"] otherwise).  A rejected argument leaves the
    scene as it was and logs one error.  The node map is never
    touched. *)
Theorem addConnection_appends (e : Engine) (arg : ConnArg) :
  let result := fst (addConnection e arg) in
  let e' := snd (addConnection e arg) in
  connections e'
  = (connections e ++ match result with Some c => [c] | None => [] end)%list /\
  nodes e' = nodes e /\ layers e' = layers e /\
  (forall c, result = Some c ->
     exists spec,
       arg = ArgObject spec /\ accepted spec = true /\
       cs_from spec = Some (conn_from c) /\ cs_to spec = Some (conn_to c) /\
       conn_label c = withDefault (cs_label spec) "" /\
       conn_type c = withDefault (cs_type spec) "default" /\
       (forall i, cs_id spec = Some i -> conn_id c = i) /\
       errors e' = errors e) /\
  (result = None ->
     (forall spec, arg = ArgObject spec -> accepted spec = false) /\
     e' = console_error e "Invalid connection format:").
Proof.
  cbv zeta. unfold addConnection.
  destruct arg as [spec|s].
  - unfold accepted.
    destruct (truthyProp (cs_from spec) && truthyProp (cs_to spec)) eqn:Hacc.
    + destruct (orGenerateId (cs_id spec) e) as [newId e1] eqn:Hid.
      assert (Hsame : connections e1 = connections e /\ nodes e1 = nodes e /\
                      layers e1 = layers e /\ errors e1 = errors e).
      { unfold orGenerateId in Hid.
        destruct (cs_id spec) as [i|]; [destruct (truthy i)|];
          injection Hid as _ <-; repeat split; reflexivity. }
      destruct Hsame as (Hc & Hn & Hl & He). simpl.
      rewrite Hc, Hn, Hl, He.
      split; [reflexivity|]. split; [reflexivity|]. split; [reflexivity|].
      split; [|discriminate].
      intros c Hres. injection Hres as <-. exists spec. simpl.
      split; [reflexivity|]. split; [exact Hacc|].
      apply andb_true_iff in Hacc. destruct Hacc as [Hf Ht].
      destruct (cs_from spec) as [f|]; [|discriminate].
      destruct (cs_to spec) as [t|]; [|discriminate]. simpl.
      repeat split; try reflexivity.
      intros i Hi. rewrite Hi. reflexivity.
    + simpl. rewrite app_nil_r.
      split; [reflexivity|]. split; [reflexivity|]. split; [reflexivity|].
      split; [discriminate|].
      intros _. split; [|reflexivity].
      intros spec' Heq. injection Heq as <-. exact Hacc.
  - simpl. rewrite app_nil_r.
    split; [reflexivity|]. split; [reflexivity|]. split; [reflexivity|].
    split; [discriminate|].
    intros _. split; [|reflexivity]. intros spec Heq. discriminate Heq.
Qed.

Lemma filter_idem {A} (f : A -> bool) (l : list A) :
  filter f (filter f l) = filter f l.
Proof.
  apply filter_all_kept. intros x Hin. apply filter_In in Hin. apply Hin.
Qed.

Lemma removeNode_fields (e : Engine) (nodeId : string) :
  nodes (removeNode e nodeId) = JsMap.delete (nodes e) nodeId /\
  connections (removeNode e nodeId)
  = filter (notIncident nodeId) (connections e) /\
  selectedNode (removeNode e nodeId)
  = match selectedNode e with
    | Some sel => if String.eqb (node_id sel) nodeId then None else Some sel
    | None => None
    end.
Proof.
  unfold removeNode. simpl.
  destruct (selectedNode e) as [sel|] eqn:Hs; simpl.
  - destruct (String.eqb (node_id sel) nodeId); simpl; auto.
  - auto.
Qed.

Lemma removeNode_nothing_to_do (e : Engine) (nodeId : string) :
  JsMap.get (nodes e) nodeId = None ->
  filter (notIncident nodeId) (connections e) = connections e ->
  (forall sel, selectedNode e = Some sel ->
               String.eqb (node_id sel) nodeId = false) ->
  removeNode e nodeId = e.
Proof.
  intros Hget Hconn Hsel. unfold removeNode. simpl.
  rewrite (delete_absent _ _ Hget), Hconn.
  destruct (selectedNode e) as [sel|] eqn:Es.
  - rewrite (Hsel sel eq_refl). destruct e; simpl in *. reflexivity.
  - destruct e; simpl in *. reflexivity.
Qed.

(** Removing a node twice is the same as removing it once: the second
    [removeNode] with the same id changes nothing. *)
Theorem removeNode_idempotent (e : Engine) (nodeId : string) :
  JsMap.wf (nodes e) ->
  removeNode (removeNode e nodeId) nodeId = removeNode e nodeId.
Proof.
  intros Hwf.
  destruct (removeNode_fields e nodeId) as (Hn & Hc & Hs).
  apply removeNode_nothing_to_do.
  - rewrite Hn. apply get_delete_same. exact Hwf.
  - rewrite Hc. apply filter_idem.
  - intros sel Hsel. rewrite Hs in Hsel.
    destruct (selectedNode e) as [s0|]; [|discriminate].
    destruct (String.eqb (node_id s0) nodeId) eqn:E; [discriminate|].
    injection Hsel as <-. exact E.
Qed.

Lemma removeNode_idempotent_witness :
  removeNode (removeNode Sample.linked "A") "A" = removeNode Sample.linked "A".
Proof.
  apply (removeNode_idempotent Sample.linked "A").
  unfold JsMap.wf. simpl.
  constructor; [intros [H|[]]; discriminate H|].
  constructor; [intros []|constructor].
Defined.

(** Removing a connection twice is the same as removing it once, in
    whichever order the two ids are given the second time, and the
    second call returns false. *)
Theorem removeConnection_idempotent (e : Engine) (fromId toId : string) :
  let e1 := snd (removeConnection e fromId toId) in
  removeConnection e1 fromId toId = (false, e1) /\
  removeConnection e1 toId fromId = (false, e1).
Proof.
  cbv zeta. unfold removeConnection. simpl.
  assert (Hrev : forall c,
             keptByRemove toId fromId c = keptByRemove fromId toId c).
  { intros c. unfold keptByRemove. apply andb_comm. }
  assert (Hsame : filter (keptByRemove toId fromId)
                    (filter (keptByRemove fromId toId) (connections e))
                  = filter (keptByRemove fromId toId) (connections e)).
  { rewrite (filter_ext _ _ Hrev). apply filter_idem. }
  rewrite filter_idem, Hsame, Nat.ltb_irrefl.
  split; f_equal; destruct e; reflexivity.
Qed.

Lemma orGenerateId_cases (p : option string) (e : Engine) :
  (exists i, p = Some i /\ truthy i = true /\ orGenerateId p e = (i, e)) \/
  ((p = None \/ p = Some "") /\ orGenerateId p e = generateId e).
Proof.
  unfold orGenerateId. destruct p as [i|].
  - destruct (truthy i) eqn:E.
    + left. exists i. auto.
    + right. split; [|reflexivity]. right.
      unfold truthy in E. apply negb_false_iff, String.eqb_eq in E.
      congruence.
  - right. auto.
Qed.

(** [addNode] stores the node it returns under the given id, or under a
    generated id when the data has none or an empty one, overwriting a
    node already stored there and keeping every other entry; the
    returned node has the properties of the data and the defaults
    [x = 0], [y = 0], label ["Node"], layer and type ["default"] for
    absent ones.  With an empty [id] the node is stored under the
    generated key but itself keeps the empty id. *)
Theorem addNode_lookup (e : Engine) (data : NodeData) :
  let node := fst (addNode e data) in
  let e' := snd (addNode e data) in
  let key := fst (orGenerateId (nd_id data) e) in
  JsMap.get (nodes e') key = Some node /\
  (forall k, k <> key -> JsMap.get (nodes e') k = JsMap.get (nodes e) k) /\
  (JsMap.get (nodes e) key = None ->
   JsMap.size (nodes e') = S (JsMap.size (nodes e))) /\
  (forall old, JsMap.get (nodes e) key = Some old ->
   JsMap.size (nodes e') = JsMap.size (nodes e)) /\
  (forall i, nd_id data = Some i -> truthy i = true ->
     key = i /\ node_id node = i /\ rngCalls e' = rngCalls e) /\
  (nd_id data = None \/ nd_id data = Some "" ->
     key = "id_" ++ randomStrings e (rngCalls e) /\
     node_id node = withDefault (nd_id data) key /\
     rngCalls e' = S (rngCalls e)) /\
  node_x node = withDefault (nd_x data) 0 /\
  node_y node = withDefault (nd_y data) 0 /\
  node_label node = withDefault (nd_label data) "Node" /\
  node_layer node = withDefault (nd_layer data) "default" /\
  node_type node = withDefault (nd_type data) "default" /\
  connections e' = connections e /\ layers e' = layers e.
Proof.
  cbv zeta. unfold addNode.
  destruct (orGenerateId_cases (nd_id data) e)
    as [(i & Hp & Ht & Hid)|[Hp Hid]]; rewrite Hid; simpl.
  - split; [apply get_set_same|].
    split; [intros k Hk; apply get_set_other; exact Hk|].
    split; [apply size_set_new|].
    split; [intros old; apply size_set_old|].
    split.
    { intros j Hj _. rewrite Hp in Hj. injection Hj as <-.
      rewrite Hp. simpl. auto. }
    split.
    { intros [Hn|Hn]; rewrite Hp in Hn; [discriminate|].
      injection Hn as ->. discriminate Ht. }
    repeat split; reflexivity.
  - split; [apply get_set_same|].
    split; [intros k Hk; apply get_set_other; exact Hk|].
    split; [apply size_set_new|].
    split; [intros old; apply size_set_old|].
    split.
    { intros j Hj Htj. exfalso.
      destruct Hp as [Hn|Hn]; rewrite Hn in Hj; [discriminate|].
      injection Hj as <-. discriminate Htj. }
    split; [intros _; repeat split; reflexivity|].
    repeat split; reflexivity.
Qed.

(** ** [setData] *)

Lemma addConnection_list (e : Engine) (arg : ConnArg) :
  connections (snd (addConnection e arg))
  = (connections e
       ++ match fst (addConnection e arg) with
          | Some c => [c]
          | None => []
          end)%list /\
  nodes (snd (addConnection e arg)) = nodes e /\
  layers (snd (addConnection e arg)) = layers e.
Proof.
  unfold addConnection. destruct arg as [spec|s].
  - destruct (truthyProp (cs_from spec) && truthyProp (cs_to spec)).
    + unfold orGenerateId.
      destruct (cs_id spec) as [i|]; [destruct (truthy i)|]; simpl; auto.
    + simpl. rewrite app_nil_r. auto.
  - simpl. rewrite app_nil_r. auto.
Qed.



Lemma addNodes_fold (datas : list NodeData) (e : Engine) :
  let e' := fold_left (fun acc node => snd (addNode acc node)) datas e in
  (JsMap.wf (nodes e) -> JsMap.wf (nodes e')) /\
  (JsMap.size (nodes e') <= JsMap.size (nodes e) + List.length datas)%nat /\
  connections e' = connections e /\ layers e' = layers e /\
  errors e' = errors e.
Proof.
  revert e. induction datas as [|d datas IH]; intros e; simpl.
  - repeat split; auto; lia.
  - destruct (IH (snd (addNode e d))) as (Hwf & Hsize & Hc & Hl & He).
    assert (Hstep : (JsMap.size (nodes (snd (addNode e d)))
                     <= S (JsMap.size (nodes e)))%nat /\
                    layers (snd (addNode e d)) = layers e /\
                    errors (snd (addNode e d)) = errors e).
    { unfold addNode.
      destruct (orGenerateId (nd_id d) e) as [k e1] eqn:E. simpl.
      assert (Hsame : nodes e1 = nodes e /\ layers e1 = layers e /\
                      errors e1 = errors e).
      { unfold orGenerateId in E.
        destruct (nd_id d) as [s|]; [destruct (truthy s)|];
          injection E as _ <-; auto. }
      destruct Hsame as (-> & -> & ->).
      split; [|auto].
      destruct (JsMap.get (nodes e) k) as [old|] eqn:G.
      - rewrite (size_set_old _ _ _ old G). lia.
      - rewrite (size_set_new _ _ _ G). lia. }
    destruct Hstep as (Hs1 & Hl1 & He1).
    rewrite Hc, Hl, He, addNode_connections, Hl1, He1.
    split; [intros H; apply Hwf, addNode_wf; exact H|].
    repeat split; lia.
Qed.










(** ** Commands *)

Lemma delete_set_new {V} (m : JsMap.t V) (k : string) (v : V) :
  JsMap.get m k = None -> JsMap.delete (JsMap.set m k v) k = m.
Proof.
  induction m as [|[k' v'] m IH]; simpl.
  - intros _. rewrite String.eqb_refl. reflexivity.
  - destruct (String.eqb k' k) eqn:E; [discriminate|].
    intros H. simpl. rewrite E, IH by exact H. reflexivity.
Qed.

(** The add-node command.  For data with a non-empty id that the scene
    does not have, [execute()] then [undo()] gives back the node map;
    the connections that referenced the id are removed by the undo, and
    when there are none and the selection does not carry the id the
    engine is back to what it was.  For data without an id, [undo()]
    changes nothing: the node stored under a generated id stays. *)
Theorem addNode_command_undo (e : Engine) (data : NodeData) :
  let cmd := createAddNodeCommand data in
  (forall i, nd_id data = Some i -> truthy i = true ->
     JsMap.get (nodes e) i = None ->
     exists e',
       undo cmd (execute cmd (Some e)) = Some e' /\
       nodes e' = nodes e /\
       connections e' = filter (notIncident i) (connections e) /\
       (filter (notIncident i) (connections e) = connections e ->
        (forall sel, selectedNode e = Some sel ->
                     String.eqb (node_id sel) i = false) ->
        e' = e)) /\
  (nd_id data = None ->
     undo cmd (execute cmd (Some e)) = execute cmd (Some e) /\
     exists e',
       execute cmd (Some e) = Some e' /\
       JsMap.get (nodes e') ("id_" ++ randomStrings e (rngCalls e))
       = Some (fst (addNode e data))).
Proof.
  cbv zeta. split.
  - intros i Hid Htruthy Hfresh. simpl. rewrite Hid.
    eexists. split; [reflexivity|].
    assert (Hadd : snd (addNode e data)
                   = set_nodes e (JsMap.set (nodes e) i (fst (addNode e data)))).
    { unfold addNode, orGenerateId. rewrite Hid, Htruthy. reflexivity. }
    destruct (removeNode_fields (snd (addNode e data)) i) as (Hn & Hc & Hs).
    rewrite Hn, Hc, addNode_connections.
    rewrite Hadd at 1. simpl. rewrite delete_set_new by exact Hfresh.
    split; [reflexivity|]. split; [reflexivity|].
    intros Hkeep Hsel. rewrite Hadd. unfold removeNode. simpl.
    rewrite delete_set_new by exact Hfresh. rewrite Hkeep.
    destruct (selectedNode e) as [sel|] eqn:Es.
    + rewrite (Hsel sel eq_refl). destruct e; simpl in *. reflexivity.
    + destruct e; simpl in *. reflexivity.
  - intros Hid. simpl. rewrite Hid. split; [reflexivity|].
    eexists. split; [reflexivity|].
    unfold addNode, orGenerateId. rewrite Hid. simpl.
    apply get_set_same.
Qed.

Lemma filter_app_single {A} (f : A -> bool) (l : list A) (x : A) :
  filter f (l ++ [x]) = (filter f l ++ if f x then [x] else [])%list.
Proof. rewrite filter_app. reflexivity. Qed.

Lemma filter_fixed_iff {A} (f : A -> bool) (l : list A) :
  filter f l = l <-> forall x, In x l -> f x = true.
Proof.
  split; [|apply filter_all_kept].
  intros H x Hin. rewrite <- H in Hin. apply filter_In in Hin. apply Hin.
Qed.

Lemma removeConnection_fields (e : Engine) (fromId toId : string) :
  connections (snd (removeConnection e fromId toId))
  = filter (keptByRemove fromId toId) (connections e) /\
  nodes (snd (removeConnection e fromId toId)) = nodes e.
Proof. split; reflexivity. Qed.

(** The add-connection command.  [execute()] then [undo()] leaves
    exactly the connections that join the two nodes in neither
    direction: the list is back to what it was exactly when the two
    nodes were not connected before, and otherwise the undo also takes
    away the older connections between them. *)
Theorem addConnection_command_undo
    (e : Engine) (label fromId toId : string) :
  let cmd := createAddConnectionCommand label fromId toId in
  exists e',
    undo cmd (execute cmd (Some e)) = Some e' /\
    connections e' = filter (keptByRemove fromId toId) (connections e) /\
    (connections e' = connections e <-> findConnection e fromId toId = None) /\
    nodes e' = nodes e.
Proof.
  cbv zeta.
  set (arg := ArgObject
                {| cs_id := None; cs_from := Some fromId; cs_to := Some toId;
                   cs_label := Some label; cs_type := None |}).
  exists (snd (removeConnection (snd (addConnection e arg)) fromId toId)).
  split; [reflexivity|].
  destruct (addConnection_list e arg) as (Hc & Hn & _).
  assert (Hlist : connections (snd (removeConnection (snd (addConnection e arg))
                                      fromId toId))
                  = filter (keptByRemove fromId toId) (connections e)).
  { rewrite (proj1 (removeConnection_fields _ _ _)), Hc.
    destruct (fst (addConnection e arg)) as [c|] eqn:Hres.
    - rewrite filter_app_single.
      assert (Hjoin : keptByRemove fromId toId c = false).
      { unfold arg, addConnection in Hres. simpl in Hres.
        destruct (truthy fromId && truthy toId); [|discriminate].
        simpl in Hres. injection Hres as <-.
        unfold keptByRemove. simpl. rewrite !String.eqb_refl. reflexivity. }
      rewrite Hjoin, app_nil_r. reflexivity.
    - rewrite app_nil_r. reflexivity. }
  split; [exact Hlist|]. split.
  - rewrite Hlist, filter_fixed_iff. unfold findConnection.
    rewrite find_none_iff. split; intros H c Hin; specialize (H c Hin).
    + rewrite joinsEitherWay_kept, H. reflexivity.
    + rewrite joinsEitherWay_kept in H. apply negb_false_iff. exact H.
  - rewrite (proj2 (removeConnection_fields _ _ _)). exact Hn.
Qed.

(** The delete-connection command, for a connection with a non-empty
    [from] and [to]: [execute()] then [undo()] leaves the connections
    that join the two nodes in neither direction, followed by the
    connection of the command.  So the list is back to what it was when
    the connection was the last of the list and the only one between
    its nodes, and any other connection between the two nodes is not
    restored. *)
Theorem deleteConnection_command_undo (e : Engine) (c : Connection) :
  truthy (conn_from c) = true -> truthy (conn_to c) = true ->
  let cmd := createDeleteConnectionCommand c in
  exists e',
    undo cmd (execute cmd (Some e)) = Some e' /\
    connections e'
    = (filter (keptByRemove (conn_from c) (conn_to c)) (connections e)
         ++ [c])%list /\
    (forall pre,
        connections e = (pre ++ [c])%list ->
        findConnection (set_connections e pre) (conn_from c) (conn_to c)
        = None ->
        connections e' = connections e) /\
    nodes e' = nodes e.
Proof.
  intros Hf Ht. cbv zeta.
  set (e1 := snd (removeConnection e (conn_from c) (conn_to c))).
  exists (snd (addConnection e1 (connObject c))).
  split; [reflexivity|].
  assert (Hadd : connections (snd (addConnection e1 (connObject c)))
                 = (connections e1 ++ [c])%list /\
                 nodes (snd (addConnection e1 (connObject c))) = nodes e1).
  { unfold addConnection, connObject. simpl. rewrite Hf, Ht. simpl.
    unfold orGenerateId. destruct c as [i f t l ty]. simpl.
    destruct (truthy i); simpl; split; reflexivity. }
  destruct Hadd as [Hc Hn].
  split; [rewrite Hc; reflexivity|]. split.
  - intros pre Hpre Hnone. rewrite Hc. unfold e1.
    rewrite (proj1 (removeConnection_fields _ _ _)).
    rewrite Hpre, filter_app_single.
    assert (Hjoin : keptByRemove (conn_from c) (conn_to c) c = false).
    { unfold keptByRemove. rewrite !String.eqb_refl. reflexivity. }
    rewrite Hjoin, app_nil_r. f_equal.
    apply filter_all_kept. intros x Hin.
    unfold findConnection in Hnone. simpl in Hnone.
    pose proof (proj1 (find_none_iff _ _) Hnone x Hin) as Hx.
    rewrite joinsEitherWay_kept in Hx. apply negb_false_iff. exact Hx.
  - rewrite Hn. unfold e1. apply removeConnection_fields.
Qed.

Lemma deleteConnection_command_undo_witness :
  exists e',
    undo (createDeleteConnectionCommand Sample.connAC)
      (execute (createDeleteConnectionCommand Sample.connAC)
         (Some Sample.linked)) = Some e' /\
    connections e' = [Sample.connAC].
Proof.
  destruct (deleteConnection_command_undo Sample.linked Sample.connAC)
    as (e' & He & Hc & _).
  - reflexivity.
  - reflexivity.
  - exists e'. split; [exact He|]. rewrite Hc. reflexivity.
Defined.

(** ** Undo and redo *)

(** Undo then redo: in a well-formed history with something to undo,
    [undo()] runs the [undo] of the command at the index and [redo()]
    right after it runs the [execute] of that same command; the index
    and the list of commands are back to what they were. *)
Theorem undo_then_redo (app : App) :
  historyOk app -> (0 <= historyIndex app)%Z ->
  exists command app1 app2,
    JsArray.index (commandHistory app) (historyIndex app) = Some command /\
    appUndo app = Normal app1 /\
    appRedo app1 = Normal app2 /\
    historyIndex app1 = (historyIndex app - 1)%Z /\
    historyIndex app2 = historyIndex app /\
    commandHistory app2 = commandHistory app /\
    maxHistorySize app2 = maxHistorySize app /\
    canvasEngine app2
    = option_map render
        (execute command
           (option_map render (undo command (canvasEngine app)))) /\
    toasts app2
    = ("Redone: " ++ name command) :: ("Undone: " ++ name command)
        :: toasts app.
Proof.
  intros (Hmax & Hlen & Hidx) Hpos.
  destruct (index_defined (commandHistory app) (historyIndex app)) as [c Hc];
    [lia|].
  exists c. unfold appUndo.
  replace (0 <=? historyIndex app)%Z with true
    by (symmetry; apply Z.leb_le; exact Hpos).
  rewrite Hc. eexists. eexists. split; [reflexivity|].
  split; [reflexivity|].
  unfold appRedo. simpl.
  replace (historyIndex app - 1
           <? Z.of_nat (List.length (commandHistory app)) - 1)%Z with true
    by (symmetry; apply Z.ltb_lt; lia).
  replace (historyIndex app - 1 + 1)%Z with (historyIndex app) by lia.
  rewrite Hc. split; [reflexivity|]. simpl.
  repeat split; try reflexivity; lia.
Qed.

Lemma undo_then_redo_witness :
  exists command app1 app2,
    JsArray.index [Sample.nop "C1"] 0 = Some command /\
    appUndo (executeCommand (newApp None) (Sample.nop "C1")) = Normal app1 /\
    appRedo app1 = Normal app2 /\
    historyIndex app2 = 0%Z.
Proof.
  destruct (undo_then_redo (executeCommand (newApp None) (Sample.nop "C1")))
    as (c & a1 & a2 & H1 & H2 & H3 & _ & H4 & _).
  - unfold historyOk. vm_compute. repeat split; discriminate.
  - vm_compute. discriminate.
  - exists c, a1, a2. repeat split; assumption.
Defined.

(** Right after [executeCommand] there is nothing to redo, whatever the
    command and the history before: [redo()] only shows the toast
    "Nothing to redo". *)
Theorem redo_after_execute (app : App) (command : Command) :
  appRedo (executeCommand app command)
  = Normal (toasted (executeCommand app command) "Nothing to redo").
Proof.
  unfold appRedo. rewrite executeCommand_index.
  rewrite Z.ltb_irrefl. reflexivity.
Qed.

(** ** Import *)


Lemma addConnection_strings_fold (cs : list Connection) (e : Engine) :
  let e' :=
    fold_left
      (fun acc conn => snd (addConnection acc (ArgString (conn_from conn))))
      cs e in
  connections e' = connections e /\ nodes e' = nodes e /\
  viewport e' = viewport e /\
  List.length (errors e') = (List.length (errors e) + List.length cs)%nat.
Proof.
  revert e. induction cs as [|c cs IH]; intros e.
  - simpl. repeat split; lia.
  - cbv zeta. cbn [fold_left].
    change (snd (addConnection e (ArgString (conn_from c))))
      with (console_error e "Invalid connection format:").
    destruct (IH (console_error e "Invalid connection format:"))
      as (H1 & H2 & H3 & H4).
    rewrite H1, H2, H3, H4. simpl. repeat split; lia.
Qed.

Lemma viewport_assigned_fields (x : Engine) (o : option Viewport) :
  let x' :=
    render match o with Some v => set_viewport x v | None => x end in
  connections x' = connections x /\ errors x' = errors x /\
  nodes x' = nodes x /\ layers x' = layers x.
Proof. destruct o; repeat split; reflexivity. Qed.

(** [importDiagram] imports no connection: whatever the data, the scene
    has no connection afterwards and one error is logged for each
    connection of the data; the history is emptied. *)
Theorem importDiagram_imports_no_connection
    (app : App) (engine : Engine) (data : DiagramData) :
  canvasEngine app = Some engine ->
  exists e',
    canvasEngine (importDiagram app data) = Some e' /\
    connections e' = [] /\
    List.length (errors e')
    = (List.length (errors engine)
       + List.length (orEmpty (dd_connections data)))%nat /\
    commandHistory (importDiagram app data) = [] /\
    historyIndex (importDiagram app data) = (-1)%Z.
Proof.
  intros He. unfold importDiagram. rewrite He. cbv zeta.
  cbn [canvasEngine commandHistory historyIndex].
  eexists. split; [reflexivity|].
  set (e2 := fold_left (fun acc nodeData => snd (addNode acc nodeData))
               (orEmpty (dd_nodes data)) (clearAll engine)).
  destruct (addNodes_fold (orEmpty (dd_nodes data)) (clearAll engine))
    as (_ & _ & Nc & _ & Ne).
  destruct (addConnection_strings_fold (orEmpty (dd_connections data)) e2)
    as (Cc & _ & _ & Ce).
  fold e2 in Nc, Ne.
  rewrite (proj1 (viewport_assigned_fields _ _)).
  rewrite (proj1 (proj2 (viewport_assigned_fields _ _))).
  rewrite Cc, Ce, Nc, Ne.
  repeat split; reflexivity.
Qed.

Lemma importDiagram_imports_no_connection_witness :
  exists e',
    canvasEngine
      (importDiagram (newApp (Some Sample.linked))
         (exportDiagram Sample.linked)) = Some e' /\
    connections e' = [].
Proof.
  destruct (importDiagram_imports_no_connection
              (newApp (Some Sample.linked)) Sample.linked
              (exportDiagram Sample.linked))
    as (e' & He & Hc & _).
  - reflexivity.
  - exists e'. split; [exact He|exact Hc].
Defined.



(** ** Animation frames *)

Lemma easeOutQuad_range (p : Q) :
  0 <= p <= 1 -> 0 <= Anim.easeOutQuad p <= 1.
Proof.
  intros [H0 H1]. unfold Anim.easeOutQuad.
  assert (Hs : 0 <= (1 - p) * (1 - p)) by apply Qsq_nonneg.
  split; nra.
Qed.

Lemma between_ends (a b q : Q) :
  0 <= q <= 1 -> Qmin a b <= a + (b - a) * q <= Qmax a b.
Proof.
  intros [H0 H1].
  destruct (Q.min_spec a b) as [[Hlt Emin]|[Hle Emin]];
  destruct (Q.max_spec a b) as [[Hlt' Emax]|[Hle' Emax]];
    rewrite Emin, Emax; split; nra.
Qed.

(** In exact arithmetic, a frame of [Utils.animate] with the easing
    [easeOutQuad], a positive duration and an elapsed time that is not
    negative: the frame is computed, its progress is within [0 .. 1] and
    its value between the two ends; it is the start value at time 0;
    from [duration] on it is, with numbers read as rationals, exactly
    the end value and no further frame is requested, and before that
    another frame is requested.  (In binary64 the last value is
    [from + (to - from) * 1], which need not be [to]:
    [binary64_animation_misses_target].) *)
Theorem animate_frame (from to duration elapsed : Q) :
  0 < duration -> 0 <= elapsed ->
  exists f,
    Anim.step from to duration Anim.easeOutQuad elapsed = Some f /\
    0 <= Anim.progress f <= 1 /\
    Qmin from to <= Anim.currentValue f <= Qmax from to /\
    (elapsed == 0 -> Anim.currentValue f == from) /\
    (duration <= elapsed ->
     Anim.currentValue f == to /\ Anim.again f = false) /\
    (elapsed < duration -> Anim.again f = true).
Proof.
  intros Hd He. unfold Anim.step.
  rewrite jsdiv_defined by lra. simpl.
  eexists. split; [reflexivity|]. simpl.
  assert (Hr : 0 <= elapsed / duration).
  { apply Qle_shift_div_l; lra. }
  set (p := Qmin (elapsed / duration) 1).
  assert (Hp : 0 <= p <= 1).
  { unfold p. split; [apply Q.min_glb; lra|apply Q.le_min_r]. }
  split; [exact Hp|].
  split; [apply between_ends, easeOutQuad_range; exact Hp|].
  split; [|split].
  - intros Hz.
    assert (E0 : elapsed / duration == 0) by (rewrite Hz; field; lra).
    assert (Ep : p == 0).
    { pose proof (Q.le_min_l (elapsed / duration) 1) as Hle.
      fold p in Hle. lra. }
    unfold Anim.easeOutQuad. rewrite Ep. ring.
  - intros Hlate.
    assert (Ep : p == 1).
    { unfold p. apply Q.min_r. apply Qle_shift_div_l; lra. }
    split.
    + unfold Anim.easeOutQuad. rewrite Ep. ring.
    + apply Qltb_false. lra.
  - intros Hearly. apply Qltb_true.
    assert (Hlt : elapsed / duration < 1).
    { apply Qlt_shift_div_r; lra. }
    unfold p. rewrite Q.min_l; lra.
Qed.

Lemma animate_frame_witness :
  exists f,
    Anim.step 10 20 300 Anim.easeOutQuad 450 = Some f /\
    Anim.currentValue f == 20 /\ Anim.again f = false.
Proof.
  destruct (animate_frame 10 20 300 450) as (f & Hf & _ & _ & _ & Hend & _).
  - lra.
  - lra.
  - exists f. split; [exact Hf|]. apply Hend. lra.
Defined.

(** In exact arithmetic, the pan animation of the app: every frame
    leaves the zoom alone and puts the pan between where it started and
    its target; with numbers read as rationals the frame at or after
    [duration] puts it exactly on the target, and it is the last one.
    (In binary64 the last frame can miss the target by a rounding error:
    [binary64_animation_misses_target].) *)
Theorem animateViewport_lands
    (e : Engine) (fromX fromY toX toY duration elapsed : Q) :
  0 < duration -> 0 <= elapsed ->
  exists e' more,
    animateViewportFrame e fromX fromY toX toY duration elapsed
    = Some (e', more) /\
    zoom (viewport e') = zoom (viewport e) /\
    Qmin fromX toX <= vx (viewport e') <= Qmax fromX toX /\
    Qmin fromY toY <= vy (viewport e') <= Qmax fromY toY /\
    (duration <= elapsed ->
     vx (viewport e') == toX /\ vy (viewport e') == toY /\ more = false) /\
    (elapsed < duration -> more = true) /\
    nodes e' = nodes e /\ connections e' = connections e.
Proof.
  intros Hd He. unfold animateViewportFrame, Anim.step.
  rewrite jsdiv_defined by lra. simpl.
  do 2 eexists. split; [reflexivity|]. simpl.
  assert (Hr : 0 <= elapsed / duration).
  { apply Qle_shift_div_l; lra. }
  set (p := Qmin (elapsed / duration) 1).
  assert (Hp : 0 <= p <= 1).
  { unfold p. split; [apply Q.min_glb; lra|apply Q.le_min_r]. }
  pose proof (easeOutQuad_range p Hp) as Hq.
  assert (Hq' : 0 <= 0 + (1 - 0) * Anim.easeOutQuad p <= 1) by lra.
  split; [reflexivity|].
  split; [apply between_ends; exact Hq'|].
  split; [apply between_ends; exact Hq'|].
  split; [|split; [|split; reflexivity]].
  - intros Hlate.
    assert (Ep : p == 1).
    { unfold p. apply Q.min_r. apply Qle_shift_div_l; lra. }
    assert (Eq : Anim.easeOutQuad p == 1).
    { unfold Anim.easeOutQuad. rewrite Ep. ring. }
    split; [|split].
    + unfold Anim.lerp. rewrite Eq. ring.
    + unfold Anim.lerp. rewrite Eq. ring.
    + apply Qltb_false. lra.
  - intros Hearly. apply Qltb_true.
    assert (Hlt : elapsed / duration < 1).
    { apply Qlt_shift_div_r; lra. }
    unfold p. rewrite Q.min_l; lra.
Qed.

Lemma animateViewport_lands_witness :
  exists e' more,
    animateViewportFrame (newEngine Sample.random) 0 0 400 300 300 300
    = Some (e', more) /\
    vx (viewport e') == 400 /\ vy (viewport e') == 300 /\ more = false.
Proof.
  destruct (animateViewport_lands (newEngine Sample.random) 0 0 400 300 300 300)
    as (e' & more & Hf & _ & _ & _ & Hend & _).
  - lra.
  - lra.
  - exists e', more. split; [exact Hf|]. apply Hend. lra.
Defined.

(** ** Colour round trip *)

Section HexFacts.

Local Open Scope Z_scope.

Lemma shl_small (a k : Z) :
  0 <= k -> 0 <= a -> a * 2 ^ k < 2 ^ 31 -> Color.shl a k = a * 2 ^ k.
Proof.
  intros Hk Ha Hlt. unfold Color.shl, Color.toInt32.
  assert (Hpow : 1 <= 2 ^ k) by (apply Z.pow_pos_nonneg with (a := 2) in Hk; lia).
  assert (Ha' : a < 2 ^ 31) by nia.
  rewrite (Z.mod_small (a + 2 ^ 31)) by lia.
  replace (a + 2 ^ 31 - 2 ^ 31) with a by lia.
  rewrite Z.mod_small by nia. lia.
Qed.

Lemma hexValue_hexDigit (d : Z) :
  0 <= d < 16 -> Color.hexValue (Color.hexDigit d) = Some d.
Proof.
  intros Hd.
  assert (H : d = 0 \/ d = 1 \/ d = 2 \/ d = 3 \/ d = 4 \/ d = 5 \/ d = 6 \/
              d = 7 \/ d = 8 \/ d = 9 \/ d = 10 \/ d = 11 \/ d = 12 \/
              d = 13 \/ d = 14 \/ d = 15) by lia.
  repeat (destruct H as [H|H]; [subst d; reflexivity|]).
  subst d. reflexivity.
Qed.

Lemma hexDigits_snoc (fuel : nat) (m d : Z) :
  1 <= m -> 0 <= d < 16 ->
  Color.hexDigits (S fuel) (m * 16 + d)
  = (Color.hexDigits fuel m
       ++ String (Color.hexDigit d) EmptyString)%string.
Proof.
  intros Hm Hd. cbn [Color.hexDigits].
  replace (m * 16 + d <? 16) with false by (symmetry; apply Z.ltb_ge; lia).
  replace ((m * 16 + d) / 16) with m
    by (apply Z.div_unique with (r := d); lia).
  replace ((m * 16 + d) mod 16) with d
    by (apply Z.mod_unique with (q := m); lia).
  reflexivity.
Qed.

Lemma parsePair_digits (v : Z) :
  0 <= v <= 255 ->
  Color.parsePair (Color.hexDigit (v / 16)) (Color.hexDigit (v mod 16))
  = Some v.
Proof.
  intros Hv. unfold Color.parsePair.
  assert (Hq : 0 <= v / 16 < 16).
  { split; [apply Z.div_pos; lia|apply Z.div_lt_upper_bound; lia]. }
  assert (Hr : 0 <= v mod 16 < 16) by (apply Z.mod_pos_bound; lia).
  rewrite !hexValue_hexDigit by assumption.
  f_equal. pose proof (Z.div_mod v 16). lia.
Qed.

Lemma rgbToHex_digits (r g b : Z) :
  0 <= r <= 255 -> 0 <= g <= 255 -> 0 <= b <= 255 ->
  let h v := Color.hexDigit v in
  Color.rgbToHex r g b
  = String "#"
      (String (h (r / 16)) (String (h (r mod 16))
      (String (h (g / 16)) (String (h (g mod 16))
      (String (h (b / 16)) (String (h (b mod 16)) EmptyString)))))).
Proof.
  intros Hr Hg Hb h. unfold Color.rgbToHex. f_equal.
  rewrite !shl_small by lia.
  set (n := 1 * 2 ^ 24 + r * 2 ^ 16 + g * 2 ^ 8 + b).
  assert (Hn : 2 ^ 24 <= n < 2 ^ 25) by (unfold n; lia).
  unfold Color.toString16.
  replace (n <? 0) with false by (symmetry; apply Z.ltb_ge; lia).
  assert (Hlog : Z.log2 n = 24).
  { apply Z.log2_unique; [lia|]. change (2 ^ 24 <= n < 2 ^ 25). exact Hn. }
  rewrite Hlog. change (S (Z.to_nat 24)) with 25%nat.
  assert (Hdr : 0 <= r / 16 < 16).
  { split; [apply Z.div_pos; lia|apply Z.div_lt_upper_bound; lia]. }
  assert (Hdg : 0 <= g / 16 < 16).
  { split; [apply Z.div_pos; lia|apply Z.div_lt_upper_bound; lia]. }
  assert (Hdb : 0 <= b / 16 < 16).
  { split; [apply Z.div_pos; lia|apply Z.div_lt_upper_bound; lia]. }
  assert (Hmr : 0 <= r mod 16 < 16) by (apply Z.mod_pos_bound; lia).
  assert (Hmg : 0 <= g mod 16 < 16) by (apply Z.mod_pos_bound; lia).
  assert (Hmb : 0 <= b mod 16 < 16) by (apply Z.mod_pos_bound; lia).
  pose proof (Z.div_mod r 16 ltac:(lia)) as Er.
  pose proof (Z.div_mod g 16 ltac:(lia)) as Eg.
  pose proof (Z.div_mod b 16 ltac:(lia)) as Eb.
  replace n
    with ((((((1 * 16 + r / 16) * 16 + r mod 16) * 16 + g / 16) * 16
             + g mod 16) * 16 + b / 16) * 16 + b mod 16)
    by (unfold n; lia).
  rewrite !hexDigits_snoc by lia.
  reflexivity.
Qed.

End HexFacts.

(** Encoding a colour and decoding it: for three components within
    [0 .. 255], [rgbToHex] gives ["#"] followed by six lower-case hex
    digits, and [hexToRgb] reads the three components back from it. *)
Theorem hex_roundtrip (r g b : Z) :
  (0 <= r <= 255)%Z -> (0 <= g <= 255)%Z -> (0 <= b <= 255)%Z ->
  String.length (Color.rgbToHex r g b) = 7%nat /\
  Color.hexToRgb (Color.rgbToHex r g b)
  = Some {| Color.red := r; Color.green := g; Color.blue := b |}.
Proof.
  intros Hr Hg Hb. rewrite (rgbToHex_digits r g b Hr Hg Hb). cbv zeta.
  split; [reflexivity|].
  unfold Color.hexToRgb. rewrite Ascii.eqb_refl. unfold Color.parseSix.
  rewrite !parsePair_digits by assumption. reflexivity.
Qed.

Lemma hex_roundtrip_witness :
  Color.rgbToHex 59 130 246 = "#3b82f6" /\
  Color.hexToRgb "#3b82f6"
  = Some {| Color.red := 59; Color.green := 130; Color.blue := 246 |}.
Proof.
  destruct (hex_roundtrip 59 130 246) as [_ H]; try lia.
  split; [reflexivity|]. exact H.
Defined.

Example hexToRgb_samples :
  Color.hexToRgb "3B82F6"
  = Some {| Color.red := 59; Color.green := 130; Color.blue := 246 |} /\
  Color.hexToRgb "#3b82f" = None /\
  Color.hexToRgb "#3b82f6a" = None /\
  Color.hexToRgb "#3b82fg" = None /\
  Color.hexToRgb "" = None /\
  Color.rgbToHex 256 0 0 = "#000000" /\
  Color.rgbToHex 0 0 0 = "#000000" /\
  Color.rgbToHex 255 255 255 = "#ffffff".
Proof. repeat split; reflexivity. Qed.

(** ** Click dispatch and direction of a connection *)



Lemma onSegment_reverse (p a b : Point) (t : Q) :
  sqDist p (onSegment a b t) == sqDist p (onSegment b a (1 - t)).
Proof. unfold sqDist, onSegment. simpl. ring. Qed.

Lemma pointToLineDistance_least (p a b : Point) :
  exists s,
    pointToLineDistance p a b = Some s /\
    (exists t, 0 <= t <= 1 /\ radicand s == sqDist p (onSegment a b t)) /\
    (forall t, 0 <= t <= 1 -> radicand s <= sqDist p (onSegment a b t)).
Proof.
  destruct (pointToLineDistance_closest p a b) as [s [Hs Hr]].
  exists s. split; [exact Hs|]. split.
  - exists (closestParam p a b). split; [apply closestParam_range|exact Hr].
  - intros t Ht. rewrite Hr. apply closestParam_minimal. exact Ht.
Qed.

(** In exact arithmetic, the distance used by the connection hit test
    does not depend on the direction of the segment: with numbers read
    as rationals and the square root kept exact, measured to the segment
    from [a] to [b] or from [b] to [a] it is the same, and so is the
    outcome of the comparison with the click tolerance.  (In binary64
    both depend on the direction:
    [binary64_pointToLineDistance_direction].) *)
Theorem pointToLineDistance_symmetric (p a b : Point) :
  exists s s',
    pointToLineDistance p a b = Some s /\
    pointToLineDistance p b a = Some s' /\
    radicand s == radicand s' /\
    Surd_leb s tolerance = Surd_leb s' tolerance.
Proof.
  destruct (pointToLineDistance_least p a b) as (s & Hs & (t & Ht & Et) & Hmin).
  destruct (pointToLineDistance_least p b a) as (s' & Hs' & (t' & Ht' & Et') & Hmin').
  exists s, s'. split; [exact Hs|]. split; [exact Hs'|].
  assert (Heq : radicand s == radicand s').
  { apply Qle_antisym.
    - rewrite Et'. rewrite onSegment_reverse. apply Hmin. lra.
    - rewrite Et. rewrite onSegment_reverse. apply Hmin'. lra. }
  split; [exact Heq|].
  unfold Surd_leb.
  rewrite (Qle_bool_compat 0 0 (radicand s) (radicand s'))
    by (reflexivity || exact Heq).
  rewrite (Qle_bool_compat (radicand s) (radicand s')
             (tolerance * tolerance) (tolerance * tolerance))
    by (reflexivity || exact Heq).
  reflexivity.
Qed.

(** ** The layer manager and its engine *)

Lemma managerOk_create (e : Engine) : LayerManager.managerOk (LayerManager.create e).
Proof.
  split; [constructor|]. intros layerId layer H. discriminate H.
Qed.

Lemma managerOk_addLayer (m : LayerManager.t) (layerId : string)
    (layerInfo : LayerInfo) :
  LayerManager.managerOk m -> LayerManager.managerOk (LayerManager.addLayer m layerId layerInfo).
Proof.
  intros [Hwf Hsync]. split.
  - cbn [LayerManager.addLayer LayerManager.managed]. apply wf_set, Hwf.
  - intros id layer.
    cbn [LayerManager.addLayer LayerManager.managed LayerManager.engine].
    unfold addLayer. cbn [layers set_layers withDefault li_visible li_color li_name].
    destruct (String.eqb_spec id layerId) as [->|Hne].
    + rewrite !get_set_same. intros H. injection H as <-.
      eexists. split; reflexivity.
    + rewrite !get_set_other by exact Hne. apply Hsync.
Qed.

Lemma managerOk_switch (m : LayerManager.t) (layerId : string)
    (layer : LayerManager.ManagedLayer) (visible : bool) :
  LayerManager.managerOk m ->
  JsMap.get (LayerManager.managed m) layerId = Some layer ->
  LayerManager.managerOk (LayerManager.switch m layerId layer visible).
Proof.
  intros [Hwf Hsync] Hget. split.
  - cbn [LayerManager.switch LayerManager.managed]. apply wf_set, Hwf.
  - destruct (Hsync _ _ Hget) as (el & Hel & _).
    intros id l.
    cbn [LayerManager.switch LayerManager.managed LayerManager.engine].
    unfold setLayerVisibility. rewrite Hel.
    cbn [snd layers render set_layers].
    destruct (String.eqb_spec id layerId) as [->|Hne].
    + rewrite !get_set_same. intros H. injection H as <-.
      eexists. split; reflexivity.
    + rewrite !get_set_other by exact Hne. apply Hsync.
Qed.

Lemma managerOk_setLayerVisibility (m : LayerManager.t) (layerId : string)
    (visible : bool) :
  LayerManager.managerOk m -> LayerManager.managerOk (LayerManager.setLayerVisibility m layerId visible).
Proof.
  intros Hok. unfold LayerManager.setLayerVisibility.
  destruct (JsMap.get (LayerManager.managed m) layerId) as [layer|] eqn:Hget;
    [|exact Hok].
  destruct (negb (Bool.eqb (LayerManager.ml_visible layer) visible));
    [|exact Hok].
  apply managerOk_switch; assumption.
Qed.

Lemma setAllStep_ok visible m k :
  LayerManager.managerOk m -> LayerManager.managerOk (LayerManager.setAllStep visible m k).
Proof.
  intros Hok. unfold LayerManager.setAllStep.
  destruct (JsMap.get (LayerManager.managed m) k) as [layer|]; [|exact Hok].
  destruct (Bool.eqb (LayerManager.ml_visible layer) visible); [exact Hok|].
  apply managerOk_setLayerVisibility, Hok.
Qed.

Lemma setAllStep_flags visible m k layer :
  JsMap.get (LayerManager.managed m) k = Some layer ->
  LayerManager.flagged visible (LayerManager.setAllStep visible m k) k.
Proof.
  intros Hget. unfold LayerManager.setAllStep. rewrite Hget.
  destruct (Bool.eqb (LayerManager.ml_visible layer) visible) eqn:E.
  - exists layer. split; [exact Hget|]. apply Bool.eqb_prop, E.
  - unfold LayerManager.setLayerVisibility. rewrite Hget, E.
    cbn [negb]. eexists.
    cbn [LayerManager.switch LayerManager.managed].
    rewrite get_set_same. split; reflexivity.
Qed.

Lemma setAllStep_keeps visible m k id :
  LayerManager.flagged visible m id -> LayerManager.flagged visible (LayerManager.setAllStep visible m k) id.
Proof.
  intros (l & Hl & Hv). unfold LayerManager.setAllStep.
  destruct (JsMap.get (LayerManager.managed m) k) as [layer|] eqn:Hget;
    [|exists l; split; assumption].
  destruct (Bool.eqb (LayerManager.ml_visible layer) visible) eqn:E;
    [exists l; split; assumption|].
  unfold LayerManager.setLayerVisibility. rewrite Hget, E.
  cbn [negb].
  destruct (String.eqb_spec id k) as [->|Hne].
  - eexists. cbn [LayerManager.switch LayerManager.managed].
    rewrite get_set_same. split; reflexivity.
  - exists l. cbn [LayerManager.switch LayerManager.managed].
    rewrite get_set_other by exact Hne. split; assumption.
Qed.

Lemma setAllStep_defined visible m k id layer :
  JsMap.get (LayerManager.managed m) id = Some layer ->
  exists layer',
    JsMap.get (LayerManager.managed (LayerManager.setAllStep visible m k)) id = Some layer'.
Proof.
  intros Hl. unfold LayerManager.setAllStep.
  destruct (JsMap.get (LayerManager.managed m) k) as [lk|] eqn:Hget;
    [|exists layer; exact Hl].
  destruct (Bool.eqb (LayerManager.ml_visible lk) visible) eqn:E;
    [exists layer; exact Hl|].
  unfold LayerManager.setLayerVisibility. rewrite Hget, E.
  cbn [negb LayerManager.switch LayerManager.managed].
  destruct (String.eqb_spec id k) as [->|Hne].
  - eexists. rewrite get_set_same. reflexivity.
  - exists layer. rewrite get_set_other by exact Hne. exact Hl.
Qed.

Lemma setAll_fold visible ks m :
  LayerManager.managerOk m ->
  LayerManager.managerOk (fold_left (LayerManager.setAllStep visible) ks m) /\
  forall id,
    (LayerManager.flagged visible m id \/
     (In id ks /\ exists l, JsMap.get (LayerManager.managed m) id = Some l)) ->
    LayerManager.flagged visible (fold_left (LayerManager.setAllStep visible) ks m) id.
Proof.
  revert m. induction ks as [|k ks IH]; intros m Hok; simpl.
  - split; [exact Hok|]. intros id [H|[[] _]]. exact H.
  - destruct (IH (LayerManager.setAllStep visible m k) (setAllStep_ok visible m k Hok))
      as [Hok' Hflags].
    split; [exact Hok'|]. intros id [Hf|[[->|Hin] [l Hl]]].
    + apply Hflags. left. apply setAllStep_keeps, Hf.
    + apply Hflags. left. eapply setAllStep_flags, Hl.
    + apply Hflags. right. split; [exact Hin|].
      eapply setAllStep_defined, Hl.
Qed.

Lemma get_in_keys {V} (m : JsMap.t V) k v :
  JsMap.get m k = Some v -> In k (JsMap.keys m).
Proof.
  induction m as [|[k' v'] m IH]; simpl; [discriminate|].
  destruct (String.eqb_spec k' k) as [->|Hne]; [left; reflexivity|].
  intros H. right. apply IH, H.
Qed.

Lemma in_keys_get {V} (m : JsMap.t V) k :
  In k (JsMap.keys m) -> exists v, JsMap.get m k = Some v.
Proof.
  induction m as [|[k' v'] m IH]; simpl; [intros []|].
  destruct (String.eqb_spec k' k) as [->|Hne]; [eexists; reflexivity|].
  intros [H|H]; [contradiction|]. apply IH, H.
Qed.

Lemma setAll_spec visible m :
  LayerManager.managerOk m ->
  LayerManager.managerOk (LayerManager.setAll visible m) /\
  forall id,
    In id (JsMap.keys (LayerManager.managed m)) ->
    LayerManager.flagged visible (LayerManager.setAll visible m) id.
Proof.
  intros Hok.
  destruct (setAll_fold visible (JsMap.keys (LayerManager.managed m)) m Hok)
    as [Hok' Hflags].
  split; [exact Hok'|]. intros id Hin. apply Hflags. right.
  split; [exact Hin|]. apply in_keys_get, Hin.
Qed.

Lemma managerOk_call (m : LayerManager.t) (c : LayerManager.Call) :
  LayerManager.managerOk m -> LayerManager.managerOk (LayerManager.call m c).
Proof.
  intros Hok. destruct c as [id info|id|id|id v| | |data]; cbn [LayerManager.call].
  - apply managerOk_addLayer, Hok.
  - unfold LayerManager.removeLayer.
    destruct (JsMap.get (LayerManager.managed m) id) as [layer|] eqn:Hget;
      [|exact Hok].
    destruct Hok as [Hwf Hsync]. split.
    + cbn [snd LayerManager.managed]. apply wf_delete, Hwf.
    + intros id' l. cbn [snd LayerManager.managed LayerManager.engine].
      destruct (String.eqb_spec id' id) as [->|Hne].
      * rewrite get_delete_same by exact Hwf. discriminate.
      * rewrite get_delete_other by exact Hne. apply Hsync.
  - unfold LayerManager.toggleLayer.
    destruct (JsMap.get (LayerManager.managed m) id) as [layer|] eqn:Hget;
      [|exact Hok].
    cbn [snd]. apply managerOk_switch; assumption.
  - apply managerOk_setLayerVisibility, Hok.
  - apply setAll_spec, Hok.
  - apply setAll_spec, Hok.
  - unfold LayerManager.setLayerData.
    assert (H0 : LayerManager.managerOk
              {| LayerManager.engine := LayerManager.engine m;
                 LayerManager.managed := JsMap.empty;
                 LayerManager.layerOrder := [];
                 LayerManager.toggled := LayerManager.toggled m |}).
    { split; [constructor|]. intros i l H. discriminate H. }
    revert H0. generalize
      {| LayerManager.engine := LayerManager.engine m;
         LayerManager.managed := JsMap.empty;
         LayerManager.layerOrder := [];
         LayerManager.toggled := LayerManager.toggled m |}.
    induction data as [|[i info] data IH]; intros m0 H0; simpl; [exact H0|].
    apply IH, managerOk_addLayer, H0.
Qed.

Lemma managerOk_used (e : Engine) (calls : list LayerManager.Call) :
  LayerManager.managerOk (LayerManager.used e calls).
Proof.
  unfold LayerManager.used.
  generalize (managerOk_create e). generalize (LayerManager.create e).
  induction calls as [|c calls IH]; intros m Hok; simpl; [exact Hok|].
  apply IH, managerOk_call, Hok.
Qed.

Lemma flagged_engine visible m id :
  LayerManager.managerOk m -> LayerManager.flagged visible m id ->
  LayerManager.isLayerVisible m id = visible /\
  isLayerVisible (LayerManager.engine m) id = visible.
Proof.
  intros [_ Hsync] (l & Hl & Hv).
  destruct (Hsync _ _ Hl) as (el & Hel & Hev).
  unfold LayerManager.isLayerVisible, isLayerVisible. rewrite Hl, Hel.
  split; congruence.
Qed.

(** X30. Whatever calls were made on a layer manager since it was built
    for an engine -- [addLayer], [removeLayer], [toggleLayer],
    [setLayerVisibility], [showAllLayers], [hideAllLayers],
    [setLayerData] -- the manager and the engine agree on which of the
    manager's layers are visible; [hideAllLayers] then leaves each of
    them hidden in the engine as well, and [showAllLayers] visible. *)
Theorem layerManager_engine_in_sync (e : Engine)
    (calls : list LayerManager.Call) (layerId : string) :
  In layerId (JsMap.keys (LayerManager.managed (LayerManager.used e calls))) ->
  let m := LayerManager.used e calls in
  isLayerVisible (LayerManager.engine m) layerId
  = LayerManager.isLayerVisible m layerId /\
  isLayerVisible (LayerManager.engine (LayerManager.hideAllLayers m)) layerId
  = false /\
  LayerManager.isLayerVisible (LayerManager.hideAllLayers m) layerId = false /\
  isLayerVisible (LayerManager.engine (LayerManager.showAllLayers m)) layerId
  = true /\
  LayerManager.isLayerVisible (LayerManager.showAllLayers m) layerId = true.
Proof.
  intros Hin m. pose proof (managerOk_used e calls) as Hok. fold m in Hok, Hin.
  destruct (in_keys_get _ _ Hin) as [l Hl].
  assert (Hf : LayerManager.flagged (LayerManager.ml_visible l) m layerId)
    by (exists l; split; [exact Hl|reflexivity]).
  destruct (flagged_engine _ _ _ Hok Hf) as [Hm He].
  destruct (setAll_spec false m Hok) as [Hok0 Hf0].
  destruct (setAll_spec true m Hok) as [Hok1 Hf1].
  destruct (flagged_engine _ _ _ Hok0 (Hf0 _ Hin)) as [Hm0 He0].
  destruct (flagged_engine _ _ _ Hok1 (Hf1 _ Hin)) as [Hm1 He1].
  unfold LayerManager.hideAllLayers, LayerManager.showAllLayers.
  repeat split; try assumption. congruence.
Qed.

Lemma layerManager_engine_in_sync_witness :
  In "ui"
    (JsMap.keys
       (LayerManager.managed
          (LayerManager.used (newEngine Sample.random) managerCalls))) /\
  isLayerVisible
    (LayerManager.engine
       (LayerManager.used (newEngine Sample.random) managerCalls)) "ui"
  = false /\
  isLayerVisible
    (LayerManager.engine
       (LayerManager.showAllLayers
          (LayerManager.used (newEngine Sample.random) managerCalls))) "ui"
  = true.
Proof.
  assert (Hin : In "ui"
            (JsMap.keys
               (LayerManager.managed
                  (LayerManager.used (newEngine Sample.random) managerCalls))))
    by (vm_compute; left; reflexivity).
  split; [exact Hin|].
  pose proof (layerManager_engine_in_sync (newEngine Sample.random)
                managerCalls "ui" Hin) as P.
  cbv zeta in P. destruct P as (P1 & _ & _ & P2 & _).
  split; [rewrite P1; reflexivity|exact P2].
Defined.

(* ================================================================== *)
(** * The numeric methods in binary64 *)

(** What the properties above owe to exact arithmetic: each of the
    following is an evaluation of the binary64 methods. *)

Section Binary64Facts.

Import PrimFloat.
#[local] Set Warnings "-inexact-float".
Local Open Scope float_scope.

(** In binary64 as in exact arithmetic, and for every viewport, each
    hit test returns the first element of its list that passes its
    test; what rounding changes is which elements pass. *)
Lemma binary64_getNodeAtPosition_first
    (e : Binary64.Engine) (screenPos : Binary64.Point) :
  Binary64.getNodeAtPosition e screenPos
  = find (Binary64.nodeHit e
            (Binary64.screenToWorld (Binary64.viewport e) screenPos))
      (JsMap.values (Binary64.nodes e)).
Proof.
  unfold Binary64.getNodeAtPosition.
  generalize (Binary64.screenToWorld (Binary64.viewport e) screenPos).
  intros w. induction (JsMap.values (Binary64.nodes e)) as [|n ns IH];
    [reflexivity|].
  cbn [Binary64.scanNodes find]. unfold Binary64.nodeHit at 1.
  destruct (Binary64.isLayerVisible e (Binary64.node_layer n)); cbn [negb andb].
  - destruct (Binary64.pointInRect w (Binary64.nodeRect e n));
      [reflexivity|exact IH].
  - exact IH.
Qed.

Lemma binary64_getConnectionAtPosition_first
    (e : Binary64.Engine) (screenPos : Binary64.Point) :
  Binary64.getConnectionAtPosition e screenPos
  = find (Binary64.hittable e
            (Binary64.screenToWorld (Binary64.viewport e) screenPos))
      (Binary64.connections e).
Proof.
  unfold Binary64.getConnectionAtPosition.
  generalize (Binary64.screenToWorld (Binary64.viewport e) screenPos).
  intros w. induction (Binary64.connections e) as [|c cs IH];
    [reflexivity|].
  cbn [Binary64.scanConnections find]. unfold Binary64.hittable at 1.
  destruct (JsMap.get (Binary64.nodes e) (conn_from c)) as [f|];
    [|exact IH].
  destruct (JsMap.get (Binary64.nodes e) (conn_to c)) as [t|];
    [|exact IH].
  destruct (Binary64.isLayerVisible e (Binary64.node_layer f));
    cbn [negb andb orb]; [|exact IH].
  destruct (Binary64.isLayerVisible e (Binary64.node_layer t));
    cbn [negb andb orb]; [|exact IH].
  destruct (Binary64.pointToLineDistance w
              {| Binary64.px := Binary64.node_x f;
                 Binary64.py := Binary64.node_y f |}
              {| Binary64.px := Binary64.node_x t;
                 Binary64.py := Binary64.node_y t |} <=? Binary64.tolerance);
    [reflexivity|exact IH].
Qed.

(** At zoom 0 the world point of a click is not finite, and both hit
    tests return null. *)
Lemma binary64_zoom_zero :
  let p := {| Binary64.px := 10; Binary64.py := 0 |} in
  let w := Binary64.screenToWorld (Binary64.viewport Sample64.flat) p in
  Binary64.px w = infinity /\ is_nan (Binary64.py w) = true /\
  Binary64.getNodeAtPosition Sample64.flat p = None /\
  Binary64.getConnectionAtPosition Sample64.flat p = None.
Proof. vm_compute. repeat split. Qed.

(** C3, as the claim has it, fails in binary64: on a new engine (zoom
    1, inside [0.1 .. 3]) one wheel tick at the screen point (15, 15)
    with a negative [deltaY] raises the zoom, and the world point under
    the mouse, which was (15, 15), is then below 15 on both axes. *)
Lemma binary64_handleWheel_moves_pivot :
  let v := Binary64.newViewport in
  let p := {| Binary64.px := 15; Binary64.py := 15 |} in
  let v' := Binary64.handleWheel v p (-100) in
  Binary64.screenToWorld v p = p /\
  (Binary64.minZoom v <=? Binary64.zoom v) = true /\
  (Binary64.zoom v <=? Binary64.maxZoom v) = true /\
  (Binary64.zoom v <? Binary64.zoom v') = true /\
  (Binary64.px (Binary64.screenToWorld v' p) <? 15) = true /\
  (Binary64.py (Binary64.screenToWorld v' p) <? 15) = true.
Proof. vm_compute. repeat split. Qed.

(** C4, as the claim has it, fails in its floating-point part: under
    a viewport panned to (1e9, 1e9) at zoom 1 the screen point
    (0.1, 0.1) comes back from [screenToWorld] and [worldToScreen] more
    than 1e-9 away on both axes. *)
Lemma binary64_roundtrip_error :
  let v :=
    {| Binary64.vx := 1e9; Binary64.vy := 1e9; Binary64.zoom := 1;
       Binary64.minZoom := 0.1; Binary64.maxZoom := 3 |} in
  let p := {| Binary64.px := 0.1; Binary64.py := 0.1 |} in
  let p' := Binary64.worldToScreen v (Binary64.screenToWorld v p) in
  (1e-9 <? abs (Binary64.px p' - Binary64.px p)) = true /\
  (1e-9 <? abs (Binary64.py p' - Binary64.py p)) = true.
Proof. vm_compute. split; reflexivity. Qed.

(** C9, as the claim has it, fails in binary64: with nodes [B] at
    (60, 80) and [A] at (0, 0), the connection [B -> A], the viewport of
    a new engine and a click at (10, 0), the world point is (10, 0), at
    distance 8 exactly of the segment, and in exact arithmetic the
    connection is hit; in binary64 the distance computed from [B] to
    [A] is above 8 and the hit test returns null. *)
Lemma binary64_getConnectionAtPosition_misses :
  (exists s,
      pointToLineDistance Sample64.clickExact
        {| px := 60%Q; py := 80%Q |} {| px := 0%Q; py := 0%Q |} = Some s /\
      (radicand s == 8 * 8)%Q) /\
  getConnectionAtPosition Sample64.reversedExact Sample64.clickExact
  = Some (Some Sample64.connBA) /\
  Binary64.screenToWorld (Binary64.viewport Sample64.reversed)
    {| Binary64.px := 10; Binary64.py := 0 |}
  = {| Binary64.px := 10; Binary64.py := 0 |} /\
  (8 <? Binary64.pointToLineDistance
          {| Binary64.px := 10; Binary64.py := 0 |}
          {| Binary64.px := 60; Binary64.py := 80 |}
          {| Binary64.px := 0; Binary64.py := 0 |}) = true /\
  Binary64.getConnectionAtPosition Sample64.reversed
    {| Binary64.px := 10; Binary64.py := 0 |} = None.
Proof.
  split.
  { eexists. split; [vm_compute; reflexivity|]. vm_compute. reflexivity. }
  vm_compute. repeat split.
Qed.

(** The distance to a segment depends on its direction: from (0, 0) to
    (60, 80) the point (10, 0) is at 8, from (60, 80) to (0, 0) above 8,
    so that the click that misses [B -> A] hits [A -> B]. *)
Lemma binary64_pointToLineDistance_direction :
  Binary64.pointToLineDistance
    {| Binary64.px := 10; Binary64.py := 0 |}
    {| Binary64.px := 0; Binary64.py := 0 |}
    {| Binary64.px := 60; Binary64.py := 80 |} = 8 /\
  (8 <? Binary64.pointToLineDistance
          {| Binary64.px := 10; Binary64.py := 0 |}
          {| Binary64.px := 60; Binary64.py := 80 |}
          {| Binary64.px := 0; Binary64.py := 0 |}) = true.
Proof. vm_compute. split; reflexivity. Qed.

(** The centre of a node does not come back from [worldToScreen] and
    [screenToWorld]: a click at the screen position of the centre of a
    node of size zero misses it. *)
Lemma binary64_center_not_restored :
  let v := Sample64.panned in
  let c := {| Binary64.px := 100.3; Binary64.py := 100.3 |} in
  (Binary64.px c
   <? Binary64.px (Binary64.screenToWorld v (Binary64.worldToScreen v c)))
  = true /\
  Binary64.getNodeAtPosition Sample64.dot (Binary64.worldToScreen v c) = None.
Proof. vm_compute. split; reflexivity. Qed.

(** [setZoom(1.3)] at zoom 1.1 on a canvas 801 wide moves the world
    point at the centre of the canvas. *)
Lemma binary64_setZoom_center_moves :
  let e := Sample64.odd in
  let center :=
    {| Binary64.px := Binary64.clientWidth e / 2;
       Binary64.py := Binary64.clientHeight e / 2 |} in
  (Binary64.px (Binary64.screenToWorld (Binary64.setZoom e 1.3) center)
   <? Binary64.px (Binary64.screenToWorld (Binary64.viewport e) center))
  = true.
Proof. vm_compute. reflexivity. Qed.

(** [zoomToFit] on two nodes 300 apart (node size 120 x 80, padding 20,
    canvas 800 x 600) puts the left edge of the first node at less than
    the padding. *)
Lemma binary64_zoomToFit_corner_outside :
  let e := Sample64.pair in
  let corner :=
    {| Binary64.px := 0 - Binary64.nodeWidth e / 2;
       Binary64.py := 0 - Binary64.nodeHeight e / 2 |} in
  (Binary64.px (Binary64.worldToScreen (Binary64.zoomToFit e) corner)
   <? Binary64.padding e) = true.
Proof. vm_compute. reflexivity. Qed.

(** The last frame of an animation from 0.7 to 0.1, and of a pan from
    (0.7, 5.3) to (0.1, 1.1), does not land on the target. *)
Lemma binary64_animation_misses_target :
  (Binary64.animateValue 0.7 0.1 300 Binary64.easeOutQuad 300 <? 0.1) = true /\
  (fst (Binary64.animateViewportPan 0.7 5.3 0.1 1.1 300 300) <? 0.1) = true /\
  (1.1 <? snd (Binary64.animateViewportPan 0.7 5.3 0.1 1.1 300 300)) = true.
Proof. vm_compute. repeat split. Qed.

End Binary64Facts.
